(** * jobspy-js: the normalisation pipeline, embedded and verified

    A shallow embedding of the parts of jobspy-js that its specification
    makes promises about: the country registry, the job types and the
    enumerations of [src/types.ts]; salary inference, the extraction of
    emails and job types from a text, currency parsing, annual salaries
    and proxy rotation of [src/utils.ts]; the orchestrator of
    [src/scraper.ts] (site resolution, dispatch, flattening, final sort);
    the pagination and deduplication logic of the site adapters, with the
    session set-up of their base class; and the CSV cells of
    [src/cli/index.ts].

    Conventions of the embedding.
    - A JavaScript string is the list of its UTF-16 code units ([jsstring]).
      Case mapping is modelled on the ASCII letters; code units outside
      ASCII are left as they are.  What is proved of a function that maps
      case is stated for strings on which this is what the runtime does.
    - The collation of [localeCompare] is modelled by code-unit order,
      with which it agrees on the values of [Site] and on dates of the
      form [YYYY-MM-DD].
    - The fields of a job post hold values of the types the interfaces of
      [src/types.ts] declare.
    - A JavaScript [number] is an exact rational ([Q]).  Every comparison
      the code makes is made on the same quantities here.
    - [undefined]/[null] of an optional field is [None].
    - The network is an oracle: each adapter is a function of the pages the
      remote site answers with.
    - A [throw] is the [Throw] constructor of [result]. *)

From Stdlib Require Import ZArith NArith QArith Qround Ascii String Lia.
From Stdlib Require Import DecimalString Permutation Sorted.
From stdpp Require Import base list gmap sets.

Set Default Proof Using "Type".
Local Open Scope Z_scope.

(** ** JavaScript strings *)

Module JS.

Definition jsstring := list N.

(** A literal: the code units of an ASCII string. *)
Definition u (s : string) : jsstring :=
  List.map N_of_ascii (list_ascii_of_string s).

Definition eqb (a b : jsstring) : bool := bool_decide (a = b).

(** [s] is truthy: the non-empty string. *)
Definition truthy (s : jsstring) : bool :=
  match s with [] => false | _ :: _ => true end.

(** ECMAScript WhiteSpace and LineTerminator, the class [\s] and what
    [trim] removes. *)
Definition isWhiteSpace (c : N) : bool :=
  ((9 <=? c) && (c <=? 13) || (c =? 32) || (c =? 160) || (c =? 5760)
   || (8192 <=? c) && (c <=? 8202) || (c =? 8232) || (c =? 8233)
   || (c =? 8239) || (c =? 8287) || (c =? 12288) || (c =? 65279))%N.

Definition isDigit (c : N) : bool := ((48 <=? c) && (c <=? 57))%N.

Definition lowerCU (c : N) : N :=
  if ((65 <=? c) && (c <=? 90))%N then (c + 32)%N else c.
Definition upperCU (c : N) : N :=
  if ((97 <=? c) && (c <=? 122))%N then (c - 32)%N else c.

Definition toLowerCase (s : jsstring) : jsstring := List.map lowerCU s.
Definition toUpperCase (s : jsstring) : jsstring := List.map upperCU s.

Fixpoint trimStart (s : jsstring) : jsstring :=
  match s with
  | c :: s' => if isWhiteSpace c then trimStart s' else s
  | [] => []
  end.
Definition trimEnd (s : jsstring) : jsstring := rev (trimStart (rev s)).
Definition trim (s : jsstring) : jsstring := trimEnd (trimStart s).

(** [s.includes(c)] and [s.split(c)] for a one-character separator. *)
Definition includesCU (c : N) (s : jsstring) : bool :=
  existsb (N.eqb c) s.

Fixpoint split (sep : N) (s : jsstring) : list jsstring :=
  match s with
  | [] => [[]]
  | c :: s' =>
      if (c =? sep)%N then [] :: split sep s'
      else match split sep s' with
           | w :: ws => (c :: w) :: ws
           | [] => [[c]]
           end
  end.

(** [parts.join(sep)]. *)
Fixpoint join (sep : jsstring) (parts : list jsstring) : jsstring :=
  match parts with
  | [] => []
  | [p] => p
  | p :: ps => p ++ sep ++ join sep ps
  end.

(** [s.startsWith(p)]. *)
Fixpoint startsWith (p s : jsstring) : bool :=
  match p, s with
  | [], _ => true
  | a :: p', b :: s' => (a =? b)%N && startsWith p' s'
  | _ :: _, [] => false
  end.

(** [s.includes(p)] for a string [p]. *)
Fixpoint includes (p s : jsstring) : bool :=
  startsWith p s ||
  match s with
  | [] => false
  | _ :: s' => includes p s'
  end.

(** Code-unit order.  [a.localeCompare(b)] is the order of the collation
    of the runtime, which is not part of the program; it is modelled by
    code-unit order (as -1, 0 or 1), with which it agrees on the strings
    the orchestrator is meant to sort by: the values of [Site], made of
    lower-case ASCII letters and [_], and dates of the form [YYYY-MM-DD],
    made of digits and [-] at fixed places.  On other strings the two
    differ (collation has [-] before [+], [a] before [B], and characters
    it ignores); what is proved of the order of the result is therefore
    stated for such dates only. *)
Fixpoint compareCU (a b : jsstring) : comparison :=
  match a, b with
  | [], [] => Eq
  | [], _ :: _ => Lt
  | _ :: _, [] => Gt
  | x :: a', y :: b' =>
      match (x ?= y)%N with
      | Eq => compareCU a' b'
      | c => c
      end
  end.

Definition localeCompare (a b : jsstring) : Z :=
  match compareCU a b with Lt => -1 | Eq => 0 | Gt => 1 end.

(** Decimal digits of a non-negative integer, [String(n)]. *)
Definition ofN (n : N) : jsstring :=
  u (DecimalString.NilZero.string_of_uint (N.to_uint n)).

(** [Array.prototype.slice(start, end)] with its handling of negative and
    out-of-range indices. *)
Definition sliceIndex (len i : Z) : Z :=
  if i <? 0 then Z.max (len + i) 0 else Z.min i len.

Definition slice {A} (l : list A) (start stop : Z) : list A :=
  let len := Z.of_nat (length l) in
  let k := sliceIndex len start in
  let e := sliceIndex len stop in
  take (Z.to_nat (e - k)) (drop (Z.to_nat k) l).

(** A thrown [Error] or a returned value. *)
Inductive result (A : Type) : Type :=
  | Ok (a : A)
  | Throw (message : jsstring).
Arguments Ok {A} a.
Arguments Throw {A} message.

Definition bind {A B} (r : result A) (k : A -> result B) : result B :=
  match r with
  | Ok a => k a
  | Throw m => Throw m
  end.

(** [x != null] *)
Definition notNull {A} (o : option A) : bool :=
  match o with Some _ => true | None => false end.

(** How an [async] function ends: its promise is fulfilled, is rejected, or
    never settles. *)
Inductive settled (A : Type) : Type :=
  | Fulfilled (a : A)
  | Rejected (reason : jsstring)
  | Pending.
Arguments Fulfilled {A} a.
Arguments Rejected {A} reason.
Arguments Pending {A}.

End JS.
Import JS.

Notation "x <-! r ;; k" := (JS.bind r (fun x => k))
  (at level 100, r at next level, right associativity).

(** ** [src/types.ts]: enumerations, records, the country registry *)

Module Types.

Inductive Site :=
  | LINKEDIN | INDEED | ZIP_RECRUITER | GLASSDOOR | GOOGLE
  | GOOGLE_CAREERS | BAYT | NAUKRI | BDJOBS.

#[global] Instance Site_eq_dec : EqDecision Site.
Proof. solve_decision. Defined.

(** The value of an enum member, and the key it is declared under. *)
Definition Site_value (s : Site) : jsstring :=
  match s with
  | LINKEDIN => u "linkedin"
  | INDEED => u "indeed"
  | ZIP_RECRUITER => u "zip_recruiter"
  | GLASSDOOR => u "glassdoor"
  | GOOGLE => u "google"
  | GOOGLE_CAREERS => u "google_careers"
  | BAYT => u "bayt"
  | NAUKRI => u "naukri"
  | BDJOBS => u "bdjobs"
  end.

Definition Site_key (s : Site) : jsstring :=
  match s with
  | LINKEDIN => u "LINKEDIN"
  | INDEED => u "INDEED"
  | ZIP_RECRUITER => u "ZIP_RECRUITER"
  | GLASSDOOR => u "GLASSDOOR"
  | GOOGLE => u "GOOGLE"
  | GOOGLE_CAREERS => u "GOOGLE_CAREERS"
  | BAYT => u "BAYT"
  | NAUKRI => u "NAUKRI"
  | BDJOBS => u "BDJOBS"
  end.

(** [Object.values(Site)], in declaration order. *)
Definition Site_values : list Site :=
  [LINKEDIN; INDEED; ZIP_RECRUITER; GLASSDOOR; GOOGLE;
   GOOGLE_CAREERS; BAYT; NAUKRI; BDJOBS].

Inductive JobType :=
  | FULL_TIME | PART_TIME | CONTRACT | TEMPORARY | INTERNSHIP
  | PER_DIEM | NIGHTS | OTHER | SUMMER | VOLUNTEER.

Definition JobType_value (t : JobType) : jsstring :=
  match t with
  | FULL_TIME => u "fulltime"
  | PART_TIME => u "parttime"
  | CONTRACT => u "contract"
  | TEMPORARY => u "temporary"
  | INTERNSHIP => u "internship"
  | PER_DIEM => u "perdiem"
  | NIGHTS => u "nights"
  | OTHER => u "other"
  | SUMMER => u "summer"
  | VOLUNTEER => u "volunteer"
  end.

Definition JobType_values : list JobType :=
  [FULL_TIME; PART_TIME; CONTRACT; TEMPORARY; INTERNSHIP;
   PER_DIEM; NIGHTS; OTHER; SUMMER; VOLUNTEER].

Inductive CompensationInterval := YEARLY | MONTHLY | WEEKLY | DAILY | HOURLY.

Definition CompensationInterval_value (i : CompensationInterval) : jsstring :=
  match i with
  | YEARLY => u "yearly"
  | MONTHLY => u "monthly"
  | WEEKLY => u "weekly"
  | DAILY => u "daily"
  | HOURLY => u "hourly"
  end.

Definition getCompensationInterval (payPeriod : jsstring)
  : option CompensationInterval :=
  let k := toUpperCase payPeriod in
  if eqb k (u "DAY") || eqb k (u "DAILY") then Some DAILY
  else if eqb k (u "YEAR") || eqb k (u "YEARLY") || eqb k (u "ANNUAL")
  then Some YEARLY
  else if eqb k (u "HOUR") || eqb k (u "HOURLY") then Some HOURLY
  else if eqb k (u "WEEK") || eqb k (u "WEEKLY") then Some WEEKLY
  else if eqb k (u "MONTH") || eqb k (u "MONTHLY") then Some MONTHLY
  else None.

Inductive DescriptionFormat := MARKDOWN | HTML | PLAIN.

Inductive SalarySource := DIRECT_DATA | DESCRIPTION.

Definition SalarySource_value (s : SalarySource) : jsstring :=
  match s with
  | DIRECT_DATA => u "direct_data"
  | DESCRIPTION => u "description"
  end.

Record Location := {
  city : option jsstring;
  state : option jsstring;
  country : option jsstring;
}.

Record Compensation := {
  interval : option CompensationInterval;
  min_amount : option Q;
  max_amount : option Q;
  currency : option jsstring;
}.

Record JobPost := {
  id : option jsstring;
  title : jsstring;
  company_name : option jsstring;
  job_url : jsstring;
  job_url_direct : option jsstring;
  location : option Location;
  description : option jsstring;
  company_url : option jsstring;
  company_url_direct : option jsstring;
  job_type : option (list JobType);
  compensation : option Compensation;
  date_posted : option jsstring;
  emails : option (list jsstring);
  is_remote : option bool;
  listing_type : option jsstring;
  job_level : option jsstring;
  company_industry : option jsstring;
  company_addresses : option jsstring;
  company_num_employees : option jsstring;
  company_revenue : option jsstring;
  company_description : option jsstring;
  company_logo : option jsstring;
  banner_photo_url : option jsstring;
  job_function : option jsstring;
  skills : option (list jsstring);
  experience_range : option jsstring;
  company_rating : option Q;
  company_reviews_count : option Q;
  vacancy_count : option Q;
  work_from_home_type : option jsstring;
}.

Record JobResponse := { jobs : list JobPost }.

Record Country := {
  name : jsstring;
  indeed_domain : jsstring;
  indeed_api_code : jsstring;
  glassdoor_domain : option jsstring;
}.

(** The own properties of [COUNTRIES], in insertion order.  [COUNTRIES[n] =
    country] overwrites the value of a key that is there and appends a new
    one otherwise. *)
Definition Registry := list (jsstring * Country).

Fixpoint setProperty (n : jsstring) (c : Country) (r : Registry) : Registry :=
  match r with
  | [] => [(n, c)]
  | (k, v) :: r' =>
      if eqb k n then (k, c) :: r' else (k, v) :: setProperty n c r'
  end.

Fixpoint ownProperty (n : jsstring) (r : Registry) : option Country :=
  match r with
  | [] => None
  | (k, v) :: r' => if eqb k n then Some v else ownProperty n r'
  end.

Definition addCountry (names indeedDomain : jsstring)
    (glassdoorDomain : option jsstring) (COUNTRIES : Registry) : Registry :=
  let nameList := List.map (fun n => toLowerCase (trim n)) (split 44 names) in
  let '(domain, apiCode) :=
    if includesCU 58 indeedDomain
    then match split 58 indeedDomain with
         | d :: a :: _ => (d, a)
         | _ => (indeedDomain, toUpperCase indeedDomain)
         end
    else (indeedDomain, toUpperCase indeedDomain) in
  let gdDomain :=
    match glassdoorDomain with
    | Some gd =>
        if truthy gd then
          let '(sub, tld) :=
            if includesCU 58 gd
            then match split 58 gd with
                 | s :: t :: _ => (s, t)
                 | _ => (u "www", gd)
                 end
            else (u "www", gd) in
          Some (if truthy tld
                then sub ++ u ".glassdoor." ++ tld
                else u "www.glassdoor." ++ gd)
        else None
    | None => None
    end in
  let country := {|
    name := hd [] nameList;
    indeed_domain := domain;
    indeed_api_code := toUpperCase apiCode;
    glassdoor_domain := gdDomain;
  |} in
  fold_left (fun r n => setProperty n country r) nameList COUNTRIES.

(** The calls [addCountry(...)] of the module body, in order. *)
Definition registrations : list (jsstring * jsstring * option jsstring) :=
  [ (u "argentina", u "ar", Some (u "com.ar"));
    (u "australia", u "au", Some (u "com.au"));
    (u "austria", u "at", Some (u "at"));
    (u "bahrain", u "bh", None);
    (u "bangladesh", u "bd", None);
    (u "belgium", u "be", Some (u "fr:be"));
    (u "brazil", u "br", Some (u "com.br"));
    (u "canada", u "ca", Some (u "ca"));
    (u "chile", u "cl", None);
    (u "china", u "cn", None);
    (u "colombia", u "co", None);
    (u "costa rica", u "cr", None);
    (u "czech republic,czechia", u "cz", None);
    (u "denmark", u "dk", None);
    (u "ecuador", u "ec", None);
    (u "egypt", u "eg", None);
    (u "finland", u "fi", None);
    (u "france", u "fr", Some (u "fr"));
    (u "germany", u "de", Some (u "de"));
    (u "greece", u "gr", None);
    (u "hong kong", u "hk", Some (u "com.hk"));
    (u "hungary", u "hu", None);
    (u "india", u "in", Some (u "co.in"));
    (u "indonesia", u "id", None);
    (u "ireland", u "ie", Some (u "ie"));
    (u "israel", u "il", None);
    (u "italy", u "it", Some (u "it"));
    (u "japan", u "jp", None);
    (u "kuwait", u "kw", None);
    (u "luxembourg", u "lu", None);
    (u "malaysia", u "malaysia:my", Some (u "com"));
    (u "mexico", u "mx", Some (u "com.mx"));
    (u "morocco", u "ma", None);
    (u "netherlands", u "nl", Some (u "nl"));
    (u "new zealand", u "nz", Some (u "co.nz"));
    (u "nigeria", u "ng", None);
    (u "norway", u "no", None);
    (u "oman", u "om", None);
    (u "pakistan", u "pk", None);
    (u "panama", u "pa", None);
    (u "peru", u "pe", None);
    (u "philippines", u "ph", None);
    (u "poland", u "pl", None);
    (u "portugal", u "pt", None);
    (u "qatar", u "qa", None);
    (u "romania", u "ro", None);
    (u "saudi arabia", u "sa", None);
    (u "singapore", u "sg", Some (u "sg"));
    (u "south africa", u "za", None);
    (u "south korea", u "kr", None);
    (u "spain", u "es", Some (u "es"));
    (u "sweden", u "se", None);
    (u "switzerland", u "ch", Some (u "de:ch"));
    (u "taiwan", u "tw", None);
    (u "thailand", u "th", None);
    (* "türkiye,turkey": U+00FC is the code unit 252 *)
    (u "t" ++ [252%N] ++ u "rkiye,turkey", u "tr", None);
    (u "ukraine", u "ua", None);
    (u "united arab emirates", u "ae", None);
    (u "uk,united kingdom", u "uk:gb", Some (u "co.uk"));
    (u "usa,us,united states", u "www:us", Some (u "com"));
    (u "uruguay", u "uy", None);
    (u "venezuela", u "ve", None);
    (u "vietnam", u "vn", Some (u "com"));
    (u "usa/ca", u "www", None);
    (u "worldwide", u "www", None) ].

Definition COUNTRIES : Registry :=
  fold_left (fun r '(names, indeed, gd) => addCountry names indeed gd r)
            registrations [].

(** [COUNTRIES] is created by the object literal [{}]: a property it does
    not own is looked up on [Object.prototype].  These are the properties
    found there. *)
Definition Object_prototype_keys : list jsstring :=
  [ u "constructor"; u "__proto__"; u "hasOwnProperty"; u "isPrototypeOf";
    u "propertyIsEnumerable"; u "toLocaleString"; u "toString"; u "valueOf";
    u "__defineGetter__"; u "__defineSetter__"; u "__lookupGetter__";
    u "__lookupSetter__" ].

(** What [COUNTRIES[key]] evaluates to. *)
Inductive CountryValue :=
  | Registered (c : Country)
  | Inherited (key : jsstring).

Definition getProperty (key : jsstring) (r : Registry) : option CountryValue :=
  match ownProperty key r with
  | Some c => Some (Registered c)
  | None =>
      if existsb (eqb key) Object_prototype_keys
      then Some (Inherited key) else None
  end.

(** [Object.keys(COUNTRIES).join(", ")]. *)
Definition validCountries (r : Registry) : jsstring :=
  join (u ", ") (List.map fst r).

Definition invalidCountryMessage (name : jsstring) : jsstring :=
  u "Invalid country: '" ++ name ++ u "'. Valid countries: "
    ++ validCountries COUNTRIES.

(** Every value found on [Object.prototype] is a function or an object, so
    [!country] is false for it. *)
Definition getCountry (name : jsstring) : result CountryValue :=
  let key := toLowerCase (trim name) in
  match getProperty key COUNTRIES with
  | None => Throw (invalidCountryMessage name)
  | Some country => Ok country
  end.

(** [country.name], [country.glassdoor_domain], ... as the callers read
    them.  Of the inherited values, [constructor] is the function [Object],
    whose [name] is ["Object"]; [__proto__] is [Object.prototype] itself,
    which has no [name]; the others are functions named by their key.  The
    other properties are undefined on the inherited values. *)
Definition CountryValue_name (v : CountryValue) : option jsstring :=
  match v with
  | Registered c => Some (name c)
  | Inherited k =>
      if eqb k (u "constructor") then Some (u "Object")
      else if eqb k (u "__proto__") then None
      else Some k
  end.

Definition CountryValue_glassdoor_domain (v : CountryValue) : option jsstring :=
  match v with
  | Registered c => glassdoor_domain c
  | Inherited _ => None
  end.

Definition CountryValue_indeed_domain (v : CountryValue) : option jsstring :=
  match v with
  | Registered c => Some (indeed_domain c)
  | Inherited _ => None
  end.

Definition displayLocation (loc : Location) : jsstring :=
  let parts0 := match city loc with
                | Some c => if truthy c then [c] else []
                | None => []
                end in
  let parts1 := match state loc with
                | Some s => if truthy s then parts0 ++ [s] else parts0
                | None => parts0
                end in
  let parts2 :=
    match country loc with
    | Some co =>
        if truthy co then
          let c := toLowerCase co in
          if eqb c (u "usa") || eqb c (u "us") || eqb c (u "uk")
          then parts1 ++ [toUpperCase c]
          else if negb (eqb c (u "worldwide")) && negb (eqb c (u "usa/ca"))
          then parts1 ++ [toUpperCase (take 1 c) ++ drop 1 c]
          else parts1
        else parts1
    | None => parts1
    end in
  join (u ", ") parts2.

(** [JOB_TYPE_ALIASES], in the order of the object literal.  A key that has
    code units outside ASCII is written as the list of its code units. *)
Definition JOB_TYPE_ALIASES : list (jsstring * JobType) :=
  [
    (u "fulltime", FULL_TIME);
    ([112; 101; 114; 237; 111; 100; 111; 105; 110; 116; 101; 103; 114; 97;
      108]%N,
     FULL_TIME);
    ([101; 115; 116; 225; 103; 105; 111; 47; 116; 114; 97; 105; 110; 101;
      101]%N,
     FULL_TIME);
    ([99; 117; 110; 111; 114; 109; 259; 238; 110; 116; 114; 101; 97; 103;
      259]%N,
     FULL_TIME);
    (u "tiempocompleto", FULL_TIME);
    (u "vollzeit", FULL_TIME);
    (u "voltijds", FULL_TIME);
    (u "tempointegral", FULL_TIME);
    ([20840; 32844]%N, FULL_TIME);
    ([112; 108; 110; 253; 250; 118; 97; 122; 101; 107]%N, FULL_TIME);
    (u "fuldtid", FULL_TIME);
    ([1583; 1608; 1575; 1605; 1603; 1575; 1605; 1604]%N, FULL_TIME);
    ([107; 111; 107; 111; 112; 228; 105; 118; 228; 116; 121; 246]%N,
     FULL_TIME);
    (u "tempsplein", FULL_TIME);
    ([960; 955; 942; 961; 951; 962; 945; 960; 945; 963; 967; 972; 955; 951;
      963; 951]%N,
     FULL_TIME);
    ([116; 101; 108; 106; 101; 115; 109; 117; 110; 107; 97; 105; 100; 337]%N,
     FULL_TIME);
    (u "tempopieno", FULL_TIME);
    (u "heltid", FULL_TIME);
    (u "jornadacompleta", FULL_TIME);
    ([112; 101; 322; 110; 121; 101; 116; 97; 116]%N, FULL_TIME);
    ([51221; 44508; 51649]%N, FULL_TIME);
    (u "100%", FULL_TIME);
    ([20840; 32887]%N, FULL_TIME);
    ([3591; 3634; 3609; 3611; 3619; 3632; 3592; 3635]%N, FULL_TIME);
    ([116; 97; 109; 122; 97; 109; 97; 110; 108; 305]%N, FULL_TIME);
    ([1087; 1086; 1074; 1085; 1072; 1079; 1072; 1081; 1085; 1103; 1090;
      1110; 1089; 1090; 1100]%N,
     FULL_TIME);
    ([116; 111; 224; 110; 116; 104; 7901; 105; 103; 105; 97; 110]%N,
     FULL_TIME);
    (u "parttime", PART_TIME);
    (u "teilzeit", PART_TIME);
    ([269; 225; 115; 116; 101; 269; 110; 253; 250; 118; 97; 122; 101; 107]%N,
     PART_TIME);
    (u "deltid", PART_TIME);
    (u "contract", CONTRACT);
    (u "contractor", CONTRACT);
    (u "temporary", TEMPORARY);
    (u "internship", INTERNSHIP);
    ([112; 114; 225; 99; 116; 105; 99; 97; 115]%N, INTERNSHIP);
    (u "ojt(onthejobtraining)", INTERNSHIP);
    (u "praktikum", INTERNSHIP);
    (u "praktik", INTERNSHIP);
    (u "perdiem", PER_DIEM);
    (u "nights", NIGHTS);
    (u "other", OTHER);
    (u "summer", SUMMER);
    (u "volunteer", VOLUNTEER) ].

(** What [JOB_TYPE_ALIASES[normalized]] evaluates to when it is not
    undefined: a job type or, the object being created by an object
    literal, a value found on [Object.prototype]. *)
Inductive JobTypeValue :=
  | Alias (t : JobType)
  | InheritedAlias (key : jsstring).

(** [value.replace(/[-\s]/g, <empty>).toLowerCase()] *)
Definition normalizeJobType (value : jsstring) : jsstring :=
  toLowerCase
    (List.filter (fun c => negb ((c =? 45)%N || isWhiteSpace c)) value).

Definition getJobTypeFromString (value : jsstring) : option JobTypeValue :=
  let normalized := normalizeJobType value in
  match List.find (fun kv => eqb (fst kv) normalized) JOB_TYPE_ALIASES with
  | Some (_, t) => Some (Alias t)
  | None =>
      if existsb (eqb normalized) Object_prototype_keys
      then Some (InheritedAlias normalized) else None
  end.

(** The request every adapter is handed, [ScraperInput]. *)
Module Input.
Record ScraperInput := {
  site_type : list Site;
  search_term : option jsstring;
  google_search_term : option jsstring;
  location : option jsstring;
  country : option CountryValue;
  distance : option Z;
  is_remote : option bool;
  job_type : option JobType;
  easy_apply : option bool;
  offset : option Z;
  linkedin_fetch_description : option bool;
  linkedin_company_ids : option (list Z);
  description_format : option DescriptionFormat;
  results_wanted : option Z;
  hours_old : option Z;
}.
End Input.

(** [site_name]: one string or an array of strings.  The members of [Site]
    are strings at run time, so [typeof s === "string"] holds for them
    too. *)
Inductive SiteName :=
  | OneSite (s : jsstring)
  | ManySites (l : list jsstring).

(** The caller's parameter bag, [ScrapeJobsParams]. *)
Module Params.
Record ScrapeJobsParams := {
  site_name : option SiteName;
  search_term : option jsstring;
  google_search_term : option jsstring;
  location : option jsstring;
  distance : option Z;
  is_remote : option bool;
  job_type : option jsstring;
  easy_apply : option bool;
  results_wanted : option Z;
  country_indeed : option jsstring;
  proxies : option (list jsstring);
  description_format : option DescriptionFormat;
  linkedin_fetch_description : option bool;
  linkedin_company_ids : option (list Z);
  offset : option Z;
  hours_old : option Z;
  enforce_annual_salary : option bool;
  verbose : option Z;
}.
End Params.

End Types.
Import Types.

(** ** [src/scraper.ts]: the flat output record *)

Module Flat.
Record FlatJobRecord := {
  id : option jsstring;
  site : jsstring;
  job_url : jsstring;
  job_url_direct : option jsstring;
  title : jsstring;
  company : option jsstring;
  location : option jsstring;
  date_posted : option jsstring;
  job_type : option jsstring;
  salary_source : option jsstring;
  interval : option jsstring;
  min_amount : option Q;
  max_amount : option Q;
  currency : option jsstring;
  is_remote : option bool;
  job_level : option jsstring;
  job_function : option jsstring;
  listing_type : option jsstring;
  emails : option jsstring;
  description : option jsstring;
  company_industry : option jsstring;
  company_url : option jsstring;
  company_logo : option jsstring;
  company_url_direct : option jsstring;
  company_addresses : option jsstring;
  company_num_employees : option jsstring;
  company_revenue : option jsstring;
  company_description : option jsstring;
  skills : option jsstring;
  experience_range : option jsstring;
  company_rating : option Q;
  company_reviews_count : option Q;
  vacancy_count : option Q;
  work_from_home_type : option jsstring;
}.

(** The assignments [record.f = v] that [flattenJob] and [convertToAnnual]
    make. *)
Definition set_salary (r : FlatJobRecord)
    (i : option jsstring) (lo hi : option Q) (cur src : option jsstring)
  : FlatJobRecord :=
  {| id := id r; site := site r; job_url := job_url r;
     job_url_direct := job_url_direct r; title := title r;
     company := company r; location := location r;
     date_posted := date_posted r; job_type := job_type r;
     salary_source := src; interval := i; min_amount := lo;
     max_amount := hi; currency := cur; is_remote := is_remote r;
     job_level := job_level r; job_function := job_function r;
     listing_type := listing_type r; emails := emails r;
     description := description r;
     company_industry := company_industry r;
     company_url := company_url r; company_logo := company_logo r;
     company_url_direct := company_url_direct r;
     company_addresses := company_addresses r;
     company_num_employees := company_num_employees r;
     company_revenue := company_revenue r;
     company_description := company_description r; skills := skills r;
     experience_range := experience_range r;
     company_rating := company_rating r;
     company_reviews_count := company_reviews_count r;
     vacancy_count := vacancy_count r;
     work_from_home_type := work_from_home_type r |}.

Definition set_salary_source (r : FlatJobRecord) (src : option jsstring)
  : FlatJobRecord :=
  set_salary r (interval r) (min_amount r) (max_amount r) (currency r) src.

End Flat.

(** ** [src/utils.ts]: salary inference and annualisation *)

Module Utils.

(** *** The regular expressions [extractSalary] needs

    A backtracking matcher for the fragment of regular expressions the
    salary pattern is written in: character classes, sequence, greedy
    [?] and greedy repetition of a class, capture groups. *)

Inductive regex :=
  | Eps
  | Chr (p : N -> bool)
  | Seq (r1 r2 : regex)
  | Opt (r : regex)
  | Star (p : N -> bool)
  | Group (n : nat) (r : regex).

Definition Plus (p : N -> bool) : regex := Seq (Chr p) (Star p).

Definition captures := list (nat * jsstring).

Fixpoint capture (n : nat) (c : captures) : option jsstring :=
  match c with
  | [] => None
  | (m, s) :: c' => if Nat.eqb m n then Some s else capture n c'
  end.

Section Matcher.
Context {R : Type}.

(** Greedy [p*]: the longest run first, one code unit given back at a
    time while the continuation fails. *)
Fixpoint matchStar (p : N -> bool) (s : jsstring) (c : captures)
    (k : jsstring -> captures -> option R) : option R :=
  match s with
  | x :: s' =>
      if p x then
        match matchStar p s' c k with
        | Some r => Some r
        | None => k s c
        end
      else k s c
  | [] => k [] c
  end.

Fixpoint matchRe (r : regex) (s : jsstring) (c : captures)
    (k : jsstring -> captures -> option R) : option R :=
  match r with
  | Eps => k s c
  | Chr p =>
      match s with
      | x :: s' => if p x then k s' c else None
      | [] => None
      end
  | Seq r1 r2 => matchRe r1 s c (fun s1 c1 => matchRe r2 s1 c1 k)
  | Opt r1 =>
      match matchRe r1 s c k with
      | Some res => Some res
      | None => k s c
      end
  | Star p => matchStar p s c k
  | Group n r1 =>
      matchRe r1 s c
        (fun s1 c1 => k s1 ((n, take (length s - length s1) s) :: c1))
  end.
End Matcher.

(** [text.match(r)] for a pattern without the [g] flag: the captures of the
    leftmost match. *)
Fixpoint search (r : regex) (text : jsstring) : option captures :=
  match matchRe r text [] (fun _ c => Some c) with
  | Some c => Some c
  | None =>
      match text with
      | [] => None
      | _ :: text' => search r text'
      end
  end.

Definition isChar (c : N) : N -> bool := N.eqb c.
Definition isK (c : N) : bool := (c =? 107)%N || (c =? 75)%N.
(** [[-—–]]: hyphen-minus, em dash U+2014, en dash U+2013. *)
Definition isDash (c : N) : bool :=
  (c =? 45)%N || (c =? 8212)%N || (c =? 8211)%N.

(** [\d+(?:,\d+)?(?:\.\d+)?] *)
Definition amount : regex :=
  Seq (Plus isDigit)
      (Seq (Opt (Seq (Chr (isChar 44)) (Plus isDigit)))
           (Opt (Seq (Chr (isChar 46)) (Plus isDigit)))).

(** [/\$(\d+(?:,\d+)?(?:\.\d+)?)([kK]?)\s*[-—–]\s*(?:\$)?(\d+(?:,\d+)?(?:\.\d+)?)([kK]?)/] *)
Definition pattern : regex :=
  Seq (Chr (isChar 36))
  (Seq (Group 1 amount)
  (Seq (Group 2 (Opt (Chr isK)))
  (Seq (Star isWhiteSpace)
  (Seq (Chr isDash)
  (Seq (Star isWhiteSpace)
  (Seq (Opt (Chr (isChar 36)))
  (Seq (Group 3 amount)
       (Group 4 (Opt (Chr isK)))))))))).

(** *** Numbers *)

Definition number := Q.

(** The product of two numbers, kept in lowest terms. *)
Definition times (a b : number) : number := Qred (a * b).

Definition ltb (a b : number) : bool := negb (Qle_bool b a).
Definition gtb (a b : number) : bool := ltb b a.
Definition geb (a b : number) : bool := Qle_bool b a.

Fixpoint takeWhile (p : N -> bool) (s : jsstring) : jsstring :=
  match s with
  | c :: s' => if p c then c :: takeWhile p s' else []
  | [] => []
  end.

Definition digitsValue (ds : jsstring) : N :=
  fold_left (fun acc d => (acc * 10 + (d - 48))%N) ds 0%N.

(** [parseFloat] on a string that starts with an unsigned decimal literal
    without exponent: the digits, and the fraction when a [.] and a digit
    follow.  Any other string is not a number ([None] for [NaN]). *)
Definition parseFloat (s : jsstring) : option number :=
  let ip := takeWhile isDigit s in
  let rest := drop (length ip) s in
  match ip with
  | [] => None
  | _ :: _ =>
      let fp := match rest with
                | 46%N :: r => takeWhile isDigit r
                | _ => []
                end in
      let scale := (10 ^ N.of_nat (length fp))%N in
      Some (Qred (Z.of_N (digitsValue ip * scale + digitsValue fp)
                  # N.succ_pos (N.pred scale)))
  end.

(** [s.replace(/,/g, "")] *)
Definition removeCommas (s : jsstring) : jsstring :=
  List.filter (fun c => negb (c =? 44)%N) s.

Module Salary.
Record ExtractedSalary := {
  interval : jsstring;
  min_amount : number;
  max_amount : number;
  currency : jsstring;
}.
End Salary.

Module Opts.
Record SalaryOptions := {
  lowerLimit : option number;
  upperLimit : option number;
  hourlyThreshold : option number;
  monthlyThreshold : option number;
  enforceAnnual : option bool;
}.
Definition none : SalaryOptions :=
  {| lowerLimit := None; upperLimit := None; hourlyThreshold := None;
     monthlyThreshold := None; enforceAnnual := None |}.
End Opts.

Definition extractSalary (text : option jsstring) (opts : Opts.SalaryOptions)
  : option Salary.ExtractedSalary :=
  match text with
  | None => None
  | Some text =>
  if negb (truthy text) then None else
  let lowerLimit := default 1000%Q (Opts.lowerLimit opts) in
  let upperLimit := default 700000%Q (Opts.upperLimit opts) in
  let hourlyThreshold := default 350%Q (Opts.hourlyThreshold opts) in
  let monthlyThreshold := default 30000%Q (Opts.monthlyThreshold opts) in
  let enforceAnnual := default false (Opts.enforceAnnual opts) in
  match search pattern text with
  | None => None
  | Some m =>
  (* every group of the pattern takes part in a match *)
  match capture 1 m, capture 2 m, capture 3 m, capture 4 m with
  | Some m1, Some m2, Some m3, Some m4 =>
  let toNum := fun s => parseFloat (removeCommas s) in
  match toNum m1, toNum m3 with
  | Some minSalary0, Some maxSalary0 =>
  let k := eqb (toLowerCase m2) (u "k") || eqb (toLowerCase m4) (u "k") in
  let minSalary := if k then times minSalary0 1000%Q else minSalary0 in
  let maxSalary := if k then times maxSalary0 1000%Q else maxSalary0 in
  let '(interval, annualMin, annualMax) :=
    if ltb minSalary hourlyThreshold then
      (CompensationInterval_value HOURLY, times minSalary 2080%Q,
       if ltb maxSalary hourlyThreshold
       then Some (times maxSalary 2080%Q) else None)
    else if ltb minSalary monthlyThreshold then
      (CompensationInterval_value MONTHLY, times minSalary 12%Q,
       if ltb maxSalary monthlyThreshold
       then Some (times maxSalary 12%Q) else None)
    else
      (CompensationInterval_value YEARLY, minSalary, Some maxSalary) in
  match annualMax with
  | None => None
  | Some annualMax =>
      if ltb annualMin lowerLimit || gtb annualMin upperLimit
         || ltb annualMax lowerLimit || gtb annualMax upperLimit
         || geb annualMin annualMax
      then None
      else Some {|
        Salary.interval := interval;
        Salary.min_amount := if enforceAnnual then annualMin else minSalary;
        Salary.max_amount := if enforceAnnual then annualMax else maxSalary;
        Salary.currency := u "USD";
      |}
  end
  | _, _ => None
  end
  | _, _, _, _ => None
  end
  end
  end.

(** [multipliers[jobData.interval]] *)
Definition multipliers (interval : jsstring) : option number :=
  if eqb interval (u "hourly") then Some 2080%Q
  else if eqb interval (u "monthly") then Some 12%Q
  else if eqb interval (u "weekly") then Some 52%Q
  else if eqb interval (u "daily") then Some 260%Q
  else None.

Definition convertToAnnual (jobData : Flat.FlatJobRecord)
  : Flat.FlatJobRecord :=
  match multipliers (default [] (Flat.interval jobData)) with
  | Some m =>
      Flat.set_salary jobData (Some (u "yearly"))
        (option_map (fun x => times x m) (Flat.min_amount jobData))
        (option_map (fun x => times x m) (Flat.max_amount jobData))
        (Flat.currency jobData) (Flat.salary_source jobData)
  | None => jobData
  end.

(** *** Proxy rotation *)

Definition formatProxy (proxy : jsstring) : jsstring :=
  if startsWith (u "http://") proxy || startsWith (u "https://") proxy
     || startsWith (u "socks5://") proxy
  then proxy
  else u "http://" ++ proxy.

(** The [proxies] option when it is given: a string or an array. *)
Inductive Proxies :=
  | OneProxy (proxy : jsstring)
  | ManyProxies (proxies : list jsstring).

Module ProxyRotator.

(** The fields [proxies] and [index] of a rotator. *)
Record t := { proxies : list jsstring; index : nat }.

(** [new ProxyRotator(proxies)]; the empty string is falsy, an array is
    not. *)
Definition new (given : option Proxies) : t :=
  {| proxies :=
       match given with
       | None => []
       | Some (OneProxy p) => if truthy p then [formatProxy p] else []
       | Some (ManyProxies ps) => List.map formatProxy ps
       end;
     index := 0 |}.

(** [next()]: what it returns and the rotator after the call. *)
Definition next (r : t) : option jsstring * t :=
  match proxies r with
  | [] => (None, r)
  | _ :: _ =>
      let proxy := nth (index r mod length (proxies r)) (proxies r) [] in
      let r' := {| proxies := proxies r; index := S (index r) |} in
      if eqb proxy (u "http://localhost") then (None, r') else (Some proxy, r')
  end.

End ProxyRotator.

(** The [proxy] option [createHttpSession] creates the session with. *)
Definition createHttpSession_proxy (given : option Proxies)
  : option jsstring :=
  match fst (ProxyRotator.next (ProxyRotator.new given)) with
  | Some proxy => if truthy proxy then Some proxy else None
  | None => None
  end.

(** *** Email extraction *)

Definition isAlpha (c : N) : bool :=
  ((97 <=? c) && (c <=? 122) || (65 <=? c) && (c <=? 90))%N.

(** [[a-zA-Z0-9._%+-]] *)
Definition isLocalChar (c : N) : bool :=
  isAlpha c || isDigit c
  || (c =? 46)%N || (c =? 95)%N || (c =? 37)%N || (c =? 43)%N || (c =? 45)%N.

(** [[a-zA-Z0-9.-]] *)
Definition isDomainChar (c : N) : bool :=
  isAlpha c || isDigit c || (c =? 46)%N || (c =? 45)%N.

(** [/[a-zA-Z0-9._%+-]+@[a-zA-Z0-9.-]+\.[a-zA-Z]{2,}/] *)
Definition EMAIL_REGEX : regex :=
  Seq (Plus isLocalChar)
  (Seq (Chr (isChar 64))
  (Seq (Plus isDomainChar)
  (Seq (Chr (isChar 46))
  (Seq (Chr isAlpha) (Plus isAlpha))))).

(** [text.match(r)] for a pattern with the [g] flag: the matched strings,
    from left to right.  The search for the next match starts where the
    last one ended, one code unit later when that match was empty; [skip]
    counts the code units of the last match that are still ahead. *)
Fixpoint matchAll (r : regex) (text : jsstring) (skip : nat)
  : list jsstring :=
  match skip with
  | S n =>
      match text with
      | [] => []
      | _ :: text' => matchAll r text' n
      end
  | O =>
      match matchRe r text [] (fun rest _ => Some rest) with
      | Some rest =>
          let n := (length text - length rest)%nat in
          take n text ::
            match text with
            | [] => []
            | _ :: text' => matchAll r text' (n - 1)
            end
      | None =>
          match text with
          | [] => []
          | _ :: text' => matchAll r text' 0
          end
      end
  end.

Definition extractEmails (text : option jsstring) : option (list jsstring) :=
  match text with
  | None => None
  | Some text =>
      if negb (truthy text) then None else
      match matchAll EMAIL_REGEX text 0 with
      | [] => None
      | matches => Some matches
      end
  end.

(** *** Job type extraction from text *)

(** A letter of a pattern with the [i] flag.  Without the [u] flag a code
    unit outside ASCII never matches an ASCII letter, so the letter
    matches its two ASCII cases and nothing else. *)
Definition ci (letter : N) : N -> bool :=
  fun c => (lowerCU c =? lowerCU letter)%N.

Definition word (letters : jsstring) : regex :=
  fold_right (fun c r => Seq (Chr (ci c)) r) Eps letters.

(** [re.test(s)] *)
Definition test (r : regex) (s : jsstring) : bool := notNull (search r s).

(** [/full\s?time/i], [/part\s?time/i], [/internship/i], [/contract/i] *)
Definition keywords : list (JobType * regex) :=
  [ (FULL_TIME,
     Seq (word (u "full")) (Seq (Opt (Chr isWhiteSpace)) (word (u "time"))));
    (PART_TIME,
     Seq (word (u "part")) (Seq (Opt (Chr isWhiteSpace)) (word (u "time"))));
    (INTERNSHIP, word (u "internship"));
    (CONTRACT, word (u "contract")) ].

Definition extractJobTypeFromText (description : option jsstring)
  : option (list JobType) :=
  match description with
  | None => None
  | Some description =>
      if negb (truthy description) then None else
      match List.map fst
              (List.filter (fun '(_, re) => test re description) keywords) with
      | [] => None
      | found => Some found
      end
  end.

(** *** Currency parsing *)

(** [parseFloat] on a string made of [-], digits, [.] and [,], the strings
    [parseCurrency] calls it on: an optional sign, then digits with an
    optional fraction, or a fraction alone.  A string that starts with
    none of these is not a number ([None] for [NaN]); the sign of zero is
    not kept. *)
Definition splitSign (s : jsstring) : bool * jsstring :=
  match s with
  | 45%N :: body => (true, body)
  | _ => (false, s)
  end.

Definition parseSignedFloat (s : jsstring) : option number :=
  let '(negative, body) := splitSign s in
  let ip := takeWhile isDigit body in
  let fp := match drop (length ip) body with
            | 46%N :: r => takeWhile isDigit r
            | _ => []
            end in
  match ip, fp with
  | [], [] => None
  | _, _ =>
      let scale := (10 ^ N.of_nat (length fp))%N in
      let magnitude :=
        Z.of_N (digitsValue ip * scale + digitsValue fp)
        # N.succ_pos (N.pred scale) in
      Some (Qred (if negative then - magnitude else magnitude))
  end.

(** [[-0-9.,]] *)
Definition isMoneyChar (c : N) : bool :=
  (c =? 45)%N || isDigit c || (c =? 46)%N || (c =? 44)%N.

Definition isSeparator (c : N) : bool := (c =? 46)%N || (c =? 44)%N.

(** [s.replace(",", ".")]: the first comma only. *)
Fixpoint replaceComma (s : jsstring) : jsstring :=
  match s with
  | [] => []
  | c :: s' => if (c =? 44)%N then 46%N :: s' else c :: replaceComma s'
  end.

Definition parseCurrency (cur : jsstring) : option number :=
  let cleaned := List.filter isMoneyChar cur in
  let last3 (s : jsstring) := slice s (-3) (Z.of_nat (length s)) in
  let cleaned :=
    List.filter (fun c => negb (isSeparator c)) (slice cleaned 0 (-3))
    ++ last3 cleaned in
  if includesCU 46 (last3 cleaned) then parseSignedFloat cleaned
  else if includesCU 44 (last3 cleaned)
  then parseSignedFloat (replaceComma cleaned)
  else parseSignedFloat cleaned.

End Utils.

(** ** The site adapters

    An adapter is run against a store that holds the [ScraperInput] objects
    (the request the orchestrator builds, and the copies some adapters
    make), and against the answers of the remote site.  What the field
    mapping of an adapter reads off a raw record, other than the key the
    record is identified by, is left to the remote side: a raw record
    carries the job post built from it, and the adapter fills in [id] and
    [job_url], where the key enters.  A loop is run on [fuel]; a loop that
    is out of fuel stands for a call that never settles. *)

Module Adapters.

Abbreviation Heap := (list Input.ScraperInput).
Definition loc := nat.

(** [{ ...input, results_wanted: n }]: a new object. *)
Definition copyWithResultsWanted (input : Input.ScraperInput) (n : Z)
  : Input.ScraperInput :=
  {| Input.site_type := Input.site_type input;
     Input.search_term := Input.search_term input;
     Input.google_search_term := Input.google_search_term input;
     Input.location := Input.location input;
     Input.country := Input.country input;
     Input.distance := Input.distance input;
     Input.is_remote := Input.is_remote input;
     Input.job_type := Input.job_type input;
     Input.easy_apply := Input.easy_apply input;
     Input.offset := Input.offset input;
     Input.linkedin_fetch_description :=
       Input.linkedin_fetch_description input;
     Input.linkedin_company_ids := Input.linkedin_company_ids input;
     Input.description_format := Input.description_format input;
     Input.results_wanted := Some n;
     Input.hours_old := Input.hours_old input |}.

(** Allocation of a new object: the store grows at its end. *)
Definition alloc (o : Input.ScraperInput) (h : Heap) : loc * Heap :=
  (length h, h ++ [o]).

(** An adapter run: how the call settles, and the store it leaves. *)
Definition Run (A : Type) := Heap -> settled A * Heap.

(** A job post with the fields an adapter does not set. *)
Definition emptyPost (title url : jsstring) : JobPost :=
  {| id := None; title := title; company_name := None; job_url := url;
     job_url_direct := None; location := None; description := None;
     company_url := None; company_url_direct := None; job_type := None;
     compensation := None; date_posted := None; emails := None;
     is_remote := None; listing_type := None; job_level := None;
     company_industry := None; company_addresses := None;
     company_num_employees := None; company_revenue := None;
     company_description := None; company_logo := None;
     banner_photo_url := None; job_function := None; skills := None;
     experience_range := None; company_rating := None;
     company_reviews_count := None; vacancy_count := None;
     work_from_home_type := None |}.

(** The job post of a raw record with [id] and [job_url] filled in. *)
Definition identified (j : JobPost) (i url : jsstring) : JobPost :=
  {| id := Some i; title := title j; company_name := company_name j;
     job_url := url; job_url_direct := job_url_direct j;
     location := location j; description := description j;
     company_url := company_url j;
     company_url_direct := company_url_direct j; job_type := job_type j;
     compensation := compensation j; date_posted := date_posted j;
     emails := emails j; is_remote := is_remote j;
     listing_type := listing_type j; job_level := job_level j;
     company_industry := company_industry j;
     company_addresses := company_addresses j;
     company_num_employees := company_num_employees j;
     company_revenue := company_revenue j;
     company_description := company_description j;
     company_logo := company_logo j;
     banner_photo_url := banner_photo_url j;
     job_function := job_function j; skills := skills j;
     experience_range := experience_range j;
     company_rating := company_rating j;
     company_reviews_count := company_reviews_count j;
     vacancy_count := vacancy_count j;
     work_from_home_type := work_from_home_type j |}.

Definition lengthZ {A} (l : list A) : Z := Z.of_nat (length l).

(** [hash |= 0]: the signed 32-bit integer of [z]. *)
Definition toInt32 (z : Z) : Z := (z + 2 ^ 31) mod 2 ^ 32 - 2 ^ 31.

(** [hashCode(str)] of the Bayt and BDJobs modules. *)
Definition hashCode (str : jsstring) : Z :=
  fold_left
    (fun hash char => toInt32 (toInt32 (hash * 2 ^ 5) - hash + Z.of_N char))
    str 0.

(** *** Bayt *)
Module Bayt.

Definition baseUrl : jsstring := u "https://www.bayt.com".

(** A listing [li[data-js-job]] as [extractJobInfo] reads it: the text of
    its [h2] and the [href] of the link inside (when there are any), the
    text of the company [span] and of the location [div]. *)
Record H2 := { h2_text : jsstring; a_href : option jsstring }.
Record Element := {
  h2 : option H2;
  company_text : jsstring;
  location_text : jsstring;
}.

Definition orUndefined (s : jsstring) : option jsstring :=
  if truthy s then Some s else None.

Definition extractJobInfo (el : Element) : option JobPost :=
  match h2 el with
  | None => None
  | Some h =>
      let title := trim (h2_text h) in
      match a_href h with
      | None => None
      | Some href =>
          if negb (truthy href) then None else
          let jobUrl := baseUrl ++ trim href in
          let companyName := orUndefined (trim (company_text el)) in
          let locationText := orUndefined (trim (location_text el)) in
          let location := {| city := locationText; state := None;
                             country := Some (u "worldwide") |} in
          Some {| id := Some (u "bayt-"
                              ++ ofN (Z.to_N (Z.abs (hashCode jobUrl))));
                  title := title; company_name := companyName;
                  job_url := jobUrl; job_url_direct := None;
                  location := Some location; description := None;
                  company_url := None; company_url_direct := None;
                  job_type := None; compensation := None;
                  date_posted := None; emails := None; is_remote := None;
                  listing_type := None; job_level := None;
                  company_industry := None; company_addresses := None;
                  company_num_employees := None; company_revenue := None;
                  company_description := None; company_logo := None;
                  banner_photo_url := None; job_function := None;
                  skills := None; experience_range := None;
                  company_rating := None; company_reviews_count := None;
                  vacancy_count := None; work_from_home_type := None |}
      end
  end.

(** [for (const el of elements) { ... push ... break }] *)
Fixpoint pushJobs (resultsWanted : Z) (elements : list Element)
    (jobList : list JobPost) : list JobPost :=
  match elements with
  | [] => jobList
  | el :: rest =>
      match extractJobInfo el with
      | Some job =>
          let jobList' := jobList ++ [job] in
          if lengthZ jobList' >=? resultsWanted then jobList'
          else pushJobs resultsWanted rest jobList'
      | None => pushJobs resultsWanted rest jobList
      end
  end.

Section Scrape.
(** [fetchJobs(query, page)]: the listings of a page; [None] when the
    response is not ok or the request fails (both give [[]]). *)
Variable fetch : jsstring -> Z -> option (list Element).

Definition fetchJobs (query : jsstring) (page : Z) : list Element :=
  default [] (fetch query page).

Fixpoint paginate (fuel : nat) (query : jsstring) (resultsWanted : Z)
    (page : Z) (jobList : list JobPost) : option (list JobPost) :=
  if lengthZ jobList <? resultsWanted then
    match fuel with
    | O => None
    | S fuel' =>
        let elements := fetchJobs query page in
        match elements with
        | [] => Some jobList
        | _ :: _ =>
            let initialCount := lengthZ jobList in
            let jobList' := pushJobs resultsWanted elements jobList in
            if lengthZ jobList' =? initialCount then Some jobList'
            else paginate fuel' query resultsWanted (page + 1) jobList'
        end
    end
  else Some jobList.

Definition scrape (session : bool) (fuel : nat) (input : loc)
  : Run JobResponse := fun h =>
  if negb session then (Rejected (u "session"), h) else
  match h !! input with
  | None => (Rejected (u "TypeError"), h)
  | Some inp =>
      let resultsWanted := default 10 (Input.results_wanted inp) in
      match paginate fuel (default [] (Input.search_term inp))
              resultsWanted 1 [] with
      | None => (Pending, h)
      | Some jobList =>
          (Fulfilled {| jobs := slice jobList 0 resultsWanted |}, h)
      end
  end.
End Scrape.

End Bayt.

(** A raw record of a result page: the key it is identified by and the job
    post the adapter's field mapping builds from it. *)
Record Raw := { key : jsstring; post : JobPost }.

Abbreviation Seen := (gset jsstring).
Definition has (x : jsstring) (seen : Seen) : bool := bool_decide (x ∈ seen).
Definition add (x : jsstring) (seen : Seen) : Seen := {[x]} ∪ seen.
Definition sizeZ (seen : Seen) : Z := Z.of_nat (size seen).

(** [Math.ceil(a / b)] for a positive [b]. *)
Definition ceilDiv (a b : Z) : Z := - ((- a) / b).

(** *** Glassdoor *)
Module Glassdoor.

Definition jobsPerPage : Z := 30.
Definition maxPages : Z := 30.

(** The answer to the location lookup: the request fails, the response is
    not ok, no location is found, or the first location found. *)
Inductive LocationLookup :=
  | LookupFails
  | LookupNotOk
  | LookupEmpty
  | LookupFound (locationId : jsstring) (locationType : option jsstring).

(** The answer to the search of one page: the request or the processing of
    a listing fails, the response is not ok or reports errors, or the
    listings and the pagination cursors of the page. *)
Inductive PageResult :=
  | PageThrows
  | PageEmpty
  | PageData (listings : list Raw) (paginationCursors : list (Z * jsstring)).

Definition typeMap (t : jsstring) : jsstring :=
  if eqb t (u "C") then u "CITY"
  else if eqb t (u "S") then u "STATE"
  else if eqb t (u "N") then u "COUNTRY"
  else t.

(** [processJob] over the listings of a page, in order: a listing whose URL
    was seen gives [null] and is filtered out. *)
Fixpoint processJobs (baseUrl : jsstring) (listings : list Raw)
    (seenUrls : Seen) : list JobPost * Seen :=
  match listings with
  | [] => ([], seenUrls)
  | l :: rest =>
      let jobUrl := baseUrl ++ u "job-listing/j?jl=" ++ key l in
      if has jobUrl seenUrls then processJobs baseUrl rest seenUrls
      else
        let '(jobs, seen') := processJobs baseUrl rest (add jobUrl seenUrls) in
        (identified (post l) (u "gd-" ++ key l) jobUrl :: jobs, seen')
  end.

Definition nextCursor (cursors : list (Z * jsstring)) (pageNum : Z)
  : option jsstring :=
  option_map snd (List.find (fun c => fst c =? pageNum + 1) cursors).

Section Scrape.
Variable lookup : jsstring -> LocationLookup.
Variable jobsPage :
  jsstring -> jsstring -> Z -> option jsstring -> PageResult.

Definition getLocation (location : option jsstring) (isRemote : bool)
  : settled (jsstring * option jsstring) :=
  match location with
  | Some l =>
      if negb (truthy l) || isRemote
      then Fulfilled (u "11047", Some (u "STATE"))
      else
        match lookup l with
        | LookupFails => Rejected (u "fetch failed")
        | LookupNotOk => Fulfilled ([], None)
        | LookupEmpty =>
            Rejected (u "Location '" ++ l ++ u "' not found on Glassdoor")
        | LookupFound i t => Fulfilled (i, option_map typeMap t)
        end
  | None => Fulfilled (u "11047", Some (u "STATE"))
  end.

(** [for (let page = rangeStart; page < rangeEnd; page++)], [n] pages to
    go. *)
Fixpoint pages (n : nat) (baseUrl locationId locationType : jsstring)
    (resultsWanted page : Z) (cursor : option jsstring)
    (jobList : list JobPost) (seenUrls : Seen) : list JobPost :=
  match n with
  | O => jobList
  | S n' =>
      match jobsPage locationId locationType page cursor with
      | PageThrows => jobList
      | PageEmpty => jobList
      | PageData listings cursors =>
          let '(jobs, seen') := processJobs baseUrl listings seenUrls in
          let jobList' := jobList ++ jobs in
          match jobs with
          | [] => jobList'
          | _ :: _ =>
              if lengthZ jobList' >=? resultsWanted then jobList'
              else pages n' baseUrl locationId locationType resultsWanted
                     (page + 1) (nextCursor cursors page) jobList' seen'
          end
      end
  end.

Definition scrape (session : bool) (input : loc) : Run JobResponse :=
  fun h =>
  if negb session then (Rejected (u "session"), h) else
  match h !! input with
  | None => (Rejected (u "TypeError"), h)
  | Some inp =>
      let scraper_input :=
        copyWithResultsWanted inp
          (Z.min 900 (default 15 (Input.results_wanted inp))) in
      let '(_, h') := alloc scraper_input h in
      match Input.country inp ≫= CountryValue_glassdoor_domain with
      | None => (Rejected (u "Glassdoor not available for this country"), h')
      | Some domain =>
          if negb (truthy domain)
          then (Rejected (u "Glassdoor not available for this country"), h')
          else
          let baseUrl := u "https://" ++ domain ++ u "/" in
          match getLocation (Input.location inp)
                  (default false (Input.is_remote inp)) with
          | Rejected m => (Rejected m, h')
          | Pending => (Pending, h')
          | Fulfilled (locationId, locationType) =>
              match locationType with
              | None => (Fulfilled {| jobs := [] |}, h')
              | Some locationType =>
                  if negb (truthy locationType)
                  then (Fulfilled {| jobs := [] |}, h')
                  else
                  let resultsWanted :=
                    default 0 (Input.results_wanted scraper_input) in
                  let rangeStart :=
                    1 + default 0 (Input.offset inp) / jobsPerPage in
                  let rangeEnd :=
                    Z.min (resultsWanted / jobsPerPage + 2) (maxPages + 1) in
                  let jobList :=
                    pages (Z.to_nat (rangeEnd - rangeStart)) baseUrl
                      locationId locationType resultsWanted rangeStart
                      None [] ∅ in
                  (Fulfilled {| jobs := slice jobList 0 resultsWanted |}, h')
              end
          end
      end
  end.
End Scrape.

End Glassdoor.

(** *** Indeed *)
Module Indeed.

(** The answer to one search request: [{ jobs: [], cursor: null }] when the
    response is not ok or anything throws, or the results and the cursor
    of the next page. *)
Inductive PageResult :=
  | PageFail
  | PageOk (results : list Raw) (nextCursor : option jsstring).

(** [getJobType(attributes)], on the labels of the attributes. *)
Definition getJobType (labels : list jsstring) : list JobTypeValue :=
  omap
    (fun label =>
       getJobTypeFromString
         (toLowerCase
            (List.filter (fun c => negb (isWhiteSpace c))
               (List.filter (fun c => negb (c =? 45)%N) label))))
    labels.

Fixpoint processJobs (baseUrl : jsstring) (results : list Raw)
    (seenUrls : Seen) : list JobPost * Seen :=
  match results with
  | [] => ([], seenUrls)
  | r :: rest =>
      let jobUrl := baseUrl ++ u "/viewjob?jk=" ++ key r in
      if has jobUrl seenUrls then processJobs baseUrl rest seenUrls
      else
        let '(jobs, seen') := processJobs baseUrl rest (add jobUrl seenUrls) in
        (identified (post r) (u "in-" ++ key r) jobUrl :: jobs, seen')
  end.

Section Scrape.
Variable scrapePage : option jsstring -> PageResult.

Fixpoint paginate (fuel : nat) (baseUrl : jsstring)
    (resultsWanted offset : Z) (cursor : option jsstring)
    (jobList : list JobPost) (seenUrls : Seen) : option (list JobPost) :=
  if sizeZ seenUrls <? resultsWanted + offset then
    match fuel with
    | O => None
    | S fuel' =>
        match scrapePage cursor with
        | PageFail => Some jobList
        | PageOk results next =>
            let '(jobs, seen') := processJobs baseUrl results seenUrls in
            match jobs with
            | [] => Some jobList
            | _ :: _ =>
                paginate fuel' baseUrl resultsWanted offset next
                  (jobList ++ jobs) seen'
            end
        end
    end
  else Some jobList.

Definition scrape (session : bool) (fuel : nat) (input : loc)
  : Run JobResponse := fun h =>
  if negb session then (Rejected (u "session"), h) else
  match h !! input with
  | None => (Rejected (u "TypeError"), h)
  | Some inp =>
      (* this.scraper_input = input: the same object *)
      match Input.country inp with
      | None => (Rejected (u "Country required for Indeed"), h)
      | Some country =>
          let baseUrl :=
            u "https://"
            ++ default (u "undefined") (CountryValue_indeed_domain country)
            ++ u ".indeed.com" in
          let offset := default 0 (Input.offset inp) in
          let resultsWanted := default 15 (Input.results_wanted inp) in
          match paginate fuel baseUrl resultsWanted offset None [] ∅ with
          | None => (Pending, h)
          | Some jobList =>
              (Fulfilled
                 {| jobs := slice jobList offset (offset + resultsWanted) |},
               h)
          end
      end
  end.
End Scrape.

End Indeed.

(** *** ZipRecruiter *)
Module ZipRecruiter.

Definition baseUrl : jsstring := u "https://www.ziprecruiter.com".
Definition jobsPerPage : Z := 20.

(** A job card: its [listingKey], its [rawCanonicalZipJobPageUrl] and the
    job post built from it. *)
Record Card := {
  listingKey : option jsstring;
  rawCanonicalZipJobPageUrl : option jsstring;
  cardPost : JobPost;
}.

(** The answer to one page: [[[], false]] when the response is not ok, has
    no data or anything throws; or the cards with [data.page] and
    [data.maxPages]. *)
Inductive PageResult :=
  | PageFail
  | PageOk (jobCards : list Card) (page maxPages : option Z).

Definition cardUrl (listingKey : jsstring) (canonical : option jsstring)
  : jsstring :=
  match canonical with
  | Some c =>
      if truthy c then baseUrl ++ c
      else baseUrl ++ u "/jobs//j?lvk=" ++ listingKey
  | None => baseUrl ++ u "/jobs//j?lvk=" ++ listingKey
  end.

Fixpoint processCards (cards : list Card) (seenUrls : Seen)
  : list JobPost * Seen :=
  match cards with
  | [] => ([], seenUrls)
  | card :: rest =>
      match listingKey card with
      | None => processCards rest seenUrls
      | Some k =>
          if negb (truthy k) then processCards rest seenUrls else
          let jobUrl := cardUrl k (rawCanonicalZipJobPageUrl card) in
          if has jobUrl seenUrls then processCards rest seenUrls
          else
            let '(jobs, seen') := processCards rest (add jobUrl seenUrls) in
            (identified (cardPost card) (u "zr-" ++ k) jobUrl :: jobs, seen')
      end
  end.

Section Scrape.
Variable fetchPage : Z -> PageResult.

(** [for (let page = 1; page <= maxPages; page++)], [n] pages to go. *)
Fixpoint pages (n : nat) (resultsWanted page : Z)
    (jobList : list JobPost) (seenUrls : Seen) : list JobPost :=
  match n with
  | O => jobList
  | S n' =>
      if lengthZ jobList >=? resultsWanted then jobList else
      match fetchPage page with
      | PageFail => jobList
      | PageOk cards currentPage maxPages =>
          let '(jobs, seen') := processCards cards seenUrls in
          let hasMore := default page currentPage <? default 1 maxPages in
          match jobs with
          | [] => jobList
          | _ :: _ =>
              if hasMore
              then pages n' resultsWanted (page + 1) (jobList ++ jobs) seen'
              else jobList ++ jobs
          end
      end
  end.

Definition scrape (session : bool) (input : loc) : Run JobResponse :=
  fun h =>
  if negb session then (Rejected (u "session"), h) else
  match h !! input with
  | None => (Rejected (u "TypeError"), h)
  | Some inp =>
      (* this.scraper_input = input: the same object *)
      let resultsWanted := default 15 (Input.results_wanted inp) in
      let maxPages := ceilDiv resultsWanted jobsPerPage in
      let jobList := pages (Z.to_nat maxPages) resultsWanted 1 [] ∅ in
      (Fulfilled {| jobs := slice jobList 0 resultsWanted |}, h)
  end.
End Scrape.

End ZipRecruiter.

(** *** LinkedIn *)
Module LinkedIn.

Definition baseUrl : jsstring := u "https://www.linkedin.com".

(** A search card: the [href] of its link and the job post built from
    it, [None] when [processJob] throws on the card. *)
Record Card := { href : option jsstring; cardPost : option JobPost }.

(** The answer to one search request: the request throws, the response is
    not ok, or the cards of the page. *)
Inductive PageResult :=
  | PageThrows
  | PageNotOk
  | PageCards (jobCards : list Card).

(** [href.split("?")[0].split("-").pop()] *)
Definition jobIdOf (href : jsstring) : jsstring :=
  List.last (split 45 (hd [] (split 63 href))) [].

Section Scrape.
Variable fetchPage : Z -> PageResult.

Definition continueSearch (jobList : list JobPost)
    (resultsWanted start : Z) : bool :=
  (lengthZ jobList <? resultsWanted) && (start <? 1000).

(** [for (let i = 0; i < jobCards.length; i++)]: the list, the ids seen,
    and whether a card threw (the [catch] around the page then leaves
    the search). *)
Fixpoint processCards (cards : list Card) (resultsWanted start : Z)
    (jobList : list JobPost) (seenIds : Seen)
  : list JobPost * Seen * bool :=
  match cards with
  | [] => (jobList, seenIds, false)
  | card :: rest =>
      match href card with
      | None => processCards rest resultsWanted start jobList seenIds
      | Some hr =>
          if negb (truthy hr)
          then processCards rest resultsWanted start jobList seenIds else
          let jobId := jobIdOf hr in
          if has jobId seenIds
          then processCards rest resultsWanted start jobList seenIds
          else
            let seen' := add jobId seenIds in
            match cardPost card with
            | None => (jobList, seen', true)
            | Some p =>
                let job := identified p (u "li-" ++ jobId)
                             (baseUrl ++ u "/jobs/view/" ++ jobId) in
                let jobList' := jobList ++ [job] in
                if negb (continueSearch jobList' resultsWanted start)
                then (jobList', seen', false)
                else processCards rest resultsWanted start jobList' seen'
            end
      end
  end.

Fixpoint paginate (fuel : nat) (resultsWanted start : Z)
    (jobList : list JobPost) (seenIds : Seen) : option (list JobPost) :=
  if continueSearch jobList resultsWanted start then
    match fuel with
    | O => None
    | S fuel' =>
        match fetchPage start with
        | PageThrows => Some jobList
        | PageNotOk => Some jobList
        | PageCards [] => Some jobList
        | PageCards cards =>
            let '(jobList', seen', threw) :=
              processCards cards resultsWanted start jobList seenIds in
            if threw then Some jobList'
            else if continueSearch jobList' resultsWanted start
            then paginate fuel' resultsWanted (start + lengthZ cards)
                   jobList' seen'
            else Some jobList'
        end
    end
  else Some jobList.

Definition scrape (session : bool) (fuel : nat) (input : loc)
  : Run JobResponse := fun h =>
  if negb session then (Rejected (u "session"), h) else
  match h !! input with
  | None => (Rejected (u "TypeError"), h)
  | Some inp =>
      (* this.scraper_input = input: the same object *)
      let start :=
        match Input.offset inp with
        | Some o => if o =? 0 then 0 else o / 10 * 10
        | None => 0
        end in
      let resultsWanted := default 15 (Input.results_wanted inp) in
      match paginate fuel resultsWanted start [] ∅ with
      | None => (Pending, h)
      | Some jobList =>
          (Fulfilled {| jobs := slice jobList 0 resultsWanted |}, h)
      end
  end.
End Scrape.

End LinkedIn.

(** *** Naukri *)
Module Naukri.

Definition jobsPerPage : Z := 20.

(** A record of [jobDetails]: its [jobId], its [jdURL] and the job post
    built from it.  [jobId] is taken to be a string, as the site sends
    it; the source keeps the value as it is in [seenIds] and turns it
    into a string for the [id], so that nothing is claimed here of ids
    that are not strings. *)
Record Detail := {
  jobId : option jsstring;
  jdURL : option jsstring;
  detailPost : option JobPost;
}.

(** The answer to one search request: the request throws, the response is
    not ok, or the records of the page.  [detailPost] is [None] for a
    record [processJob] throws on. *)
Inductive PageResult :=
  | PageThrows
  | PageNotOk
  | PageDetails (jobDetails : list Detail).

(** An entry of [job.placeholders]. *)
Record Placeholder := {
  type : option jsstring;
  label : option jsstring;
}.

Definition inferWfhType (placeholders : list Placeholder)
    (title description : jsstring) : option jsstring :=
  let locStr :=
    toLowerCase
      (default []
         (List.find (fun p => bool_decide (type p = Some (u "location")))
                    placeholders
          ≫= label)) in
  let combined :=
    toLowerCase (title ++ u " " ++ description ++ u " " ++ locStr) in
  if includes (u "hybrid") combined then Some (u "Hybrid")
  else if includes (u "remote") combined then Some (u "Remote")
  else if includes (u "work from office") combined
          || negb (includes (u "remote") combined)
             && negb (includes (u "hybrid") combined)
  then Some (u "Work from office")
  else None.

Section Scrape.
Variable fetchPage : Z -> PageResult.

Definition continueSearch (jobList : list JobPost)
    (resultsWanted page : Z) : bool :=
  (lengthZ jobList <? resultsWanted) && (page <=? 50).

Fixpoint processDetails (details : list Detail) (resultsWanted page : Z)
    (jobList : list JobPost) (seenIds : Seen)
  : list JobPost * Seen * bool :=
  match details with
  | [] => (jobList, seenIds, false)
  | job :: rest =>
      match jobId job with
      | None => processDetails rest resultsWanted page jobList seenIds
      | Some i =>
          if negb (truthy i) || has i seenIds
          then processDetails rest resultsWanted page jobList seenIds
          else
            let seen' := add i seenIds in
            match detailPost job with
            | None => (jobList, seen', true)
            | Some p =>
                let jobUrl :=
                  u "https://www.naukri.com"
                  ++ default (u "/job/" ++ i) (jdURL job) in
                let post := identified p (u "nk-" ++ i) jobUrl in
                let jobList' := jobList ++ [post] in
                if negb (continueSearch jobList' resultsWanted page)
                then (jobList', seen', false)
                else processDetails rest resultsWanted page jobList' seen'
            end
      end
  end.

Fixpoint paginate (fuel : nat) (resultsWanted page : Z)
    (jobList : list JobPost) (seenIds : Seen) : option (list JobPost) :=
  if continueSearch jobList resultsWanted page then
    match fuel with
    | O => None
    | S fuel' =>
        match fetchPage page with
        | PageThrows => Some jobList
        | PageNotOk => Some jobList
        | PageDetails [] => Some jobList
        | PageDetails details =>
            let '(jobList', seen', threw) :=
              processDetails details resultsWanted page jobList seenIds in
            if threw then Some jobList'
            else if continueSearch jobList' resultsWanted page
            then paginate fuel' resultsWanted (page + 1) jobList' seen'
            else Some jobList'
        end
    end
  else Some jobList.

Definition scrape (session : bool) (fuel : nat) (input : loc)
  : Run JobResponse := fun h =>
  if negb session then (Rejected (u "session"), h) else
  match h !! input with
  | None => (Rejected (u "TypeError"), h)
  | Some inp =>
      (* this.scraper_input = input: the same object *)
      let resultsWanted := default 15 (Input.results_wanted inp) in
      let page := default 0 (Input.offset inp) / jobsPerPage + 1 in
      match paginate fuel resultsWanted page [] ∅ with
      | None => (Pending, h)
      | Some jobList =>
          (Fulfilled {| jobs := slice jobList 0 resultsWanted |}, h)
      end
  end.
End Scrape.

End Naukri.

(** *** BDJobs (the REST variant) *)
Module BDJobs.

Definition jobDetailsBaseUrl : jsstring := u "https://bdjobs.com/h/details/".

(** An item of the search answer: its [Jobid ?? jobId] and the job post
    built from it. *)
Record Item := { jobId : option jsstring; itemPost : JobPost }.

(** [processItem] over the items, the [null]s filtered out. *)
Definition processItems (items : list Item) : list JobPost :=
  omap (fun item =>
          match jobId item with
          | Some i =>
              if truthy i
              then Some (identified (itemPost item) (u "bdjobs-" ++ i)
                           (jobDetailsBaseUrl ++ i))
              else None
          | None => None
          end) items.

(** [for (const job of jobs)] *)
Fixpoint pushJobs (resultsWanted : Z) (jobs : list JobPost)
    (jobList : list JobPost) (seenIds : Seen) : list JobPost * Seen :=
  match jobs with
  | [] => (jobList, seenIds)
  | job :: rest =>
      let i := default [] (id job) in
      if has i seenIds then pushJobs resultsWanted rest jobList seenIds
      else
        let jobList' := jobList ++ [job] in
        if lengthZ jobList' >=? resultsWanted then (jobList', add i seenIds)
        else pushJobs resultsWanted rest jobList' (add i seenIds)
  end.

Section Scrape.
(** The items of a page; [None] when the response is not ok, reports an
    error or anything throws. *)
Variable fetch : Z -> option (list Item).

Definition fetchPage (page : Z) : list JobPost :=
  match fetch page with
  | Some items => processItems items
  | None => []
  end.

Fixpoint paginate (fuel : nat) (resultsWanted page : Z)
    (jobList : list JobPost) (seenIds : Seen) : option (list JobPost) :=
  if lengthZ jobList <? resultsWanted then
    match fuel with
    | O => None
    | S fuel' =>
        match fetchPage page with
        | [] => Some jobList
        | jobs =>
            let '(jobList', seen') :=
              pushJobs resultsWanted jobs jobList seenIds in
            paginate fuel' resultsWanted (page + 1) jobList' seen'
        end
    end
  else Some jobList.

Definition scrape (session : bool) (fuel : nat) (input : loc)
  : Run JobResponse := fun h =>
  if negb session then (Rejected (u "session"), h) else
  match h !! input with
  | None => (Rejected (u "TypeError"), h)
  | Some inp =>
      (* this.scraper_input = input: the same object *)
      let resultsWanted := default 15 (Input.results_wanted inp) in
      match paginate fuel resultsWanted 1 [] ∅ with
      | None => (Pending, h)
      | Some jobList =>
          (Fulfilled {| jobs := slice jobList 0 resultsWanted |}, h)
      end
  end.
End Scrape.

End BDJobs.

(** *** Google *)
Module Google.

(** A job entry of a result page: the URL at [jobInfo[3][0][0]], and the
    id and the job post [parseJob] builds, [None] when it throws after
    the URL was recorded (the [catch] then gives [null]). *)
Record Entry := {
  jobUrl : option jsstring;
  parsed : option (jsstring * JobPost);
}.

(** The first page: the request fails, or the cursor and the entries. *)
Inductive InitialResult :=
  | InitialFails
  | Initial (cursor : option jsstring) (entries : list Entry).

(** A next page: [None] when the request or the parsing throws. *)
Definition NextResult := option (list Entry * option jsstring).

Fixpoint parseJobs (entries : list Entry) (seenUrls : Seen)
  : list JobPost * Seen :=
  match entries with
  | [] => ([], seenUrls)
  | e :: rest =>
      match jobUrl e with
      | None => parseJobs rest seenUrls
      | Some url =>
          if negb (truthy url) || has url seenUrls
          then parseJobs rest seenUrls
          else
            let '(jobs, seen') := parseJobs rest (add url seenUrls) in
            match parsed e with
            | Some (i, p) => (identified p (u "go-" ++ i) url :: jobs, seen')
            | None => (jobs, seen')
            end
      end
  end.

Section Scrape.
Variable initial : InitialResult.
Variable nextPage : jsstring -> NextResult.

Fixpoint paginate (fuel : nat) (resultsWanted offset : Z)
    (cursor : option jsstring) (jobList : list JobPost) (seenUrls : Seen)
  : option (list JobPost) :=
  match cursor with
  | None => Some jobList
  | Some c =>
      if (sizeZ seenUrls <? resultsWanted + offset) && truthy c then
        match fuel with
        | O => None
        | S fuel' =>
            match nextPage c with
            | None => Some jobList
            | Some (entries, next) =>
                let '(jobs, seen') := parseJobs entries seenUrls in
                match jobs with
                | [] => Some jobList
                | _ :: _ =>
                    paginate fuel' resultsWanted offset next
                      (jobList ++ jobs) seen'
                end
            end
        end
      else Some jobList
  end.

Definition scrape (session : bool) (fuel : nat) (input : loc)
  : Run JobResponse := fun h =>
  if negb session then (Rejected (u "session"), h) else
  match h !! input with
  | None => (Rejected (u "TypeError"), h)
  | Some inp =>
      let scraper_input :=
        copyWithResultsWanted inp
          (Z.min 900 (default 15 (Input.results_wanted inp))) in
      let '(_, h') := alloc scraper_input h in
      match initial with
      | InitialFails => (Rejected (u "fetch failed"), h')
      | Initial forwardCursor entries =>
          let '(jobList, seenUrls) := parseJobs entries ∅ in
          match forwardCursor with
          | None => (Fulfilled {| jobs := jobList |}, h')
          | Some c =>
              if negb (truthy c)
              then (Fulfilled {| jobs := jobList |}, h') else
              let offset := default 0 (Input.offset scraper_input) in
              let resultsWanted :=
                default 0 (Input.results_wanted scraper_input) in
              match paginate fuel resultsWanted offset (Some c)
                      jobList seenUrls with
              | None => (Pending, h')
              | Some jobList' =>
                  (Fulfilled
                     {| jobs := slice jobList' offset
                                  (offset + resultsWanted) |}, h')
              end
          end
      end
  end.
End Scrape.

End Google.

(** *** GoogleCareers *)
Module GoogleCareers.

Definition BASE_URL : jsstring :=
  u "https://www.google.com/about/careers/applications/jobs/results".
Definition jobsPerPage : Z := 20.

Definition isSlugChar (c : N) : bool :=
  ((97 <=? c) && (c <=? 122) || isDigit c)%N.

(** [.replace(/[^a-z0-9]+/g, "-")] *)
Fixpoint dashRuns (s : jsstring) (inRun : bool) : jsstring :=
  match s with
  | [] => []
  | c :: s' =>
      if isSlugChar c then c :: dashRuns s' false
      else if inRun then dashRuns s' true
      else 45%N :: dashRuns s' true
  end.

Fixpoint dropDashes (s : jsstring) : jsstring :=
  match s with
  | c :: s' => if (c =? 45)%N then dropDashes s' else s
  | [] => []
  end.

Definition slugify (title : jsstring) : jsstring :=
  rev (dropDashes (rev (dropDashes (dashRuns (toLowerCase title) false)))).

(** A raw job as [parseJob] reads it: [String(job[0] ?? "")], the title
    and the job post built from it; [None] for a raw job that is not an
    array or that [parseJob] throws on. *)
Record RawJob := { rawId : jsstring; rawTitle : jsstring; rawPost : JobPost }.

Definition parseJob (raw : option RawJob) : option JobPost :=
  match raw with
  | None => None
  | Some job =>
      if negb (truthy (rawId job)) then None else
      Some (identified (rawPost job) (u "gc-" ++ rawId job)
              (BASE_URL ++ u "/" ++ rawId job ++ u "-"
               ++ slugify (rawTitle job)))
  end.

(** The answer to one page: the request fails, the data block is not
    found, or the raw jobs and the total the page reports. *)
Inductive PageResult :=
  | PageFails
  | PageNoData
  | PageData (rawJobs : list (option RawJob)) (total : option Z).

(** [for (const raw of rawJobs)] *)
Fixpoint pushJobs (limit : Z) (rawJobs : list (option RawJob))
    (jobList : list JobPost) (seenIds : Seen) : list JobPost * Seen :=
  match rawJobs with
  | [] => (jobList, seenIds)
  | raw :: rest =>
      if lengthZ jobList >=? limit then (jobList, seenIds) else
      match parseJob raw with
      | Some job =>
          let i := default [] (id job) in
          if has i seenIds then pushJobs limit rest jobList seenIds
          else pushJobs limit rest (jobList ++ [job]) (add i seenIds)
      | None => pushJobs limit rest jobList seenIds
      end
  end.

Section Scrape.
Variable fetchPage : Z -> PageResult.

Fixpoint paginate (fuel : nat) (limit page : Z) (total : option Z)
    (jobList : list JobPost) (seenIds : Seen)
  : option (settled (list JobPost)) :=
  if lengthZ jobList <? limit then
    match fuel with
    | O => None
    | S fuel' =>
        match fetchPage page with
        | PageFails => Some (Rejected (u "fetch failed"))
        | PageNoData => Some (Fulfilled jobList)
        | PageData rawJobs reported =>
            let total' :=
              match total with
              | Some t => t
              | None => default (lengthZ rawJobs) reported
              end in
            match rawJobs with
            | [] => Some (Fulfilled jobList)
            | _ :: _ =>
                let '(jobList', seen') :=
                  pushJobs limit rawJobs jobList seenIds in
                let fetched := page * jobsPerPage in
                if fetched >=? total' then Some (Fulfilled jobList')
                else paginate fuel' limit (page + 1) (Some total')
                       jobList' seen'
            end
        end
    end
  else Some (Fulfilled jobList).

Definition scrape (session : bool) (fuel : nat) (input : loc)
  : Run JobResponse := fun h =>
  if negb session then (Rejected (u "session"), h) else
  match h !! input with
  | None => (Rejected (u "TypeError"), h)
  | Some inp =>
      let scraper_input :=
        copyWithResultsWanted inp
          (Z.min 1000 (default 15 (Input.results_wanted inp))) in
      let '(_, h') := alloc scraper_input h in
      let offset := default 0 (Input.offset scraper_input) in
      let resultsWanted :=
        default 0 (Input.results_wanted scraper_input) in
      match paginate fuel (resultsWanted + offset) 1 None [] ∅ with
      | None => (Pending, h')
      | Some (Fulfilled jobList) =>
          (Fulfilled
             {| jobs := slice jobList offset (offset + resultsWanted) |},
           h')
      | Some (Rejected m) => (Rejected m, h')
      | Some Pending => (Pending, h')
      end
  end.
End Scrape.

End GoogleCareers.

(** The answers of the remote sites during one call of [scrapeJobs]. *)
Record Network := {
  fuel : nat;
  session : Site -> bool;
  bayt : jsstring -> Z -> option (list Bayt.Element);
  glassdoorLocation : jsstring -> Glassdoor.LocationLookup;
  glassdoorPage :
    jsstring -> jsstring -> Z -> option jsstring -> Glassdoor.PageResult;
  indeed : option jsstring -> Indeed.PageResult;
  zipRecruiter : Z -> ZipRecruiter.PageResult;
  linkedIn : Z -> LinkedIn.PageResult;
  naukri : Z -> Naukri.PageResult;
  bdJobs : Z -> option (list BDJobs.Item);
  googleInitial : Google.InitialResult;
  googleNext : jsstring -> Google.NextResult;
  googleCareers : Z -> GoogleCareers.PageResult;
}.

(** The scraper classes of the repository. *)
Inductive ScraperClass :=
  | Indeed | LinkedIn | Glassdoor | Google | ZipRecruiter
  | Bayt | Naukri | BDJobs | GoogleCareers.

(** [new ScraperClass({ proxies }).scrape(input)] *)
Definition scrape (net : Network) (c : ScraperClass) (input : loc)
  : Run JobResponse :=
  match c with
  | Indeed => Indeed.scrape (indeed net) (session net INDEED) (fuel net) input
  | LinkedIn =>
      LinkedIn.scrape (linkedIn net) (session net LINKEDIN) (fuel net) input
  | Glassdoor =>
      Glassdoor.scrape (glassdoorLocation net) (glassdoorPage net)
        (session net GLASSDOOR) input
  | Google =>
      Google.scrape (googleInitial net) (googleNext net)
        (session net GOOGLE) (fuel net) input
  | ZipRecruiter =>
      ZipRecruiter.scrape (zipRecruiter net) (session net ZIP_RECRUITER) input
  | Bayt => Bayt.scrape (bayt net) (session net BAYT) (fuel net) input
  | Naukri => Naukri.scrape (naukri net) (session net NAUKRI) (fuel net) input
  | BDJobs => BDJobs.scrape (bdJobs net) (session net BDJOBS) (fuel net) input
  | GoogleCareers =>
      GoogleCareers.scrape (googleCareers net) (session net GOOGLE_CAREERS)
        (fuel net) input
  end.

(** *** The scraper base class, [src/scrapers/base.ts] *)

(** [initSession()]: the [proxy] option the session is created with, and
    the rotator of the scraper after the call. *)
Definition initSession (r : Utils.ProxyRotator.t)
  : option jsstring * Utils.ProxyRotator.t :=
  let '(proxy, r') := Utils.ProxyRotator.next r in
  (Utils.createHttpSession_proxy
     (match proxy with
      | Some p => if truthy p then Some (Utils.ManyProxies [p]) else None
      | None => None
      end),
   r').

End Adapters.

(** ** [src/scraper.ts]: the orchestrator *)

Module Scraper.
Import Adapters.

(** [SCRAPER_MAP[site]]: the class registered for a site, [None] for a site
    the object literal has no entry for. *)
Definition SCRAPER_MAP (site : Site) : option ScraperClass :=
  match site with
  | INDEED => Some Indeed
  | LINKEDIN => Some LinkedIn
  | GLASSDOOR => Some Glassdoor
  | GOOGLE => Some Google
  | ZIP_RECRUITER => Some ZipRecruiter
  | BAYT => Some Bayt
  | NAUKRI => Some Naukri
  | BDJOBS => Some BDJobs
  | GOOGLE_CAREERS => None
  end.

(** [name.replace(/[_\s-]/g, "")] and [s.replace(/_/g, "")] *)
Definition removeSeparators (s : jsstring) : jsstring :=
  List.filter
    (fun c => negb ((c =? 95)%N || isWhiteSpace c || (c =? 45)%N)) s.
Definition removeUnderscores (s : jsstring) : jsstring :=
  List.filter (fun c => negb (c =? 95)%N) s.

(** [(Site as any)[upper]].  No property of [Object.prototype] is named in
    upper case only, so the lookup is one among the keys of the enum. *)
Definition siteOfKey (upper : jsstring) : option Site :=
  List.find (fun s => eqb (Site_key s) upper) Site_values.

Definition mapStrToSite (name : jsstring) : result Site :=
  let upper := toUpperCase name in
  match siteOfKey upper with
  | Some site => Ok site
  | None =>
      let normalized := removeSeparators (toLowerCase name) in
      match List.find
              (fun s => eqb (Site_value s) (toLowerCase name)
                        || eqb (removeUnderscores (Site_value s)) normalized)
              Site_values with
      | Some s => Ok s
      | None => Throw (u "Unknown site: " ++ name)
      end
  end.

Fixpoint mapSites (names : list jsstring) : result (list Site) :=
  match names with
  | [] => Ok []
  | n :: rest =>
      s <-! mapStrToSite n ;;
      ss <-! mapSites rest ;;
      Ok (s :: ss)
  end.

Definition resolveSites (siteName : option SiteName) : result (list Site) :=
  match siteName with
  | None => Ok Site_values
  | Some (OneSite s) =>
      if negb (truthy s) then Ok Site_values
      else site <-! mapStrToSite s ;; Ok [site]
  | Some (ManySites l) => mapSites l
  end.

Definition resolveJobType (jt : option jsstring) : result (option JobType) :=
  match jt with
  | None => Ok None
  | Some jt =>
      if negb (truthy jt) then Ok None else
      match List.find (fun t => eqb (JobType_value t) jt) JobType_values with
      | Some t => Ok (Some t)
      | None => Throw (u "Invalid job type: " ++ jt)
      end
  end.

(** The object literal [record] of [flattenJob]: the fields copied from
    the job post, the salary fields not yet set. *)
Definition initialRecord (job : JobPost) (site : jsstring)
  : Flat.FlatJobRecord :=
  {|
    Flat.id := id job;
    Flat.site := site;
    Flat.job_url := job_url job;
    Flat.job_url_direct := job_url_direct job;
    Flat.title := title job;
    Flat.company := company_name job;
    Flat.location := option_map displayLocation (location job);
    Flat.date_posted := date_posted job;
    Flat.job_type :=
      option_map (fun l => join (u ", ") (List.map JobType_value l))
                 (job_type job);
    Flat.salary_source := None;
    Flat.interval := None;
    Flat.min_amount := None;
    Flat.max_amount := None;
    Flat.currency := None;
    Flat.is_remote := is_remote job;
    Flat.job_level := job_level job;
    Flat.job_function := job_function job;
    Flat.listing_type := listing_type job;
    Flat.emails := option_map (join (u ", ")) (emails job);
    Flat.description := description job;
    Flat.company_industry := company_industry job;
    Flat.company_url := company_url job;
    Flat.company_logo := company_logo job;
    Flat.company_url_direct := company_url_direct job;
    Flat.company_addresses := company_addresses job;
    Flat.company_num_employees := company_num_employees job;
    Flat.company_revenue := company_revenue job;
    Flat.company_description := company_description job;
    Flat.skills := option_map (join (u ", ")) (skills job);
    Flat.experience_range := experience_range job;
    Flat.company_rating := company_rating job;
    Flat.company_reviews_count := company_reviews_count job;
    Flat.vacancy_count := vacancy_count job;
    Flat.work_from_home_type := work_from_home_type job;
  |}.

Definition flattenJob (job : JobPost) (site : jsstring)
    (countryName : option jsstring) (params : Params.ScrapeJobsParams)
  : Flat.FlatJobRecord :=
  let record := initialRecord job site in
  let enforce := default false (Params.enforce_annual_salary params) in
  (* the [else if] branch: salary inferred from the description *)
  let inferred :=
    if bool_decide (countryName = Some (u "usa"))
       || bool_decide (countryName = Some (u "us"))
    then
      match Utils.extractSalary (description job)
              {| Utils.Opts.lowerLimit := None;
                 Utils.Opts.upperLimit := None;
                 Utils.Opts.hourlyThreshold := None;
                 Utils.Opts.monthlyThreshold := None;
                 Utils.Opts.enforceAnnual :=
                   Params.enforce_annual_salary params |} with
      | Some extracted =>
          Flat.set_salary record
            (Some (Utils.Salary.interval extracted))
            (Some (Utils.Salary.min_amount extracted))
            (Some (Utils.Salary.max_amount extracted))
            (Some (Utils.Salary.currency extracted))
            (Some (SalarySource_value DESCRIPTION))
      | None => record
      end
    else record in
  let record' :=
    match compensation job with
    | Some c =>
        if notNull (min_amount c) || notNull (max_amount c) then
          let r :=
            Flat.set_salary record
              (option_map CompensationInterval_value (interval c))
              (min_amount c) (max_amount c)
              (Some (default (u "USD") (currency c)))
              (Some (SalarySource_value DIRECT_DATA)) in
          if enforce
             && truthy (default [] (Flat.interval r))
             && negb (eqb (default [] (Flat.interval r)) (u "yearly"))
             && notNull (Flat.min_amount r)
             && notNull (Flat.max_amount r)
          then Utils.convertToAnnual r
          else r
        else inferred
    | None => inferred
    end in
  match Flat.min_amount record' with
  | None => Flat.set_salary_source record' None
  | Some _ => record'
  end.

(** The comparator of the final sort. *)
Definition compareJobs (a b : Flat.FlatJobRecord) : Z :=
  let siteCmp := localeCompare (Flat.site a) (Flat.site b) in
  if negb (siteCmp =? 0) then siteCmp else
  let aDate := default [] (Flat.date_posted a) in
  let bDate := default [] (Flat.date_posted b) in
  localeCompare bDate aDate.

(** [Array.prototype.sort(cmp)].  The sort is stable, and for a comparator
    that is a total preorder every stable sort gives the same array; it is
    modelled by insertion from the right. *)
Fixpoint insert {A} (cmp : A -> A -> Z) (x : A) (l : list A) : list A :=
  match l with
  | [] => [x]
  | y :: l' => if cmp x y <=? 0 then x :: y :: l' else y :: insert cmp x l'
  end.

Definition sort {A} (cmp : A -> A -> Z) (l : list A) : list A :=
  foldr (insert cmp) [] l.

(** The object literal [scraperInput]. *)
Definition scraperInput (params : Params.ScrapeJobsParams)
    (sites : list Site) (country : CountryValue) (jobType : option JobType)
  : Input.ScraperInput :=
  {| Input.site_type := sites;
     Input.search_term := Params.search_term params;
     Input.google_search_term := Params.google_search_term params;
     Input.location := Params.location params;
     Input.country := Some country;
     Input.distance := Some (default 50 (Params.distance params));
     Input.is_remote := Some (default false (Params.is_remote params));
     Input.job_type := jobType;
     Input.easy_apply := Params.easy_apply params;
     Input.offset := Some (default 0 (Params.offset params));
     Input.linkedin_fetch_description :=
       Some (default false (Params.linkedin_fetch_description params));
     Input.linkedin_company_ids := Params.linkedin_company_ids params;
     Input.description_format :=
       Some (default MARKDOWN (Params.description_format params));
     Input.results_wanted :=
       Some (default 15 (Params.results_wanted params));
     Input.hours_old := Params.hours_old params |}.

(** One callback of [sites.map(async (site) => ...)]: the class is looked
    up and instantiated, and its [scrape] awaited.  [new ScraperClass] of
    an [undefined] class throws, which rejects the callback's promise. *)
Definition scrapeSite (net : Network) (input : loc) (site : Site)
  : Run (jsstring * JobResponse) := fun h =>
  match SCRAPER_MAP site with
  | None => (Rejected (u "TypeError: ScraperClass is not a constructor"), h)
  | Some ScraperClass =>
      match scrape net ScraperClass input h with
      | (Fulfilled response, h') => (Fulfilled (Site_value site, response), h')
      | (Rejected m, h') => (Rejected m, h')
      | (Pending, h') => (Pending, h')
      end
  end.

(** The callbacks of all sites, each on the store the ones before it
    left: the outcomes in the order of [sites]. *)
Fixpoint dispatch (net : Network) (input : loc) (sites : list Site)
    (h : Heap) : list (settled (jsstring * JobResponse)) * Heap :=
  match sites with
  | [] => ([], h)
  | site :: rest =>
      let '(r, h1) := scrapeSite net input site h in
      let '(rs, h2) := dispatch net input rest h1 in
      (r :: rs, h2)
  end.

Definition isPending {A} (r : settled A) : bool :=
  match r with Pending => true | _ => false end.

(** [for (const result of results)]: the jobs of the fulfilled outcomes,
    flattened, in order. *)
Definition collect (results : list (settled (jsstring * JobResponse)))
    (countryName : option jsstring) (params : Params.ScrapeJobsParams)
  : list Flat.FlatJobRecord :=
  flat_map
    (fun result =>
       match result with
       | Fulfilled (site, response) =>
           List.map (fun job => flattenJob job site countryName params)
                    (jobs response)
       | _ => []
       end)
    results.

Record ScrapeJobsResult := { result_jobs : list Flat.FlatJobRecord }.

Definition scrapeJobs (net : Network) (params : Params.ScrapeJobsParams)
  : Run ScrapeJobsResult := fun h =>
  match resolveSites (Params.site_name params) with
  | Throw m => (Rejected m, h)
  | Ok sites =>
  match getCountry (default (u "usa") (Params.country_indeed params)) with
  | Throw m => (Rejected m, h)
  | Ok country =>
  match resolveJobType (Params.job_type params) with
  | Throw m => (Rejected m, h)
  | Ok jobType =>
      let '(input, h0) :=
        alloc (scraperInput params sites country jobType) h in
      let '(results, h') := dispatch net input sites h0 in
      (* Promise.allSettled settles once every callback has *)
      if existsb isPending results then (Pending, h') else
      let flatJobs := collect results (CountryValue_name country) params in
      (Fulfilled {| result_jobs := sort compareJobs flatJobs |}, h')
  end
  end
  end.

End Scraper.

(** ** [src/cli/index.ts]: CSV output *)

Module Cli.

(** The [replace] of [escape]: every double quote (code unit 34) is
    written twice. *)
Definition doubleQuotes (str : jsstring) : jsstring :=
  flat_map (fun c => if (c =? 34)%N then [34; 34]%N else [c]) str.

(** [escape(val)] of [jobsToCsv]; a cell holds [String(val)], and is
    [None] for [null] and [undefined]. *)
Definition escape (val : option jsstring) : jsstring :=
  match val with
  | None => []
  | Some str =>
      if includesCU 44 str || includesCU 34 str || includesCU 10 str
      then [34%N] ++ doubleQuotes str ++ [34%N]
      else str
  end.

(** A line of the file: [headers.map((h) => escape(job[h])).join(",")]. *)
Definition line (cells : list (option jsstring)) : jsstring :=
  join (u ",") (List.map escape cells).

End Cli.

(** * Statements

    The notions the properties below are stated with. *)

Section Statements.
Import Utils.

(** The multiplier [extractSalary] annualises an interval with. *)
Definition annualFactor (interval : jsstring) : Q :=
  if eqb interval (u "hourly") then 2080
  else if eqb interval (u "monthly") then 12
  else 1.

(** What a returned result is made of: raw bounds [minSalary] and
    [maxSalary], annualised with the factor of the interval into bounds
    inside the window and in strictly increasing order; the amounts
    returned are the raw or the annualised bounds. *)
Record Plausible (opts : Opts.SalaryOptions) (r : Salary.ExtractedSalary)
    (minSalary maxSalary : Q) : Prop := {
  interval_known :
    Salary.interval r = u "hourly" \/ Salary.interval r = u "monthly"
    \/ Salary.interval r = u "yearly";
  currency_usd : Salary.currency r = u "USD";
  min_in_window :
    (default 1000 (Opts.lowerLimit opts)
       <= minSalary * annualFactor (Salary.interval r))%Q
    /\ (minSalary * annualFactor (Salary.interval r)
       <= default 700000 (Opts.upperLimit opts))%Q;
  max_in_window :
    (default 1000 (Opts.lowerLimit opts)
       <= maxSalary * annualFactor (Salary.interval r))%Q
    /\ (maxSalary * annualFactor (Salary.interval r)
       <= default 700000 (Opts.upperLimit opts))%Q;
  annual_increasing :
    (minSalary * annualFactor (Salary.interval r)
       < maxSalary * annualFactor (Salary.interval r))%Q;
  min_returned :
    (Salary.min_amount r ==
       if default false (Opts.enforceAnnual opts)
       then minSalary * annualFactor (Salary.interval r) else minSalary)%Q;
  max_returned :
    (Salary.max_amount r ==
       if default false (Opts.enforceAnnual opts)
       then maxSalary * annualFactor (Salary.interval r) else maxSalary)%Q;
  increasing : (Salary.min_amount r < Salary.max_amount r)%Q;
}.

(** The options of the scenario: [hourlyThreshold] given, the others left
    to their defaults. *)
Definition hourly350 : Opts.SalaryOptions :=
  {| Opts.lowerLimit := None; Opts.upperLimit := None;
     Opts.hourlyThreshold := Some 350%Q; Opts.monthlyThreshold := None;
     Opts.enforceAnnual := None |}.

Definition enforced (o : Opts.SalaryOptions) : Opts.SalaryOptions :=
  {| Opts.lowerLimit := Opts.lowerLimit o;
     Opts.upperLimit := Opts.upperLimit o;
     Opts.hourlyThreshold := Opts.hourlyThreshold o;
     Opts.monthlyThreshold := Opts.monthlyThreshold o;
     Opts.enforceAnnual := Some true |}.

(** [a] sorts no later than [b] under the comparator of the final sort. *)
Definition jobLe (a b : Flat.FlatJobRecord) : Prop :=
  Scraper.compareJobs a b <= 0.

(** The outcomes that were fulfilled. *)
Definition fulfilled {A} (results : list (settled A)) : list A :=
  omap (fun r => match r with Fulfilled a => Some a | _ => None end) results.

(** [h'] is [h] with new objects after it: every object of [h] is where it
    was, with every field as it was. *)
Definition extends (h h' : Adapters.Heap) : Prop := exists new, h' = h ++ new.

(** *** Remote sides to run the model against *)

(** A listing of a Bayt result page. *)
Definition listing (title href : string) : Adapters.Bayt.Element :=
  {| Adapters.Bayt.h2 :=
       Some {| Adapters.Bayt.h2_text := u title;
               Adapters.Bayt.a_href := Some (u href) |};
     Adapters.Bayt.company_text := u "Acme";
     Adapters.Bayt.location_text := u "Dubai" |}.

(** A Bayt site with one result page. *)
Definition onePage (listings : list Adapters.Bayt.Element)
  : jsstring -> Z -> option (list Adapters.Bayt.Element) :=
  fun _ page => if page =? 1 then Some listings else Some [].

(** A Naukri site with one result page. *)
Definition oneNaukriPage (details : list Adapters.Naukri.Detail)
  : Z -> Adapters.Naukri.PageResult :=
  fun page =>
    if page =? 1 then Adapters.Naukri.PageDetails details
    else Adapters.Naukri.PageDetails [].

(** A job post with a title, and the date and the compensation given. *)
Definition post (title : string) (date : option string)
    (comp : option Compensation) : JobPost :=
  {| id := None; title := u title; company_name := None; job_url := [];
     job_url_direct := None; location := None; description := None;
     company_url := None; company_url_direct := None; job_type := None;
     compensation := comp; date_posted := option_map u date;
     emails := None; is_remote := None; listing_type := None;
     job_level := None; company_industry := None;
     company_addresses := None; company_num_employees := None;
     company_revenue := None; company_description := None;
     company_logo := None; banner_photo_url := None; job_function := None;
     skills := None; experience_range := None; company_rating := None;
     company_reviews_count := None; vacancy_count := None;
     work_from_home_type := None |}.

(** A job post with a title and a description, and nothing else. *)
Definition described (title text : string) : JobPost :=
  {| id := None; title := u title; company_name := None; job_url := [];
     job_url_direct := None; location := None; description := Some (u text);
     company_url := None; company_url_direct := None; job_type := None;
     compensation := None; date_posted := None;
     emails := None; is_remote := None; listing_type := None;
     job_level := None; company_industry := None;
     company_addresses := None; company_num_employees := None;
     company_revenue := None; company_description := None;
     company_logo := None; banner_photo_url := None; job_function := None;
     skills := None; experience_range := None; company_rating := None;
     company_reviews_count := None; vacancy_count := None;
     work_from_home_type := None |}.

(** A record of a Naukri result page. *)
Definition detail (jobId : string) (p : JobPost) : Adapters.Naukri.Detail :=
  {| Adapters.Naukri.jobId := Some (u jobId);
     Adapters.Naukri.jdURL := None;
     Adapters.Naukri.detailPost := Some p |}.

(** A compensation that carries a [max_amount] only, with its interval. *)
Definition upTo (i : CompensationInterval) (amount : Q) : Compensation :=
  {| interval := Some i; min_amount := None; max_amount := Some amount;
     currency := None |}.

(** The remote sides: the sessions that open, what Bayt and Naukri answer;
    every other site answers with a failure or an empty page. *)
Definition network (sessionOk : Site -> bool)
    (baytPages : jsstring -> Z -> option (list Adapters.Bayt.Element))
    (naukriPages : Z -> Adapters.Naukri.PageResult) : Adapters.Network :=
  {| Adapters.fuel := 64;
     Adapters.session := sessionOk;
     Adapters.bayt := baytPages;
     Adapters.glassdoorLocation := fun _ => Adapters.Glassdoor.LookupNotOk;
     Adapters.glassdoorPage := fun _ _ _ _ => Adapters.Glassdoor.PageEmpty;
     Adapters.indeed := fun _ => Adapters.Indeed.PageFail;
     Adapters.zipRecruiter := fun _ => Adapters.ZipRecruiter.PageFail;
     Adapters.linkedIn := fun _ => Adapters.LinkedIn.PageNotOk;
     Adapters.naukri := naukriPages;
     Adapters.bdJobs := fun _ => None;
     Adapters.googleInitial := Adapters.Google.Initial None [];
     Adapters.googleNext := fun _ => None;
     Adapters.googleCareers := fun _ => Adapters.GoogleCareers.PageNoData |}.

(** The parameter bag with [site_name] set and nothing else. *)
Definition paramsFor (sites : option SiteName) : Params.ScrapeJobsParams :=
  {| Params.site_name := sites;
     Params.search_term := None;
     Params.google_search_term := None;
     Params.location := None;
     Params.distance := None;
     Params.is_remote := None;
     Params.job_type := None;
     Params.easy_apply := None;
     Params.results_wanted := None;
     Params.country_indeed := None;
     Params.proxies := None;
     Params.description_format := None;
     Params.linkedin_fetch_description := None;
     Params.linkedin_company_ids := None;
     Params.offset := None;
     Params.hours_old := None;
     Params.enforce_annual_salary := None;
     Params.verbose := None |}.

(** The descriptor registered for ["usa"]. *)
Definition usa : CountryValue :=
  Registered {| name := u "usa"; indeed_domain := u "www";
                indeed_api_code := u "US";
                glassdoor_domain := Some (u "www.glassdoor.com") |}.

(** Two sites answer, and the session of a third does not open. *)
Definition twoOfThree : Adapters.Network :=
  network (fun s => negb (bool_decide (s = INDEED)))
    (onePage [listing "Engineer" "/en/job/1"; listing "Analyst" "/en/job/2"])
    (oneNaukriPage
       [detail "77" (post "Developer" (Some "2024-05-01"%string)
                       (Some (upTo YEARLY 90000)))]).

Definition threeSites : Params.ScrapeJobsParams :=
  paramsFor (Some (ManySites [u "naukri"; u "indeed"; u "bayt"])).

(** A Bayt result page that lists the same job twice. *)
Definition listedTwice : Adapters.Network :=
  network (fun _ => true)
    (onePage [listing "Engineer" "/en/job/1"; listing "Engineer" "/en/job/1"])
    (oneNaukriPage []).

(** The fields of a job post, those of its compensation among them, and
    the fields of a flat record. *)
Inductive PostField :=
  | P_id | P_title | P_company_name | P_job_url | P_job_url_direct
  | P_location | P_description | P_company_url | P_company_url_direct
  | P_job_type | P_compensation_interval | P_compensation_min_amount
  | P_compensation_max_amount | P_compensation_currency | P_date_posted
  | P_emails | P_is_remote | P_listing_type | P_job_level
  | P_company_industry | P_company_addresses | P_company_num_employees
  | P_company_revenue | P_company_description | P_company_logo
  | P_banner_photo_url | P_job_function | P_skills | P_experience_range
  | P_company_rating | P_company_reviews_count | P_vacancy_count
  | P_work_from_home_type.

Inductive FlatField :=
  | F_id | F_site | F_job_url | F_job_url_direct | F_title | F_company
  | F_location | F_date_posted | F_job_type | F_salary_source | F_interval
  | F_min_amount | F_max_amount | F_currency | F_is_remote | F_job_level
  | F_job_function | F_listing_type | F_emails | F_description
  | F_company_industry | F_company_url | F_company_logo
  | F_company_url_direct | F_company_addresses | F_company_num_employees
  | F_company_revenue | F_company_description | F_skills
  | F_experience_range | F_company_rating | F_company_reviews_count
  | F_vacancy_count | F_work_from_home_type.

(** Whether a field is present on a job post, on a flat record. *)
Definition onPost (f : PostField) (job : JobPost) : bool :=
  match f with
  | P_id => notNull (id job)
  | P_title => true
  | P_company_name => notNull (company_name job)
  | P_job_url => true
  | P_job_url_direct => notNull (job_url_direct job)
  | P_location => notNull (location job)
  | P_description => notNull (description job)
  | P_company_url => notNull (company_url job)
  | P_company_url_direct => notNull (company_url_direct job)
  | P_job_type => notNull (job_type job)
  | P_compensation_interval => notNull (compensation job ≫= interval)
  | P_compensation_min_amount => notNull (compensation job ≫= min_amount)
  | P_compensation_max_amount => notNull (compensation job ≫= max_amount)
  | P_compensation_currency => notNull (compensation job ≫= currency)
  | P_date_posted => notNull (date_posted job)
  | P_emails => notNull (emails job)
  | P_is_remote => notNull (is_remote job)
  | P_listing_type => notNull (listing_type job)
  | P_job_level => notNull (job_level job)
  | P_company_industry => notNull (company_industry job)
  | P_company_addresses => notNull (company_addresses job)
  | P_company_num_employees => notNull (company_num_employees job)
  | P_company_revenue => notNull (company_revenue job)
  | P_company_description => notNull (company_description job)
  | P_company_logo => notNull (company_logo job)
  | P_banner_photo_url => notNull (banner_photo_url job)
  | P_job_function => notNull (job_function job)
  | P_skills => notNull (skills job)
  | P_experience_range => notNull (experience_range job)
  | P_company_rating => notNull (company_rating job)
  | P_company_reviews_count => notNull (company_reviews_count job)
  | P_vacancy_count => notNull (vacancy_count job)
  | P_work_from_home_type => notNull (work_from_home_type job)
  end.

Definition onFlat (f : FlatField) (r : Flat.FlatJobRecord) : bool :=
  match f with
  | F_id => notNull (Flat.id r)
  | F_site => true
  | F_job_url => true
  | F_job_url_direct => notNull (Flat.job_url_direct r)
  | F_title => true
  | F_company => notNull (Flat.company r)
  | F_location => notNull (Flat.location r)
  | F_date_posted => notNull (Flat.date_posted r)
  | F_job_type => notNull (Flat.job_type r)
  | F_salary_source => notNull (Flat.salary_source r)
  | F_interval => notNull (Flat.interval r)
  | F_min_amount => notNull (Flat.min_amount r)
  | F_max_amount => notNull (Flat.max_amount r)
  | F_currency => notNull (Flat.currency r)
  | F_is_remote => notNull (Flat.is_remote r)
  | F_job_level => notNull (Flat.job_level r)
  | F_job_function => notNull (Flat.job_function r)
  | F_listing_type => notNull (Flat.listing_type r)
  | F_emails => notNull (Flat.emails r)
  | F_description => notNull (Flat.description r)
  | F_company_industry => notNull (Flat.company_industry r)
  | F_company_url => notNull (Flat.company_url r)
  | F_company_logo => notNull (Flat.company_logo r)
  | F_company_url_direct => notNull (Flat.company_url_direct r)
  | F_company_addresses => notNull (Flat.company_addresses r)
  | F_company_num_employees => notNull (Flat.company_num_employees r)
  | F_company_revenue => notNull (Flat.company_revenue r)
  | F_company_description => notNull (Flat.company_description r)
  | F_skills => notNull (Flat.skills r)
  | F_experience_range => notNull (Flat.experience_range r)
  | F_company_rating => notNull (Flat.company_rating r)
  | F_company_reviews_count => notNull (Flat.company_reviews_count r)
  | F_vacancy_count => notNull (Flat.vacancy_count r)
  | F_work_from_home_type => notNull (Flat.work_from_home_type r)
  end.

(** The flat field a field of the job post goes by: [company_name] is
    [company], a field of the compensation goes by its own name, and
    [banner_photo_url] has no flat field. *)
Definition renamed (f : PostField) : option FlatField :=
  match f with
  | P_id => Some F_id
  | P_title => Some F_title
  | P_company_name => Some F_company
  | P_job_url => Some F_job_url
  | P_job_url_direct => Some F_job_url_direct
  | P_location => Some F_location
  | P_description => Some F_description
  | P_company_url => Some F_company_url
  | P_company_url_direct => Some F_company_url_direct
  | P_job_type => Some F_job_type
  | P_compensation_interval => Some F_interval
  | P_compensation_min_amount => Some F_min_amount
  | P_compensation_max_amount => Some F_max_amount
  | P_compensation_currency => Some F_currency
  | P_date_posted => Some F_date_posted
  | P_emails => Some F_emails
  | P_is_remote => Some F_is_remote
  | P_listing_type => Some F_listing_type
  | P_job_level => Some F_job_level
  | P_company_industry => Some F_company_industry
  | P_company_addresses => Some F_company_addresses
  | P_company_num_employees => Some F_company_num_employees
  | P_company_revenue => Some F_company_revenue
  | P_company_description => Some F_company_description
  | P_company_logo => Some F_company_logo
  | P_banner_photo_url => None
  | P_job_function => Some F_job_function
  | P_skills => Some F_skills
  | P_experience_range => Some F_experience_range
  | P_company_rating => Some F_company_rating
  | P_company_reviews_count => Some F_company_reviews_count
  | P_vacancy_count => Some F_vacancy_count
  | P_work_from_home_type => Some F_work_from_home_type
  end.

(** The round trip: a field present on the job post is present, under its
    flat name, on the flat record; an absent one is not. *)
Definition roundTrip (job : JobPost) (r : Flat.FlatJobRecord) : Prop :=
  forall f,
    (onPost f job = true ->
     exists g, renamed f = Some g /\ onFlat g r = true)
    /\ (onPost f job = false ->
        forall g, renamed f = Some g -> onFlat g r = false).

(** The fields [flattenJob] copies as they are. *)
Definition copied (f : PostField) : bool :=
  match f with
  | P_banner_photo_url | P_compensation_interval
  | P_compensation_min_amount | P_compensation_max_amount
  | P_compensation_currency => false
  | _ => true
  end.

Definition withBanner : JobPost :=
  {| id := None; title := u "Engineer"; company_name := None;
     job_url := u "https://example.com/1";
     job_url_direct := None; location := None; description := None;
     company_url := None; company_url_direct := None; job_type := None;
     compensation := None; date_posted := None;
     emails := None; is_remote := None; listing_type := None;
     job_level := None; company_industry := None;
     company_addresses := None; company_num_employees := None;
     company_revenue := None; company_description := None;
     company_logo := None;
     banner_photo_url := Some (u "https://example.com/banner.png");
     job_function := None;
     skills := None; experience_range := None; company_rating := None;
     company_reviews_count := None; vacancy_count := None;
     work_from_home_type := None |}.

(** Google Careers answers with one job; no other site has any. *)
Definition careersAnswers : Adapters.Network :=
  {| Adapters.fuel := 64;
     Adapters.session := fun _ => true;
     Adapters.bayt := fun _ _ => None;
     Adapters.glassdoorLocation := fun _ => Adapters.Glassdoor.LookupNotOk;
     Adapters.glassdoorPage := fun _ _ _ _ => Adapters.Glassdoor.PageEmpty;
     Adapters.indeed := fun _ => Adapters.Indeed.PageFail;
     Adapters.zipRecruiter := fun _ => Adapters.ZipRecruiter.PageFail;
     Adapters.linkedIn := fun _ => Adapters.LinkedIn.PageNotOk;
     Adapters.naukri := fun _ => Adapters.Naukri.PageNotOk;
     Adapters.bdJobs := fun _ => None;
     Adapters.googleInitial := Adapters.Google.Initial None [];
     Adapters.googleNext := fun _ => None;
     Adapters.googleCareers := fun page =>
       if page =? 1
       then Adapters.GoogleCareers.PageData
              [Some {| Adapters.GoogleCareers.rawId := u "123";
                       Adapters.GoogleCareers.rawTitle :=
                         u "Software Engineer";
                       Adapters.GoogleCareers.rawPost :=
                         post "Software Engineer" None None |}]
              (Some 1)
       else Adapters.GoogleCareers.PageNoData |}.

(** *** Deduplication by a set of seen URLs *)

(** What one pass over the records of a page does to the set of URLs seen:
    the jobs it yields have URLs that were not in the set and differ from
    each other, and the set gains them. *)
Definition Fresh (seen : Adapters.Seen) (jobs : list JobPost)
    (seen' : Adapters.Seen) : Prop :=
  seen ⊆ seen'
  /\ NoDup (job_url <$> jobs)
  /\ forall x, x ∈ (job_url <$> jobs) -> (x ∉ seen) /\ (x ∈ seen').

(** The invariant of a pagination loop: the URLs of the jobs collected
    differ from each other and are all in the set of URLs seen. *)
Definition Collected (jobList : list JobPost) (seen : Adapters.Seen) : Prop :=
  NoDup (job_url <$> jobList)
  /\ forall x, x ∈ (job_url <$> jobList) -> x ∈ seen.

(** A raw record with a key. *)
Definition raw (k : string) : Adapters.Raw :=
  {| Adapters.key := u k; Adapters.post := post k None None |}.

(** A Glassdoor site whose first page lists a job twice and whose second
    page lists it again. *)
Definition glassdoorRepeats
  : jsstring -> jsstring -> Z -> option jsstring
    -> Adapters.Glassdoor.PageResult :=
  fun _ _ page _ =>
    if page =? 1
    then Adapters.Glassdoor.PageData [raw "a"; raw "a"; raw "b"] []
    else Adapters.Glassdoor.PageData [raw "a"; raw "c"] [].

(** An Indeed site that does the same. *)
Definition indeedRepeats : option jsstring -> Adapters.Indeed.PageResult :=
  fun cursor =>
    match cursor with
    | None =>
        Adapters.Indeed.PageOk [raw "a"; raw "a"; raw "b"] (Some (u "next"))
    | Some _ => Adapters.Indeed.PageOk [raw "a"; raw "c"] None
    end.

(** The request [scrapeJobs] builds from an empty parameter bag. *)
Definition defaultInput : Input.ScraperInput :=
  Scraper.scraperInput (paramsFor None) Site_values usa None.

(** *** The country registry *)

(** [nameList] of [addCountry]: the keys one call registers, the first of
    them the canonical name. *)
Definition aliases (names : jsstring) : list jsstring :=
  List.map (fun n => toLowerCase (trim n)) (split 44 names).

(** [a] and [b] are own properties of the registry, with descriptors that
    agree on every field. *)
Definition sameCountry (r : Registry) (a b : jsstring) : bool :=
  match getProperty a r, getProperty b r with
  | Some (Registered c), Some (Registered c') =>
      eqb (name c) (name c') && eqb (indeed_domain c) (indeed_domain c')
      && eqb (indeed_api_code c) (indeed_api_code c')
      && bool_decide (glassdoor_domain c = glassdoor_domain c')
  | _, _ => false
  end.

(** In the registry, every key that a call of the module body registers
    has the descriptor of the canonical name of that call. *)
Definition aliasesAgree (r : Registry) : bool :=
  forallb (fun '(names, _, _) =>
             forallb (fun a =>
                        sameCountry r a
                          (toLowerCase (trim (hd [] (aliases names)))))
                     (aliases names))
          registrations.

(** *** Dates *)

(** A date of the form [YYYY-MM-DD], as [toISOString().split("T")[0]]
    gives it for the years 0 to 9999. *)
Definition isoDate (d : jsstring) : bool :=
  match d with
  | [y1; y2; y3; y4; s1; m1; m2; s2; d1; d2] =>
      forallb isDigit [y1; y2; y3; y4; m1; m2; d1; d2]
      && (s1 =? 45)%N && (s2 =? 45)%N
  | _ => false
  end.

(** One site answers with two jobs, the older one first. *)
Definition olderFirst : Adapters.Network :=
  network (fun _ => true) (onePage [])
    (oneNaukriPage
       [detail "77" (post "Developer" (Some "2024-05-01"%string) None);
        detail "78" (post "Tester" (Some "2024-06-15"%string) None)]).

Definition naukriOnly : Params.ScrapeJobsParams :=
  paramsFor (Some (ManySites [u "naukri"])).

(** *** Ties of the final sort *)

(** [a] and [b] tie under the comparator of the final sort. *)
Definition tied (a b : Flat.FlatJobRecord) : bool :=
  Scraper.compareJobs a b =? 0.

(** *** The language of a pattern *)

(** The strings a pattern matches. *)
Fixpoint Lang (r : regex) (w : jsstring) : Prop :=
  match r with
  | Eps => w = []
  | Chr p => exists c, w = [c] /\ p c = true
  | Seq r1 r2 => exists w1 w2, w = w1 ++ w2 /\ Lang r1 w1 /\ Lang r2 w2
  | Opt r1 => w = [] \/ Lang r1 w
  | Star p => forallb p w = true
  | Group _ r1 => Lang r1 w
  end.

(** [w] occurs in [text]. *)
Definition occursIn (w text : jsstring) : Prop :=
  exists pre post, text = pre ++ w ++ post.

(** *** What is found in a text *)

(** The shape of a string [EMAIL_REGEX] matches: a local part, [@], a
    domain, [.] and at least two letters. *)
Definition EmailShaped (m : jsstring) : Prop :=
  exists loc dom tld,
    m = loc ++ [64%N] ++ dom ++ [46%N] ++ tld
    /\ loc <> [] /\ forallb isLocalChar loc = true
    /\ dom <> [] /\ forallb isDomainChar dom = true
    /\ (2 <= length tld)%nat /\ forallb isAlpha tld = true.

(** [w] is [letters] up to the case of ASCII letters. *)
Definition spelled (letters : string) (w : jsstring) : Prop :=
  toLowerCase w = u letters.

(** [w] is [first], at most one white-space character, and [second]. *)
Definition phrase (first second : string) (w : jsstring) : Prop :=
  exists w1 gap w2,
    w = w1 ++ gap ++ w2 /\ spelled first w1 /\ spelled second w2
    /\ (gap = [] \/ exists c, gap = [c] /\ isWhiteSpace c = true).

(** What makes [extractJobTypeFromText] report a job type. *)
Definition Reported (t : JobType) (description : jsstring) : Prop :=
  exists w, occursIn w description /\
    match t with
    | FULL_TIME => phrase "full" "time" w
    | PART_TIME => phrase "part" "time" w
    | INTERNSHIP => spelled "internship" w
    | CONTRACT => spelled "contract" w
    | _ => False
    end.

(** *** Calls of a rotator *)

(** [n] calls of [next()] in a row: what they return, and the rotator
    after them. *)
Fixpoint calls (n : nat) (r : ProxyRotator.t)
  : list (option jsstring) * ProxyRotator.t :=
  match n with
  | O => ([], r)
  | S n' =>
      let '(proxy, r1) := ProxyRotator.next r in
      let '(rest, r2) := calls n' r1 in
      (proxy :: rest, r2)
  end.

(** What [next()] makes of the proxy whose turn it is. *)
Definition handedOut (proxy : jsstring) : option jsstring :=
  if eqb proxy (u "http://localhost") then None else Some proxy.

(** The proxies of a rotator are formatted. *)
Definition formatted (r : ProxyRotator.t) : Prop :=
  Forall (fun p => formatProxy p = p) (ProxyRotator.proxies r).

(** *** Reading CSV *)

(** Where a reader of CSV stands in a line: at the start of a cell, in a
    cell that is not quoted, in a quoted cell, or after a double quote
    met in a quoted cell. *)
Inductive CsvState := AtStart | InPlain | InQuoted | AfterQuote.

(** A reader of one record of a CSV file, with the quoting of RFC 4180.
    Cells are separated by commas.  A cell that starts with a double
    quote runs to the next double quote that is not doubled, a doubled one
    standing for one, and is followed by a comma or by the end of the
    record.  A cell that is not quoted holds no double quote and ends at
    a comma or at the end of the record.  The record ends at a line break
    (CR, LF or CR LF) outside quotes, or with the text.  Any other code
    unit is text.  The result is the cells of the record and the text
    after its line break; [None] for a text that is not of this form. *)
Definition isLineBreak (c : N) : bool := (c =? 10)%N || (c =? 13)%N.

(** The text after the line break that [c] starts: CR LF is one line
    break. *)
Definition afterBreak (c : N) (s : jsstring) : jsstring :=
  if (c =? 13)%N then
    match s with
    | x :: s' => if (x =? 10)%N then s' else s
    | [] => s
    end
  else s.

Definition consCell (cell : jsstring)
    (r : option (list jsstring * jsstring))
  : option (list jsstring * jsstring) :=
  match r with
  | Some (cells, rest) => Some (cell :: cells, rest)
  | None => None
  end.

Fixpoint readRecord (s : jsstring) (st : CsvState) (cell : jsstring)
  : option (list jsstring * jsstring) :=
  match s with
  | [] =>
      match st with
      | InQuoted => None
      | _ => Some ([cell], [])
      end
  | c :: s' =>
      match st with
      | AtStart =>
          if (c =? 34)%N then readRecord s' InQuoted []
          else if (c =? 44)%N then consCell [] (readRecord s' AtStart [])
          else if isLineBreak c then Some ([[]], afterBreak c s')
          else readRecord s' InPlain [c]
      | InPlain =>
          if (c =? 34)%N then None
          else if (c =? 44)%N then consCell cell (readRecord s' AtStart [])
          else if isLineBreak c then Some ([cell], afterBreak c s')
          else readRecord s' InPlain (cell ++ [c])
      | InQuoted =>
          if (c =? 34)%N then readRecord s' AfterQuote cell
          else readRecord s' InQuoted (cell ++ [c])
      | AfterQuote =>
          if (c =? 34)%N then readRecord s' InQuoted (cell ++ [34%N])
          else if (c =? 44)%N then consCell cell (readRecord s' AtStart [])
          else if isLineBreak c then Some ([cell], afterBreak c s')
          else None
      end
  end.

(** What follows a cell in a text: the end of the text, a line feed and
    the text after the record, or a comma and the other cells of the
    record. *)
Definition ends (rest : jsstring) (cells : list jsstring)
    (tail : jsstring) : Prop :=
  (rest = [] /\ cells = [] /\ tail = [])
  \/ (rest = 10%N :: tail /\ cells = [])
  \/ exists more,
       rest = 44%N :: more
       /\ readRecord more AtStart [] = Some (cells, tail).

(** A left inverse of [Cli.line]: it reads as [readRecord] does, but
    takes every code unit of a cell that is not quoted (line breaks and
    double quotes too) as text of the cell, and never fails. *)
Fixpoint readCells (s : jsstring) (st : CsvState) (cell : jsstring)
  : list jsstring :=
  match s with
  | [] => [cell]
  | c :: s' =>
      match st with
      | AtStart =>
          if (c =? 34)%N then readCells s' InQuoted []
          else if (c =? 44)%N then [] :: readCells s' AtStart []
          else readCells s' InPlain [c]
      | InPlain =>
          if (c =? 44)%N then cell :: readCells s' AtStart []
          else readCells s' InPlain (cell ++ [c])
      | InQuoted =>
          if (c =? 34)%N then readCells s' AfterQuote cell
          else readCells s' InQuoted (cell ++ [c])
      | AfterQuote =>
          if (c =? 34)%N then readCells s' InQuoted (cell ++ [34%N])
          else if (c =? 44)%N then cell :: readCells s' AtStart []
          else readCells s' InPlain (cell ++ [c])
      end
  end.

(** What follows a cell in a line: nothing, or a comma and more cells. *)
Definition follows (rest : jsstring) (cells : list jsstring) : Prop :=
  (rest = [] /\ cells = [])
  \/ exists more, rest = 44%N :: more /\ cells = readCells more AtStart [].

(** *** Intervals in a year *)

(** How many times an interval goes into a year, as [convertToAnnual] has
    it. *)
Definition perYear (i : CompensationInterval) : Q :=
  match i with
  | HOURLY => 2080
  | MONTHLY => 12
  | WEEKLY => 52
  | DAILY => 260
  | YEARLY => 1
  end.

(** *** The polynomial hash *)

(** The polynomial [s[0]*31^(n-1) + ... + s[n-1]], from [hash]. *)
Definition polynomial31 (hash : Z) (str : jsstring) : Z :=
  fold_left (fun acc char => 31 * acc + Z.of_N char) str hash.

(** *** Slugs *)

(** A slug: lower-case ASCII letters, digits and single dashes, with no
    dash at either end. *)
Definition Slug (s : jsstring) : Prop :=
  Forall (fun c => Adapters.GoogleCareers.isSlugChar c = true \/ c = 45%N) s
  /\ head s <> Some 45%N /\ last s <> Some 45%N
  /\ ~ occursIn [45; 45]%N s.

(** No dash is followed by a dash. *)
Fixpoint dashesApart (s : jsstring) : bool :=
  match s with
  | [] => true
  | c :: s' =>
      negb ((c =? 45)%N && bool_decide (head s' = Some 45%N))
      && dashesApart s'
  end.

(** *** Keys seen *)

(** The invariant of a loop that keeps the keys seen: the jobs collected
    have different values of [field], and each of them was made from a
    key that was seen. *)
Definition Keyed {K} (field : JobPost -> K) (made : jsstring -> JobPost -> Prop)
    (jobList : list JobPost) (seen : Adapters.Seen) : Prop :=
  NoDup (field <$> jobList)
  /\ forall job, job ∈ jobList -> exists k, k ∈ seen /\ made k job.

(** How the adapters that keep the ids seen make a job from a key. *)
Definition linkedInMade (k : jsstring) (job : JobPost) : Prop :=
  id job = Some (u "li-" ++ k)
  /\ job_url job = Adapters.LinkedIn.baseUrl ++ u "/jobs/view/" ++ k.


Definition careersMade (k : jsstring) (job : JobPost) : Prop :=
  id job = Some k.

(** *** Further examples *)

(** A rate of 20 to 30 an hour. *)
Definition hourlyPay : Compensation :=
  {| interval := Some HOURLY; min_amount := Some 20%Q;
     max_amount := Some 30%Q; currency := None |}.

(** The parameter bag with [enforce_annual_salary] set and nothing else. *)
Definition enforcing : Params.ScrapeJobsParams :=
  {| Params.site_name := None;
     Params.search_term := None;
     Params.google_search_term := None;
     Params.location := None;
     Params.distance := None;
     Params.is_remote := None;
     Params.job_type := None;
     Params.easy_apply := None;
     Params.results_wanted := None;
     Params.country_indeed := None;
     Params.proxies := None;
     Params.description_format := None;
     Params.linkedin_fetch_description := None;
     Params.linkedin_company_ids := None;
     Params.offset := None;
     Params.hours_old := None;
     Params.enforce_annual_salary := Some true;
     Params.verbose := None |}.

(** Sites that list a job twice on their first page. *)
Definition zipCard (k : string) : Adapters.ZipRecruiter.Card :=
  {| Adapters.ZipRecruiter.listingKey := Some (u k);
     Adapters.ZipRecruiter.rawCanonicalZipJobPageUrl := None;
     Adapters.ZipRecruiter.cardPost := post k None None |}.

Definition linkedInCard (href : string) : Adapters.LinkedIn.Card :=
  {| Adapters.LinkedIn.href := Some (u href);
     Adapters.LinkedIn.cardPost := Some (post href None None) |}.

Definition bdItem (k : string) : Adapters.BDJobs.Item :=
  {| Adapters.BDJobs.jobId := Some (u k);
     Adapters.BDJobs.itemPost := post k None None |}.

Definition googleEntry (url : string) : Adapters.Google.Entry :=
  {| Adapters.Google.jobUrl := Some (u url);
     Adapters.Google.parsed := Some (u url, post url None None) |}.

Definition repeating : Adapters.Network :=
  {| Adapters.fuel := 1100;
     Adapters.session := fun _ => true;
     Adapters.bayt :=
       onePage [listing "Engineer" "/en/job/1"; listing "Analyst" "/en/job/2"];
     Adapters.glassdoorLocation := fun _ => Adapters.Glassdoor.LookupNotOk;
     Adapters.glassdoorPage := glassdoorRepeats;
     Adapters.indeed := indeedRepeats;
     Adapters.zipRecruiter := fun page =>
       if page =? 1
       then Adapters.ZipRecruiter.PageOk
              [zipCard "a"; zipCard "a"; zipCard "b"] (Some 1) (Some 1)
       else Adapters.ZipRecruiter.PageFail;
     Adapters.linkedIn := fun start =>
       if start =? 0
       then Adapters.LinkedIn.PageCards
              [linkedInCard "/jobs/view/developer-at-acme-41?position=1";
               linkedInCard "/jobs/view/developer-at-acme-41?position=2";
               linkedInCard "/jobs/view/analyst-at-acme-42?position=3"]
       else Adapters.LinkedIn.PageCards [];
     Adapters.naukri :=
       oneNaukriPage
         [detail "77" (post "Developer" None None);
          detail "77" (post "Developer" None None);
          detail "78" (post "Tester" None None)];
     Adapters.bdJobs := fun page =>
       if page =? 1 then Some [bdItem "5"; bdItem "5"; bdItem "6"]
       else Some [];
     Adapters.googleInitial :=
       Adapters.Google.Initial (Some (u "cursor"))
         [googleEntry "https://a.example/1"; googleEntry "https://a.example/1";
          googleEntry "https://a.example/2"];
     Adapters.googleNext := fun _ =>
       Some ([googleEntry "https://a.example/1";
              googleEntry "https://a.example/3"], None);
     Adapters.googleCareers := fun _ => Adapters.GoogleCareers.PageNoData |}.

Definition threeRepeating : Params.ScrapeJobsParams :=
  paramsFor (Some (ManySites [u "linkedin"; u "naukri"; u "zip_recruiter"])).

End Statements.

(** * Properties *)

(** Solves [l = r], where [l] is closed and [r] may be unknown, by
    evaluating [l]. *)
Ltac evaluate :=
  lazymatch goal with
  | |- ?l = _ =>
      let v := eval vm_compute in l in
      transitivity v; [vm_compute; reflexivity | reflexivity]
  end.

(** ** Salary inference *)

Section SalaryInference.
Import Utils.


Lemma ltb_ge a b : ltb a b = false <-> (b <= a)%Q.
Proof. unfold ltb. by rewrite negb_false_iff, Qle_bool_iff. Qed.

Lemma geb_lt a b : geb a b = false <-> (a < b)%Q.
Proof.
  unfold geb. rewrite <- not_true_iff_false, Qle_bool_iff.
  split; [apply Qnot_le_lt | apply Qlt_not_le].
Qed.

Lemma times_eq a b : (times a b == a * b)%Q.
Proof. apply Qred_correct. Qed.

(** The window check of [extractSalary], read back. *)
Lemma window_check lo hi amin amax :
  ltb amin lo || gtb amin hi || ltb amax lo || gtb amax hi || geb amin amax
  = false ->
  ((lo <= amin)%Q /\ (amin <= hi)%Q) /\ ((lo <= amax)%Q /\ (amax <= hi)%Q)
  /\ (amin < amax)%Q.
Proof.
  rewrite !orb_false_iff. unfold gtb.
  intros [[[[H1 H2] H3] H4] H5].
  apply ltb_ge in H1, H2, H3, H4. apply geb_lt in H5. tauto.
Qed.

Lemma scale_lt a b m : (0 < m)%Q -> (a * m < b * m)%Q -> (a < b)%Q.
Proof. intros Hm H. by apply Qmult_lt_r in H. Qed.

Lemma plausible_intro opts r interval f minS maxS amin amax :
  annualFactor interval = f -> (0 < f)%Q ->
  interval = u "hourly" \/ interval = u "monthly" \/ interval = u "yearly" ->
  (amin == minS * f)%Q -> (amax == maxS * f)%Q ->
  ltb amin (default 1000%Q (Opts.lowerLimit opts))
  || gtb amin (default 700000%Q (Opts.upperLimit opts))
  || ltb amax (default 1000%Q (Opts.lowerLimit opts))
  || gtb amax (default 700000%Q (Opts.upperLimit opts))
  || geb amin amax = false ->
  r = {| Salary.interval := interval;
         Salary.min_amount :=
           if default false (Opts.enforceAnnual opts) then amin else minS;
         Salary.max_amount :=
           if default false (Opts.enforceAnnual opts) then amax else maxS;
         Salary.currency := u "USD" |} ->
  Plausible opts r minS maxS.
Proof.
  intros Hf Hpos Hi Hmin Hmax Hw ->.
  apply window_check in Hw as ((Hlo1 & Hhi1) & (Hlo2 & Hhi2) & Hlt).
  assert (minS * f < maxS * f)%Q as Hann by (by rewrite <- Hmin, <- Hmax).
  split; simpl; rewrite ?Hf; try done.
  - by rewrite <- Hmin.
  - by rewrite <- Hmax.
  - by destruct (default false (Opts.enforceAnnual opts)).
  - by destruct (default false (Opts.enforceAnnual opts)).
  - destruct (default false (Opts.enforceAnnual opts)); [done|].
    by apply (scale_lt _ _ f).
Qed.

(** C4.  Whatever the text and the options, a result [extractSalary]
    returns is complete and plausible: its interval is hourly, monthly or
    yearly and its currency USD; the raw bounds it was inferred from,
    annualised with the multiplier of that interval, both lie in
    [[lowerLimit, upperLimit]] and are strictly increasing; and the
    amounts returned (the raw bounds, or the annualised ones under
    [enforceAnnual]) satisfy [min_amount < max_amount]. *)
Theorem extractSalary_plausible text opts r :
  extractSalary text opts = Some r ->
  exists minSalary maxSalary, Plausible opts r minSalary maxSalary.
Proof.
  unfold extractSalary. intros H.
  destruct text as [text|]; [|done].
  destruct (negb (truthy text)); [done|].
  destruct (search pattern text) as [m|]; [|done].
  destruct (capture 1 m) as [m1|]; [|done].
  destruct (capture 2 m) as [m2|]; [|done].
  destruct (capture 3 m) as [m3|]; [|done].
  destruct (capture 4 m) as [m4|]; [|done].
  destruct (parseFloat (removeCommas m1)) as [min0|]; [|done].
  destruct (parseFloat (removeCommas m3)) as [max0|]; [|done].
  cbv zeta in H.
  set (k := eqb (toLowerCase m2) (u "k") || eqb (toLowerCase m4) (u "k")) in H.
  set (minS := if k then times min0 1000%Q else min0) in H.
  set (maxS := if k then times max0 1000%Q else max0) in H.
  exists minS, maxS.
  destruct (ltb minS _) eqn:Hh.
  - destruct (ltb maxS _); [|done].
    destruct (_ || _) eqn:Hw in H; [done|]. injection H as <-.
    by apply (plausible_intro _ _ (u "hourly") 2080%Q minS maxS
                (times minS 2080%Q) (times maxS 2080%Q));
      auto using times_eq.
  - destruct (ltb minS _) eqn:Hm in H.
    + destruct (ltb maxS _); [|done].
      destruct (_ || _) eqn:Hw in H; [done|]. injection H as <-.
      by apply (plausible_intro _ _ (u "monthly") 12%Q minS maxS
                  (times minS 12%Q) (times maxS 12%Q));
        auto using times_eq.
    + destruct (_ || _) eqn:Hw in H; [done|]. injection H as <-.
      apply (plausible_intro _ _ (u "yearly") 1%Q minS maxS minS maxS);
        [done | done | auto | symmetry; apply Qmult_1_r
        | symmetry; apply Qmult_1_r | exact Hw | done].
Qed.

Lemma extractSalary_plausible_witness :
  extractSalary (Some (u "$4,000 - $5,500 a month")) Opts.none
  = Some {| Salary.interval := u "monthly"; Salary.min_amount := 4000%Q;
            Salary.max_amount := 5500%Q; Salary.currency := u "USD" |}
  /\ exists minSalary maxSalary,
       Plausible Opts.none
         {| Salary.interval := u "monthly"; Salary.min_amount := 4000%Q;
            Salary.max_amount := 5500%Q; Salary.currency := u "USD" |}
         minSalary maxSalary.
Proof.
  split; [vm_compute; reflexivity|].
  apply (extractSalary_plausible (Some (u "$4,000 - $5,500 a month"))).
  vm_compute; reflexivity.
Defined.

(** C5.  [extractSalary("$50 - $70 per hour", { hourlyThreshold: 350 })]
    returns a result of interval hourly with the amounts 50 and 70; the
    annualised bounds are 50 * 2080 = 104000 and 70 * 2080 = 145600, both
    within the default window [[1000, 700000]], and they are the amounts
    returned under [enforceAnnual]. *)
Theorem extractSalary_hourly_scenario :
  extractSalary (Some (u "$50 - $70 per hour")) hourly350
  = Some {| Salary.interval := CompensationInterval_value HOURLY;
            Salary.min_amount := 50%Q; Salary.max_amount := 70%Q;
            Salary.currency := u "USD" |}
  /\ times 50%Q 2080%Q = 104000%Q /\ times 70%Q 2080%Q = 145600%Q
  /\ (1000 <= 104000)%Q /\ (145600 <= 700000)%Q
  /\ extractSalary (Some (u "$50 - $70 per hour")) (enforced hourly350)
     = Some {| Salary.interval := CompensationInterval_value HOURLY;
               Salary.min_amount := 104000%Q; Salary.max_amount := 145600%Q;
               Salary.currency := u "USD" |}.
Proof. repeat split; vm_compute; congruence. Qed.

End SalaryInference.

(** ** Flattening *)

Section Flattening.
Import Scraper.

Lemma convertToAnnual_fields r :
  (is_Some (Flat.min_amount (Utils.convertToAnnual r))
   <-> is_Some (Flat.min_amount r))
  /\ (is_Some (Flat.max_amount (Utils.convertToAnnual r))
      <-> is_Some (Flat.max_amount r))
  /\ Flat.salary_source (Utils.convertToAnnual r) = Flat.salary_source r
  /\ Flat.currency (Utils.convertToAnnual r) = Flat.currency r
  /\ (is_Some (Flat.interval r) -> is_Some (Flat.interval (Utils.convertToAnnual r))).
Proof.
  unfold Utils.convertToAnnual.
  destruct (Utils.multipliers _); simpl; [|done].
  rewrite <- !not_eq_None_Some.
  destruct (Flat.min_amount r), (Flat.max_amount r); simpl; naive_solver.
Qed.

(** Whatever branch [flattenJob] takes, the record it returns is the
    initial record with the salary fields set. *)
Lemma flattenJob_initial job site cn params :
  exists i lo hi cur src,
    flattenJob job site cn params
    = Flat.set_salary (initialRecord job site) i lo hi cur src.
Proof.
  unfold flattenJob.
  set (record := initialRecord job site).
  assert (forall r, (exists i lo hi cur src, r = Flat.set_salary record i lo hi cur src) ->
     exists i lo hi cur src,
       match Flat.min_amount r with
       | Some _ => r
       | None => Flat.set_salary_source r None
       end = Flat.set_salary record i lo hi cur src) as Hfin.
  { intros r (i & lo & hi & cur & src & ->). simpl.
    destruct lo; [by eauto 6|]. unfold Flat.set_salary_source. simpl. by eauto 6. }
  assert (exists i lo hi cur src, record = Flat.set_salary record i lo hi cur src) as Hrec.
  { by exists None, None, None, None, None. }
  apply Hfin.
  assert (exists i lo hi cur src,
    (if bool_decide (cn = Some (u "usa")) || bool_decide (cn = Some (u "us"))
     then match Utils.extractSalary (description job)
              {| Utils.Opts.lowerLimit := None;
                 Utils.Opts.upperLimit := None;
                 Utils.Opts.hourlyThreshold := None;
                 Utils.Opts.monthlyThreshold := None;
                 Utils.Opts.enforceAnnual :=
                   Params.enforce_annual_salary params |} with
          | Some extracted =>
          Flat.set_salary record
            (Some (Utils.Salary.interval extracted))
            (Some (Utils.Salary.min_amount extracted))
            (Some (Utils.Salary.max_amount extracted))
            (Some (Utils.Salary.currency extracted))
            (Some (SalarySource_value DESCRIPTION))
          | None => record end
     else record) = Flat.set_salary record i lo hi cur src) as Hinf.
  { destruct (_ || _); [|done]. destruct (Utils.extractSalary _ _); [by eauto 6|done]. }
  destruct (compensation job) as [c|]; [|exact Hinf].
  destruct (notNull (min_amount c) || notNull (max_amount c)); [|exact Hinf].
  destruct (_ && _); [|by eauto 6].
  unfold Utils.convertToAnnual. destruct (Utils.multipliers _); by eauto 6.
Qed.

Lemma flattenJob_salary_source job site cn params :
  is_Some (Flat.salary_source (flattenJob job site cn params))
  <-> is_Some (Flat.min_amount (flattenJob job site cn params)).
Proof.
  unfold flattenJob.
  set (record := initialRecord job site).
  set (inferred := if _ || _ then _ else record).
  set (record' := match compensation job with Some _ => _ | None => _ end).
  assert (is_Some (Flat.min_amount record')
          -> is_Some (Flat.salary_source record')) as Hsrc.
  { assert (is_Some (Flat.min_amount inferred)
            -> is_Some (Flat.salary_source inferred)) as Hinf.
    { subst inferred. destruct (_ || _); [|by intros [? [=]]].
      destruct (Utils.extractSalary _ _); [by eauto|by intros [? [=]]]. }
    subst record'. destruct (compensation job) as [c|]; [|done].
    destruct (notNull (min_amount c) || notNull (max_amount c)); [|done].
    destruct (_ && _).
    - destruct (convertToAnnual_fields
                  (Flat.set_salary record
                     (option_map CompensationInterval_value (interval c))
                     (min_amount c) (max_amount c)
                     (Some (default (u "USD") (currency c)))
                     (Some (SalarySource_value DIRECT_DATA))))
        as (_ & _ & -> & _). simpl. by eauto.
    - simpl. by eauto. }
  destruct (Flat.min_amount record') eqn:Hmin.
  - rewrite Hmin. split; [by eauto|]. intros _. apply Hsrc. by eauto.
  - simpl. rewrite Hmin. split; by intros [? [=]].
Qed.

Lemma flattenJob_max_only job site cn params c m :
  compensation job = Some c -> min_amount c = None -> max_amount c = Some m ->
  Flat.max_amount (flattenJob job site cn params) = Some m
  /\ Flat.interval (flattenJob job site cn params)
     = option_map CompensationInterval_value (interval c)
  /\ Flat.min_amount (flattenJob job site cn params) = None
  /\ Flat.salary_source (flattenJob job site cn params) = None.
Proof.
  intros Hc Hmin Hmax. unfold flattenJob. rewrite Hc, Hmin, Hmax. simpl.
  rewrite !andb_false_r. done.
Qed.
End Flattening.

(** ** The final sort *)

Section Ordering.
Import Scraper.

Lemma compareCU_refl a : compareCU a a = Eq.
Proof. induction a as [|x a IH]; simpl; [done|]. by rewrite N.compare_refl. Qed.

Lemma compareCU_eq a b : compareCU a b = Eq -> a = b.
Proof.
  revert b. induction a as [|x a IH]; intros [|y b]; simpl; try done.
  destruct (N.compare_spec x y) as [->| |]; try done.
  by intros ->%IH.
Qed.

Lemma compareCU_antisym a b : compareCU b a = CompOpp (compareCU a b).
Proof.
  revert b. induction a as [|x a IH]; intros [|y b]; simpl; try done.
  rewrite (N.compare_antisym x y).
  destruct (x ?= y)%N; simpl; auto.
Qed.

Lemma compareCU_lt_trans a b c :
  compareCU a b = Lt -> compareCU b c = Lt -> compareCU a c = Lt.
Proof.
  revert b c. induction a as [|x a IH]; intros [|y b] [|z c]; simpl; try done.
  destruct (N.compare_spec x y) as [->|Hxy|Hxy]; try done.
  - destruct (N.compare_spec y z) as [->|Hyz|Hyz]; try done. apply IH.
  - intros _. destruct (N.compare_spec y z) as [->|Hyz|Hyz]; try done.
    + intros _. by apply N.compare_lt_iff in Hxy as ->.
    + intros _. assert (x < z)%N as ->%N.compare_lt_iff by lia. done.
Qed.

Lemma localeCompare_cases a b :
  (localeCompare a b = -1 /\ compareCU a b = Lt)
  \/ (localeCompare a b = 0 /\ a = b)
  \/ (localeCompare a b = 1 /\ compareCU b a = Lt).
Proof.
  unfold localeCompare. rewrite (compareCU_antisym a b).
  destruct (compareCU a b) eqn:H; simpl; auto using compareCU_eq.
Qed.

Lemma jobLe_iff a b :
  jobLe a b <->
  compareCU (Flat.site a) (Flat.site b) = Lt
  \/ (Flat.site a = Flat.site b
      /\ compareCU (default [] (Flat.date_posted a))
                   (default [] (Flat.date_posted b)) <> Lt).
Proof.
  unfold jobLe, compareJobs.
  destruct (localeCompare_cases (Flat.site a) (Flat.site b))
    as [[-> Hs]|[[-> Hs]|[-> Hs]]]; simpl.
  - split; [auto|lia].
  - destruct (localeCompare_cases (default [] (Flat.date_posted b))
                (default [] (Flat.date_posted a)))
      as [[-> Hd]|[[-> Hd]|[-> Hd]]].
    + split; [|lia]. intros _. right. split; [done|].
      rewrite (compareCU_antisym _ _), Hd. done.
    + split; [|lia]. intros _. right. split; [done|].
      by rewrite Hd, compareCU_refl.
    + rewrite Hs, compareCU_refl. split; [lia|]. intros [|[_ ?]]; done.
  - split; [lia|]. intros [H|[H _]].
    + pose proof (compareCU_lt_trans _ _ _ H Hs) as Hc.
      by rewrite compareCU_refl in Hc.
    + rewrite H, compareCU_refl in Hs. done.
Qed.

Lemma compareCU_not_lt_trans a b c :
  compareCU a b <> Lt -> compareCU b c <> Lt -> compareCU a c <> Lt.
Proof.
  intros Hab Hbc Hac.
  destruct (compareCU a b) eqn:E1; try done.
  - apply compareCU_eq in E1 as ->. done.
  - destruct (compareCU b c) eqn:E2; try done.
    + apply compareCU_eq in E2 as ->. by rewrite E1 in Hac.
    + rewrite (compareCU_antisym b a) in E1.
      rewrite (compareCU_antisym c b) in E2.
      destruct (compareCU b a) eqn:E3; try done.
      destruct (compareCU c b) eqn:E4; try done.
      pose proof (compareCU_lt_trans _ _ _ E4 E3) as Hca.
      pose proof (compareCU_lt_trans _ _ _ Hac Hca) as Haa.
      by rewrite compareCU_refl in Haa.
Qed.

#[local] Instance jobLe_trans : Transitive jobLe.
Proof.
  intros a b c. rewrite !jobLe_iff.
  intros [H1|[H1 D1]] [H2|[H2 D2]].
  - left. eauto using compareCU_lt_trans.
  - left. by rewrite <- H2.
  - left. by rewrite H1.
  - right. split; [congruence|]. eauto using compareCU_not_lt_trans.
Qed.

Lemma jobLe_total a b : jobLe a b \/ jobLe b a.
Proof.
  rewrite !jobLe_iff.
  destruct (compareCU (Flat.site a) (Flat.site b)) eqn:Hs; [|by auto|].
  - apply compareCU_eq in Hs. 
    destruct (compareCU (default [] (Flat.date_posted a))
                (default [] (Flat.date_posted b))) eqn:Hd.
    + left. right. done.
    + right. right. split; [done|].
      rewrite (compareCU_antisym _ _), Hd. done.
    + left. right. done.
  - right. left. rewrite (compareCU_antisym _ _), Hs. done.
Qed.

Lemma insert_Permutation {A} (cmp : A -> A -> Z) x l :
  insert cmp x l ≡ₚ x :: l.
Proof.
  induction l as [|y l IH]; simpl; [done|].
  destruct (cmp x y <=? 0); [done|]. by rewrite IH, Permutation_swap.
Qed.

Lemma sort_Permutation {A} (cmp : A -> A -> Z) l : sort cmp l ≡ₚ l.
Proof.
  induction l as [|x l IH]; simpl; [done|].
  by rewrite insert_Permutation, IH.
Qed.

Lemma insert_sorted x l :
  StronglySorted jobLe l -> StronglySorted jobLe (insert compareJobs x l).
Proof.
  induction 1 as [|y l Hl IH Hy]; simpl.
  - repeat constructor.
  - destruct (Z.leb_spec (compareJobs x y) 0) as [Hxy|Hxy].
    + constructor; [by constructor|].
      constructor; [done|].
      eapply Forall_impl; [exact Hy|]. intros z Hz. by transitivity y.
    + constructor; [done|].
      rewrite insert_Permutation. constructor; [|done].
      destruct (jobLe_total x y) as [H|H]; [|done].
      unfold jobLe in H. lia.
Qed.

Lemma sort_sorted l : StronglySorted jobLe (sort compareJobs l).
Proof.
  induction l as [|x l IH]; simpl; [constructor|]. by apply insert_sorted.
Qed.

Lemma sorted_lookup {A} (R : A -> A -> Prop) l i j a b :
  StronglySorted R l -> (i < j)%nat ->
  l !! i = Some a -> l !! j = Some b -> R a b.
Proof.
  intros Hl. revert i j. induction Hl as [|x l Hl IH Hx]; intros i j Hij Hi Hj.
  - done.
  - destruct j as [|j]; [lia|]. destruct i as [|i]; simpl in *.
    + injection Hi as ->. rewrite Forall_forall in Hx. apply Hx.
      by eapply list_elem_of_lookup_2.
    + apply (IH i j); [lia|done..].
Qed.
End Ordering.

(** ** The orchestrator *)

Section Orchestrator.
Import Adapters Scraper.

Lemma scrapeJobs_inv net params h r h' :
  scrapeJobs net params h = (r, h') ->
  (exists m, r = Rejected m /\ h' = h
     /\ (resolveSites (Params.site_name params) = Throw m
         \/ getCountry (default (u "usa") (Params.country_indeed params))
            = Throw m
         \/ resolveJobType (Params.job_type params) = Throw m))
  \/ exists sites country jobType results,
       resolveSites (Params.site_name params) = Ok sites
       /\ getCountry (default (u "usa") (Params.country_indeed params))
          = Ok country
       /\ resolveJobType (Params.job_type params) = Ok jobType
       /\ dispatch net (length h) sites
            (h ++ [scraperInput params sites country jobType])
          = (results, h')
       /\ r = if existsb isPending results then Pending
              else Fulfilled {| result_jobs :=
                     sort compareJobs
                       (collect results (CountryValue_name country) params) |}.
Proof.
  unfold scrapeJobs, alloc.
  destruct (resolveSites _) as [sites|m]; [|intros [= <- <-]; left; by eauto 10].
  destruct (getCountry _) as [country|m]; [|intros [= <- <-]; left; by eauto 10].
  destruct (resolveJobType _) as [jobType|m];
    [|intros [= <- <-]; left; by eauto 10].
  destruct (dispatch _ _ _ _) as [results h1] eqn:Hd.
  intros H. right. exists sites, country, jobType, results.
  destruct (existsb isPending results); injection H as <- <-; done.
Qed.

Lemma collect_fulfilled results cn params :
  collect results cn params
  = flat_map
      (fun '(site, response) =>
         List.map (fun job => flattenJob job site cn params) (jobs response))
      (fulfilled results).
Proof.
  induction results as [|[[site response]| |] results IH]; simpl; [done|..].
  - by rewrite IH.
  - done.
  - done.
Qed.

Lemma collect_length results cn params :
  length (collect results cn params)
  = sum_list (List.map (fun x => length (jobs x.2)) (fulfilled results)).
Proof.
  induction results as [|[[site response]| |] results IH]; simpl; [done|..].
  - by rewrite length_app, length_map, IH.
  - done.
  - done.
Qed.

Lemma collect_flattened results cn params r :
  r ∈ collect results cn params ->
  exists job site, r = flattenJob job site cn params.
Proof.
  rewrite collect_fulfilled, list_elem_of_In, in_flat_map.
  intros [[site response] [_ Hr]]. apply in_map_iff in Hr as (job & <- & _).
  by eauto.
Qed.

Lemma scrapeJobs_fulfilled net params h res h' :
  scrapeJobs net params h = (Fulfilled res, h') ->
  exists results cn,
    result_jobs res = sort compareJobs (collect results cn params).
Proof.
  intros [(m & [=] & _)|(sites & country & jobType & results & _ & _ & _ & _ & Hr)]
    %scrapeJobs_inv.
  destruct (existsb isPending results); [done|]. injection Hr as ->.
  by eauto.
Qed.

(** C6.  In the list [scrapeJobs] returns, a record stands before another
    one whenever its site is earlier in alphabetical order, whatever their
    dates; or the sites are equal, both have a date of the form
    [YYYY-MM-DD] and its date is the lexically later one; or the sites are
    equal, it has such a date and the other has no [date_posted]. *)
Theorem scrapeJobs_order net params h res h' i j a b :
  scrapeJobs net params h = (Fulfilled res, h') ->
  result_jobs res !! i = Some a ->
  result_jobs res !! j = Some b ->
  compareCU (Flat.site a) (Flat.site b) = Lt
  \/ (Flat.site a = Flat.site b
      /\ exists da db, Flat.date_posted a = Some da
           /\ Flat.date_posted b = Some db
           /\ isoDate da = true /\ isoDate db = true
           /\ compareCU db da = Lt)
  \/ (Flat.site a = Flat.site b
      /\ exists da, Flat.date_posted a = Some da /\ isoDate da = true
           /\ Flat.date_posted b = None) ->
  (i < j)%nat.
Proof.
  intros (results & cn & Hres)%scrapeJobs_fulfilled Ha Hb Hkey.
  assert (~ jobLe b a) as Hnle.
  { rewrite jobLe_iff. intros [Hs|[Hs Hd]].
    - destruct Hkey as [Hk|[[Hk _]|[Hk _]]].
      + pose proof (compareCU_lt_trans _ _ _ Hk Hs) as Hc.
        by rewrite compareCU_refl in Hc.
      + by rewrite Hk, compareCU_refl in Hs.
      + by rewrite Hk, compareCU_refl in Hs.
    - destruct Hkey
        as [Hk|[[_ (da & db & Ea & Eb & _ & _ & Hk)]
               |[_ (da & Ea & Hiso & Eb)]]].
      + by rewrite Hs, compareCU_refl in Hk.
      + by rewrite Ea, Eb in Hd.
      + rewrite Ea, Eb in Hd. simpl in Hd. by destruct da.
  }
  destruct (Nat.lt_trichotomy i j) as [Hij|[->|Hji]]; [done|..].
  - rewrite Ha in Hb. injection Hb as ->.
    destruct Hnle. destruct (jobLe_total b b); done.
  - destruct Hnle. rewrite Hres in Ha, Hb.
    eapply (sorted_lookup jobLe _ j i b a); [apply sort_sorted|done..].
Qed.

Lemma scrapeJobs_order_witness :
  exists res h' a b,
    scrapeJobs olderFirst naukriOnly [] = (Fulfilled res, h')
    /\ result_jobs res !! 0%nat = Some a
    /\ result_jobs res !! 1%nat = Some b
    /\ Flat.date_posted a = Some (u "2024-06-15")
    /\ Flat.date_posted b = Some (u "2024-05-01")
    /\ (0 < 1)%nat.
Proof.
  eexists _, _, _, _.
  split; [evaluate|]. split; [evaluate|]. split; [evaluate|].
  split; [evaluate|]. split; [evaluate|].
  eapply (scrapeJobs_order olderFirst naukriOnly []);
    [evaluate | evaluate | evaluate |].
  right. left. split; [evaluate|].
  exists (u "2024-06-15"), (u "2024-05-01").
  split; [evaluate|]. split; [evaluate|].
  split; [evaluate|]. split; [evaluate|]. vm_compute. reflexivity.
Defined.

(** C10.  Every record [scrapeJobs] returns is the flattening of a job
    post; its [salary_source] is present exactly when its [min_amount] is;
    and when the compensation of the job post has a [max_amount] and no
    [min_amount], the record carries that [max_amount] and the interval of
    the compensation, and has neither [min_amount] nor [salary_source]. *)
Theorem salary_source_iff_min_amount net params h res h' r :
  scrapeJobs net params h = (Fulfilled res, h') ->
  r ∈ result_jobs res ->
  (is_Some (Flat.salary_source r) <-> is_Some (Flat.min_amount r))
  /\ exists job site cn,
       r = flattenJob job site cn params
       /\ forall c m,
            compensation job = Some c ->
            min_amount c = None -> max_amount c = Some m ->
            Flat.max_amount r = Some m
            /\ Flat.interval r
               = option_map CompensationInterval_value (interval c)
            /\ Flat.min_amount r = None
            /\ Flat.salary_source r = None.
Proof.
  intros (results & cn & Hres)%scrapeJobs_fulfilled Hr.
  rewrite Hres, sort_Permutation in Hr.
  apply collect_flattened in Hr as (job & site & ->).
  split; [apply flattenJob_salary_source|].
  exists job, site, cn. split; [done|]. apply flattenJob_max_only.
Qed.

Lemma salary_source_iff_min_amount_witness :
  exists res h' r,
    scrapeJobs twoOfThree threeSites [] = (Fulfilled res, h')
    /\ result_jobs res !! 2%nat = Some r
    /\ Flat.max_amount r = Some 90000%Q
    /\ Flat.min_amount r = None
    /\ (is_Some (Flat.salary_source r) <-> is_Some (Flat.min_amount r)).
Proof.
  eexists _, _, _.
  split; [evaluate|]. split; [evaluate|].
  split; [evaluate|]. split; [evaluate|].
  eapply (salary_source_iff_min_amount twoOfThree threeSites []);
    [evaluate|].
  apply (list_elem_of_lookup_2 _ 2%nat). evaluate.
Defined.

End Orchestrator.

(** ** The store *)

Section Frame.
Import Adapters Scraper.

Lemma extends_refl h : extends h h.
Proof. exists []. by rewrite app_nil_r. Qed.

Lemma extends_alloc o h : extends h (alloc o h).2.
Proof. by exists [o]. Qed.

Lemma extends_trans h1 h2 h3 : extends h1 h2 -> extends h2 h3 -> extends h1 h3.
Proof. intros [n1 ->] [n2 ->]. exists (n1 ++ n2). by rewrite app_assoc. Qed.

Lemma extends_lookup h h' l o : extends h h' -> h !! l = Some o -> h' !! l = Some o.
Proof. intros [new ->] H. by apply lookup_app_l_Some. Qed.

Ltac frame :=
  unfold alloc; intros; repeat case_match; simplify_eq/=;
  first [apply extends_refl | by eexists].

Lemma scrape_extends net c input h r h' :
  scrape net c input h = (r, h') -> extends h h'.
Proof.
  destruct c; simpl.
  - unfold Indeed.scrape. frame.
  - unfold LinkedIn.scrape. frame.
  - unfold Glassdoor.scrape. frame.
  - unfold Google.scrape. frame.
  - unfold ZipRecruiter.scrape. frame.
  - unfold Bayt.scrape. frame.
  - unfold Naukri.scrape. frame.
  - unfold BDJobs.scrape. frame.
  - unfold GoogleCareers.scrape. frame.
Qed.

Lemma scrapeSite_extends net input site h r h' :
  scrapeSite net input site h = (r, h') -> extends h h'.
Proof.
  unfold scrapeSite. destruct (SCRAPER_MAP site) as [c|].
  - destruct (scrape net c input h) as [r0 h0] eqn:Hs.
    apply scrape_extends in Hs. by destruct r0; intros [= <- <-].
  - intros [= <- <-]. apply extends_refl.
Qed.

Lemma dispatch_extends net input sites h results h' :
  dispatch net input sites h = (results, h') -> extends h h'.
Proof.
  revert h results h'. induction sites as [|site sites IH]; simpl.
  - intros h results h' [= <- <-]. apply extends_refl.
  - intros h results h'.
    destruct (scrapeSite net input site h) as [r h1] eqn:H1.
    destruct (dispatch net input sites h1) as [rs h2] eqn:H2.
    intros [= <- <-].
    eauto using extends_trans, scrapeSite_extends.
Qed.

(** C9.  An adapter call, however it ends, leaves every object of the
    store it was started on as it was, the request among them; and when
    [scrapeJobs] has dispatched its adapters, whatever their outcomes, the
    request object it built for them is in the store with every field as
    it was built. *)
Theorem shared_input_unchanged net :
  (forall c input h inp r h',
     h !! input = Some inp ->
     scrape net c input h = (r, h') ->
     h' !! input = Some inp)
  /\ (forall params h sites country jobType r h',
        resolveSites (Params.site_name params) = Ok sites ->
        getCountry (default (u "usa") (Params.country_indeed params))
        = Ok country ->
        resolveJobType (Params.job_type params) = Ok jobType ->
        scrapeJobs net params h = (r, h') ->
        h' !! length h = Some (scraperInput params sites country jobType)).
Proof.
  split.
  - intros c input h inp r h' Hin Hs.
    eapply extends_lookup; [by eapply scrape_extends|done].
  - intros params h sites country jobType r h' Hs Hc Hj
      [(m & _ & _ & [?|[?|?]])|
       (sites' & country' & jobType' & results & Hs' & Hc' & Hj' & Hd & _)]
      %scrapeJobs_inv; try congruence.
    rewrite Hs in Hs'. rewrite Hc in Hc'. rewrite Hj in Hj'.
    simplify_eq. apply dispatch_extends in Hd.
    eapply extends_lookup; [done|].
    by apply list_lookup_middle.
Qed.

Lemma shared_input_unchanged_witness :
  exists r h',
    scrapeJobs twoOfThree threeSites [] = (r, h')
    /\ h' !! 0%nat
       = Some (scraperInput threeSites [NAUKRI; INDEED; BAYT] usa None).
Proof.
  eexists _, _. split; [evaluate|].
  eapply (proj2 (shared_input_unchanged twoOfThree) threeSites []);
    [evaluate | evaluate | evaluate | evaluate].
Defined.
End Frame.

(** ** Flattening, field by field *)

Section RoundTrip.
Import Scraper.

(** C3, as the claim states it, fails: a job post with a
    [banner_photo_url] is flattened into a record that has no field for
    it. *)
Lemma roundTrip_fails :
  exists job site countryName params,
    ~ roundTrip job (flattenJob job site countryName params).
Proof.
  exists withBanner, (u "indeed"), (Some (u "usa")), (paramsFor None).
  intros H. destruct (H P_banner_photo_url) as [H1 _].
  destruct (H1 eq_refl) as (g & [=] & _).
Qed.

Lemma notNull_option_map {A B} (f : A -> B) (o : option A) :
  notNull (option_map f o) = notNull o.
Proof. by destruct o. Qed.

Lemma copied_present job site i lo hi cur src f :
  copied f = true ->
  exists g, renamed f = Some g
    /\ onFlat g (Flat.set_salary (initialRecord job site) i lo hi cur src)
       = onPost f job.
Proof.
  destruct f; try done; intros _; eexists; (split; [reflexivity|]); simpl;
    rewrite ?notNull_option_map; reflexivity.
Qed.

Lemma convertToAnnual_present r :
  notNull (Flat.min_amount (Utils.convertToAnnual r))
  = notNull (Flat.min_amount r)
  /\ notNull (Flat.max_amount (Utils.convertToAnnual r))
     = notNull (Flat.max_amount r)
  /\ Flat.currency (Utils.convertToAnnual r) = Flat.currency r
  /\ (notNull (Flat.interval r) = true ->
      notNull (Flat.interval (Utils.convertToAnnual r)) = true).
Proof.
  unfold Utils.convertToAnnual.
  destruct (Utils.multipliers _); simpl; [|done].
  by rewrite !notNull_option_map.
Qed.

Lemma final_fields r :
  let r' := match Flat.min_amount r with
            | Some _ => r
            | None => Flat.set_salary_source r None
            end in
  Flat.interval r' = Flat.interval r
  /\ Flat.min_amount r' = Flat.min_amount r
  /\ Flat.max_amount r' = Flat.max_amount r
  /\ Flat.currency r' = Flat.currency r.
Proof. cbv zeta. by destruct (Flat.min_amount r) eqn:E. Qed.

(** C3, as amended.  The record [flattenJob] returns is the object literal
    of the copied fields with the five salary fields set: every field of
    the job post other than [banner_photo_url] and the fields of the
    compensation is present on it, under its flat name, exactly when it is
    present on the job post, and no absent one is set to an empty string
    or to zero.  [banner_photo_url] has no flat field.  When the
    compensation has a [min_amount] or a [max_amount], its amounts and
    interval are present on the record exactly when they are present on
    it (with their values, unless [enforce_annual_salary] asks for annual
    amounts), and the currency is present, ["USD"] when the compensation
    has none.  When it has neither amount and the country is neither
    ["usa"] nor ["us"], no salary field is present. *)
Theorem flattenJob_round_trip job site countryName params :
  let r := flattenJob job site countryName params in
  (forall f, copied f = true ->
     exists g, renamed f = Some g /\ onFlat g r = onPost f job)
  /\ (exists i lo hi cur src,
        r = Flat.set_salary (initialRecord job site) i lo hi cur src)
  /\ renamed P_banner_photo_url = None
  /\ (forall c,
        compensation job = Some c ->
        notNull (min_amount c) || notNull (max_amount c) = true ->
        Flat.currency r = Some (default (u "USD") (currency c))
        /\ onFlat F_min_amount r = notNull (min_amount c)
        /\ onFlat F_max_amount r = notNull (max_amount c)
        /\ onFlat F_interval r = notNull (interval c)
        /\ (default false (Params.enforce_annual_salary params) = false ->
            Flat.min_amount r = min_amount c
            /\ Flat.max_amount r = max_amount c
            /\ Flat.interval r
               = option_map CompensationInterval_value (interval c)))
  /\ ((forall c, compensation job = Some c ->
                 min_amount c = None /\ max_amount c = None) ->
      countryName <> Some (u "usa") -> countryName <> Some (u "us") ->
      onFlat F_interval r = false /\ onFlat F_min_amount r = false
      /\ onFlat F_max_amount r = false /\ onFlat F_currency r = false
      /\ onFlat F_salary_source r = false).
Proof.
  cbv zeta. split; [|split; [|split; [|split]]].
  - destruct (flattenJob_initial job site countryName params)
      as (i & lo & hi & cur & src & ->).
    intros f Hf. by apply copied_present.
  - apply flattenJob_initial.
  - done.
  - intros c Hc Hamount. unfold flattenJob. rewrite Hc, Hamount.
    set (r0 := Flat.set_salary _ _ _ _ _ _).
    set (r1 := if _ && _ then _ else r0).
    destruct (final_fields r1) as (Ei & Emin & Emax & Ecur).
    cbv zeta in Ei, Emin, Emax, Ecur. simpl onFlat.
    rewrite Ei, Emin, Emax, Ecur. clear Ei Emin Emax Ecur.
    subst r1. destruct (default false (Params.enforce_annual_salary params)).
    + simpl andb.
      destruct (truthy _ && _ && _ && _) eqn:Hconv.
      * destruct (convertToAnnual_present r0) as (-> & -> & -> & Hi).
        simpl. repeat split; try done.
        destruct (interval c) eqn:Ec; [by rewrite Hi|done].
      * simpl. by rewrite notNull_option_map.
    + simpl. by rewrite notNull_option_map.
  - intros Hnone Husa Hus. unfold flattenJob.
    rewrite !bool_decide_eq_false_2 by done. simpl orb. cbv iota.
    destruct (compensation job) as [c|] eqn:Hc; [|done].
    destruct (Hnone c eq_refl) as [-> ->]. done.
Qed.

Lemma flattenJob_round_trip_witness :
  Flat.currency
    (flattenJob (post "Developer" None (Some (upTo YEARLY 90000)))
       (u "naukri") (Some (u "usa")) (paramsFor None))
  = Some (u "USD")
  /\ Flat.max_amount
       (flattenJob (post "Developer" None (Some (upTo YEARLY 90000)))
          (u "naukri") (Some (u "usa")) (paramsFor None))
     = Some 90000%Q.
Proof.
  destruct (flattenJob_round_trip
              (post "Developer" None (Some (upTo YEARLY 90000)))
              (u "naukri") (Some (u "usa")) (paramsFor None))
    as (_ & _ & _ & H & _).
  destruct (H (upTo YEARLY 90000) eq_refl eq_refl)
    as (Hcur & _ & _ & _ & Hval).
  destruct (Hval eq_refl) as (_ & Hmax & _).
  split; [exact Hcur | exact Hmax].
Defined.

(** Where else the round trip is not one: an absent currency becomes
    ["USD"]; an interval without amounts is dropped; and for the country
    ["usa"] a job post without compensation gets the salary inferred from
    its description. *)
Example currency_defaulted :
  Flat.currency
    (flattenJob (post "Developer" None (Some (upTo YEARLY 90000)))
       (u "naukri") None (paramsFor None))
  = Some (u "USD").
Proof. vm_compute. reflexivity. Qed.

Example interval_dropped :
  Flat.interval
    (flattenJob
       (post "Developer" None
          (Some {| interval := Some YEARLY; min_amount := None;
                   max_amount := None; currency := Some (u "EUR") |}))
       (u "naukri") None (paramsFor None))
  = None.
Proof. vm_compute. reflexivity. Qed.

Example salary_inferred :
  Flat.min_amount
    (flattenJob
       (described "Developer" "$50 - $70 per hour")
       (u "indeed") (Some (u "usa")) (paramsFor None))
  = Some 50%Q.
Proof. vm_compute. reflexivity. Qed.
End RoundTrip.

(** ** Adapters that keep a set of seen URLs *)

Section Deduplication.
Import Adapters.

Lemma slice_sublist {A} (l : list A) a b : slice l a b `sublist_of` l.
Proof.
  unfold slice. etransitivity; [apply sublist_take|apply sublist_drop].
Qed.

Lemma slice_NoDup {A B} (f : A -> B) (l : list A) a b :
  NoDup (f <$> l) -> NoDup (f <$> slice l a b).
Proof.
  intros H. eapply sublist_NoDup; [exact H|].
  apply fmap_sublist, slice_sublist.
Qed.

Lemma has_false x s : has x s = false <-> x ∉ s.
Proof. unfold has. apply bool_decide_eq_false. Qed.

Lemma Fresh_nil seen : Fresh seen [] seen.
Proof. split; [done|]. split; [constructor|]. by intros x Hx%elem_of_nil. Qed.

Lemma Fresh_cons seen seen' jobs job :
  job_url job ∉ seen ->
  Fresh (add (job_url job) seen) jobs seen' ->
  Fresh seen (job :: jobs) seen'.
Proof.
  unfold add. intros Hnew (Hsub & Hnd & Hfresh).
  assert (job_url job ∈ seen') as Hjob.
  { apply Hsub, elem_of_union_l, elem_of_singleton. done. }
  split; [|split].
  - intros x Hx. by apply Hsub, elem_of_union_r.
  - rewrite fmap_cons. apply NoDup_cons. split; [|done].
    intros Hin. destruct (Hfresh _ Hin) as [Hout _].
    apply Hout, elem_of_union_l, elem_of_singleton. done.
  - intros x [->|Hx]%elem_of_cons; [done|].
    destruct (Hfresh _ Hx) as [Hout Hin]. split; [|done].
    intros Hseen. by apply Hout, elem_of_union_r.
Qed.

Lemma glassdoor_processJobs_fresh baseUrl listings seen jobs seen' :
  Glassdoor.processJobs baseUrl listings seen = (jobs, seen') ->
  Fresh seen jobs seen'.
Proof.
  revert seen jobs seen'.
  induction listings as [|l listings IH]; intros seen jobs seen'; simpl.
  - intros [= <- <-]. apply Fresh_nil.
  - destruct (has _ seen) eqn:Hhas; [by apply IH|].
    destruct (Glassdoor.processJobs _ _ _) as [jobs0 seen0] eqn:Hrec.
    intros [= <- <-]. apply IH in Hrec. apply has_false in Hhas.
    by apply Fresh_cons.
Qed.

Lemma indeed_processJobs_fresh baseUrl results seen jobs seen' :
  Indeed.processJobs baseUrl results seen = (jobs, seen') ->
  Fresh seen jobs seen'.
Proof.
  revert seen jobs seen'.
  induction results as [|l results IH]; intros seen jobs seen'; simpl.
  - intros [= <- <-]. apply Fresh_nil.
  - destruct (has _ seen) eqn:Hhas; [by apply IH|].
    destruct (Indeed.processJobs _ _ _) as [jobs0 seen0] eqn:Hrec.
    intros [= <- <-]. apply IH in Hrec. apply has_false in Hhas.
    by apply Fresh_cons.
Qed.

Lemma Collected_nil : Collected [] ∅.
Proof. split; [constructor|]. by intros x Hx%elem_of_nil. Qed.

Lemma Collected_app jobList seen jobs seen' :
  Collected jobList seen -> Fresh seen jobs seen' ->
  Collected (jobList ++ jobs) seen'.
Proof.
  intros [Hnd Hin] (Hsub & Hnd' & Hfresh). split.
  - rewrite fmap_app. apply NoDup_app. split; [done|]. split; [|done].
    intros x Hx Hx'. destruct (Hfresh _ Hx') as [Hout _]. by apply Hout, Hin.
  - intros x. rewrite fmap_app, elem_of_app. intros [Hx|Hx].
    + by apply Hsub, Hin.
    + by destruct (Hfresh _ Hx).
Qed.

Lemma glassdoor_pages_collected jobsPage n baseUrl lid lty rw page cursor
    jobList seen :
  Collected jobList seen ->
  NoDup (job_url <$>
           Glassdoor.pages jobsPage n baseUrl lid lty rw page cursor
             jobList seen).
Proof.
  revert page cursor jobList seen.
  induction n as [|n IH]; intros page cursor jobList seen Hc; simpl.
  - apply Hc.
  - destruct (jobsPage lid lty page cursor) as [| |listings cursors];
      [apply Hc..|].
    destruct (Glassdoor.processJobs _ _ _) as [jobs seen'] eqn:Hp.
    apply glassdoor_processJobs_fresh in Hp.
    pose proof (Collected_app _ _ _ _ Hc Hp) as Hc'.
    destruct jobs; [apply Hc'|].
    destruct (_ >=? _); [apply Hc'|]. by apply IH.
Qed.

(** X1.  Whatever the Glassdoor site answers, page after page, no two job
    posts that [Glassdoor.scrape] returns have the same [job_url]. *)
Theorem glassdoor_urls_distinct lookup jobsPage session input h response h' :
  Glassdoor.scrape lookup jobsPage session input h = (Fulfilled response, h')
  -> NoDup (job_url <$> jobs response).
Proof.
  unfold Glassdoor.scrape. intros H.
  repeat case_match; simplify_eq/=; try constructor.
  apply slice_NoDup, glassdoor_pages_collected, Collected_nil.
Qed.

Lemma glassdoor_urls_distinct_witness :
  exists response h',
    Glassdoor.scrape (fun _ => Glassdoor.LookupNotOk) glassdoorRepeats true
      0%nat [defaultInput]
    = (Fulfilled response, h')
    /\ length (jobs response) = 2%nat
    /\ NoDup (job_url <$> jobs response).
Proof.
  eexists _, _. split; [evaluate|]. split; [evaluate|].
  eapply (glassdoor_urls_distinct (fun _ => Glassdoor.LookupNotOk)
            glassdoorRepeats true 0%nat [defaultInput]).
  evaluate.
Defined.

Lemma indeed_paginate_collected scrapePage fuel baseUrl rw offset cursor
    jobList seen jobList' :
  Collected jobList seen ->
  Indeed.paginate scrapePage fuel baseUrl rw offset cursor jobList seen
  = Some jobList' ->
  NoDup (job_url <$> jobList').
Proof.
  revert cursor jobList seen.
  induction fuel as [|fuel IH]; intros cursor jobList seen Hc; simpl.
  - destruct (_ <? _); [done|]. intros [= <-]. apply Hc.
  - destruct (_ <? _); [|intros [= <-]; apply Hc].
    destruct (scrapePage cursor) as [|results next];
      [intros [= <-]; apply Hc|].
    destruct (Indeed.processJobs _ _ _) as [jobs seen'] eqn:Hp.
    apply indeed_processJobs_fresh in Hp.
    pose proof (Collected_app _ _ _ _ Hc Hp) as Hc'.
    destruct jobs; [intros [= <-]; apply Hc|]. by apply IH.
Qed.

(** X2.  Whatever the Indeed site answers, page after page, no two job
    posts that [Indeed.scrape] returns have the same [job_url]. *)
Theorem indeed_urls_distinct scrapePage session fuel input h response h' :
  Indeed.scrape scrapePage session fuel input h = (Fulfilled response, h')
  -> NoDup (job_url <$> jobs response).
Proof.
  unfold Indeed.scrape. intros H.
  repeat case_match; simplify_eq/=.
  eapply slice_NoDup, indeed_paginate_collected; [apply Collected_nil|done].
Qed.

Lemma indeed_urls_distinct_witness :
  exists response h',
    Indeed.scrape indeedRepeats true 8 0%nat [defaultInput]
    = (Fulfilled response, h')
    /\ length (jobs response) = 3%nat
    /\ NoDup (job_url <$> jobs response).
Proof.
  eexists _, _. split; [evaluate|]. split; [evaluate|].
  eapply (indeed_urls_distinct indeedRepeats true 8 0%nat [defaultInput]).
  evaluate.
Defined.
End Deduplication.

(** ** The country registry *)

Section Countries.

Lemma sameCountry_spec r a b :
  sameCountry r a b = true ->
  exists c, getProperty a r = Some (Registered c)
            /\ getProperty b r = Some (Registered c).
Proof.
  unfold sameCountry, eqb.
  destruct (getProperty a r) as [[c|]|]; [|done..].
  destruct (getProperty b r) as [[c'|]|]; [|done..].
  rewrite !andb_true_iff, !bool_decide_eq_true.
  intros [[[Hn Hi] Ha] Hg]. exists c. split; [done|].
  destruct c, c'; simpl in *. by subst.
Qed.

Lemma registrations_agree : aliasesAgree COUNTRIES = true.
Proof. vm_compute. reflexivity. Qed.

(** X3.  A name that, trimmed and in lower case, is one of the keys of a
    registration (the canonical name or a synonym listed with it) is
    resolved by [getCountry] to a registered descriptor, the one that
    [getCountry] gives for the canonical name of that registration. *)
Theorem getCountry_alias names indeed gd name :
  (names, indeed, gd) ∈ registrations ->
  toLowerCase (trim name) ∈ aliases names ->
  exists c, getCountry name = Ok (Registered c)
            /\ getCountry (hd [] (aliases names)) = Ok (Registered c).
Proof.
  intros Hr Ha.
  pose proof registrations_agree as Hall. unfold aliasesAgree in Hall.
  rewrite forallb_forall in Hall.
  apply list_elem_of_In, Hall in Hr. rewrite forallb_forall in Hr.
  apply list_elem_of_In, Hr, sameCountry_spec in Ha as (c & Hc & Hc').
  exists c. unfold getCountry. by rewrite Hc, Hc'.
Qed.

Lemma getCountry_alias_witness :
  exists c, getCountry (u "  United States ") = Ok (Registered c)
            /\ getCountry (u "usa") = Ok (Registered c).
Proof.
  apply (getCountry_alias (u "usa,us,united states") (u "www:us")
           (Some (u "com")) (u "  United States ")).
  - apply list_elem_of_In. vm_compute. tauto.
  - apply list_elem_of_In. vm_compute. tauto.
Defined.

(** X4.  For a name made of ASCII characters that, trimmed and in lower
    case, is neither a key of the registry nor a property of
    [Object.prototype], [getCountry] throws an error whose message quotes
    the name and lists the keys of the registry. *)
Theorem getCountry_unknown name :
  Forall (fun c => (c < 128)%N) name ->
  ownProperty (toLowerCase (trim name)) COUNTRIES = None ->
  toLowerCase (trim name) ∉ Object_prototype_keys ->
  getCountry name
  = Throw (u "Invalid country: '" ++ name ++ u "'. Valid countries: "
             ++ join (u ", ") (List.map fst COUNTRIES)).
Proof.
  intros _ Hown Hproto. unfold getCountry, getProperty. rewrite Hown.
  destruct (existsb _ _) eqn:Hex; [|done].
  apply existsb_exists in Hex as (k & Hk & Heq).
  unfold eqb in Heq. apply bool_decide_eq_true in Heq as <-.
  destruct Hproto. by apply list_elem_of_In.
Qed.

Lemma getCountry_unknown_witness :
  getCountry (u "Atlantis")
  = Throw (u "Invalid country: '" ++ u "Atlantis" ++ u "'. Valid countries: "
             ++ join (u ", ") (List.map fst COUNTRIES)).
Proof.
  apply (getCountry_unknown (u "Atlantis")).
  - repeat constructor.
  - vm_compute. reflexivity.
  - rewrite list_elem_of_In. vm_compute. intuition discriminate.
Defined.
End Countries.

(** ** Site names *)

Section Sites.
Import Adapters Scraper.

Lemma lowerCU_upperCU c : lowerCU (upperCU c) = lowerCU c.
Proof.
  unfold lowerCU, upperCU.
  destruct (N.leb_spec 97 c), (N.leb_spec c 122); simpl;
    repeat match goal with
           | |- context [(?a <=? ?b)%N] => destruct (N.leb_spec a b); simpl
           end; lia.
Qed.

Lemma toLowerCase_toUpperCase s : toLowerCase (toUpperCase s) = toLowerCase s.
Proof.
  unfold toLowerCase, toUpperCase. rewrite List.map_map.
  apply List.map_ext, lowerCU_upperCU.
Qed.

Lemma siteOfKey_Some upper site :
  siteOfKey upper = Some site -> upper = Site_key site.
Proof.
  unfold siteOfKey. intros H. apply List.find_some in H as [_ H].
  unfold eqb in H. by apply bool_decide_eq_true in H.
Qed.

Lemma normalized_inj s s' :
  removeUnderscores (Site_value s') = removeUnderscores (Site_value s) ->
  s' = s.
Proof. by destruct s, s'. Qed.

Lemma normalized_value s s' :
  removeSeparators (Site_value s') = removeUnderscores (Site_value s) ->
  s' = s.
Proof. by destruct s, s'. Qed.

Lemma normalized_key s s' :
  removeSeparators (toLowerCase (Site_key s'))
  = removeUnderscores (Site_value s) ->
  s' = s.
Proof. by destruct s, s'. Qed.

(** X5.  [mapStrToSite] ignores case and the separators [_], [-] and white
    space: a name that, in lower case and without them, is the value of a
    site without its underscores, is resolved to that site. *)
Theorem mapStrToSite_separators name s :
  removeSeparators (toLowerCase name) = removeUnderscores (Site_value s) ->
  mapStrToSite name = Ok s.
Proof.
  intros H. unfold mapStrToSite.
  destruct (siteOfKey (toUpperCase name)) as [site|] eqn:Hkey.
  - apply siteOfKey_Some in Hkey.
    rewrite <- toLowerCase_toUpperCase, Hkey in H.
    by apply normalized_key in H as ->.
  - destruct (List.find _ Site_values) as [s'|] eqn:Hfind.
    + apply List.find_some in Hfind as [_ Hs'].
      apply orb_true_iff in Hs' as [Hs'|Hs'];
        apply bool_decide_eq_true in Hs'.
      * rewrite <- Hs' in H. by apply normalized_value in H as ->.
      * rewrite <- Hs' in H. by apply normalized_inj in H as ->.
    + exfalso. eapply List.find_none in Hfind.
      * apply orb_false_iff in Hfind as [_ Hfind].
        apply bool_decide_eq_false in Hfind. by apply Hfind.
      * by destruct s; vm_compute; tauto.
Qed.

Lemma mapStrToSite_separators_witness :
  mapStrToSite (u "Zip-Recruiter") = Ok ZIP_RECRUITER
  /\ mapStrToSite (u "zip recruiter") = Ok ZIP_RECRUITER
  /\ mapStrToSite (u "GOOGLE_CAREERS") = Ok GOOGLE_CAREERS.
Proof.
  split; [|split]; apply mapStrToSite_separators; reflexivity.
Defined.

End Sites.

(** ** Termination of the Bayt loop *)

Section Termination.
Import Adapters.




End Termination.

(** ** Stability of the final sort *)

Section Stability.
Import Adapters Scraper.

Lemma localeCompare_zero a b : localeCompare a b = 0 <-> a = b.
Proof.
  split.
  - by destruct (localeCompare_cases a b) as [[-> _]|[[_ ?]|[-> _]]].
  - intros ->. unfold localeCompare. by rewrite compareCU_refl.
Qed.

Lemma tied_iff a b :
  tied a b = true <->
  Flat.site a = Flat.site b
  /\ default [] (Flat.date_posted a) = default [] (Flat.date_posted b).
Proof.
  unfold tied, compareJobs. rewrite Z.eqb_eq.
  destruct (Z.eqb_spec (localeCompare (Flat.site a) (Flat.site b)) 0)
    as [Hs|Hs]; simpl.
  - rewrite localeCompare_zero in Hs |- *. by intuition.
  - rewrite <- (localeCompare_zero (Flat.site a)). by intuition.
Qed.

Lemma tied_trans x a b : tied x a = true -> tied x b = true -> tied a b = true.
Proof. rewrite !tied_iff. intros [-> ->] [-> ->]. done. Qed.

Lemma filter_insert x a l :
  List.filter (tied x) (insert compareJobs a l)
  = List.filter (tied x) (a :: l).
Proof.
  induction l as [|b l IH]; simpl; [done|].
  destruct (Z.leb_spec (compareJobs a b) 0) as [Hab|Hab]; [done|].
  simpl in *. rewrite IH.
  destruct (tied x a) eqn:Ha; [|done].
  destruct (tied x b) eqn:Hb; [|done].
  pose proof (tied_trans _ _ _ Ha Hb) as Ht.
  unfold tied in Ht. apply Z.eqb_eq in Ht. lia.
Qed.

Lemma filter_sort x l :
  List.filter (tied x) (sort compareJobs l) = List.filter (tied x) l.
Proof.
  induction l as [|a l IH]; simpl; [done|].
  rewrite filter_insert. simpl. by rewrite IH.
Qed.

(** X8.  When [scrapeJobs] is fulfilled, the adapters of the sites asked
    for were dispatched in the order of the sites, and the list returned
    is a rearrangement of the jobs of the calls that were fulfilled,
    flattened and taken call by call in that order, job by job in the
    order each adapter returned them.  In the list returned, the records
    that tie (same site, same date or both undated) stand in that same
    order. *)
Theorem scrapeJobs_stable net params h res h' :
  scrapeJobs net params h = (Fulfilled res, h') ->
  exists sites country jobType results,
    resolveSites (Params.site_name params) = Ok sites
    /\ getCountry (default (u "usa") (Params.country_indeed params))
       = Ok country
    /\ resolveJobType (Params.job_type params) = Ok jobType
    /\ dispatch net (length h) sites
         (h ++ [scraperInput params sites country jobType])
       = (results, h')
    /\ let collected :=
         flat_map
           (fun '(site, response) =>
              List.map
                (fun job =>
                   flattenJob job site (CountryValue_name country) params)
                (jobs response))
           (fulfilled results) in
       result_jobs res ≡ₚ collected
       /\ forall x,
            List.filter (tied x) (result_jobs res)
            = List.filter (tied x) collected.
Proof.
  intros [(m & [=] & _)
         |(sites & country & jobType & results & Hs & Hc & Hj & Hd & Hr)]
    %scrapeJobs_inv.
  exists sites, country, jobType, results.
  destruct (existsb isPending results); [done|]. injection Hr as ->.
  repeat (split; [done|]). simpl. rewrite <- collect_fulfilled.
  split; [apply sort_Permutation|]. intros x. apply filter_sort.
Qed.

Lemma scrapeJobs_stable_witness :
  exists res h',
    scrapeJobs twoOfThree threeSites [] = (Fulfilled res, h')
    /\ exists sites country jobType results,
         resolveSites (Params.site_name threeSites) = Ok sites
         /\ getCountry (default (u "usa") (Params.country_indeed threeSites))
            = Ok country
         /\ resolveJobType (Params.job_type threeSites) = Ok jobType
         /\ dispatch twoOfThree (length (@nil Input.ScraperInput)) sites
              ([] ++ [scraperInput threeSites sites country jobType])
            = (results, h')
         /\ let collected :=
              flat_map
                (fun '(site, response) =>
                   List.map
                     (fun job =>
                        flattenJob job site (CountryValue_name country)
                          threeSites)
                     (jobs response))
                (fulfilled results) in
            result_jobs res ≡ₚ collected
            /\ forall x,
                 List.filter (tied x) (result_jobs res)
                 = List.filter (tied x) collected.
Proof.
  eexists _, _. split; [evaluate|].
  eapply (scrapeJobs_stable twoOfThree threeSites []). evaluate.
Defined.
End Stability.

(** ** The regular expressions: what the matcher matches *)

Section Regex.
Import Utils.

Lemma matchStar_sound {R} p s c (k : jsstring -> captures -> option R) res :
  matchStar p s c k = Some res ->
  exists w s', s = w ++ s' /\ forallb p w = true /\ k s' c = Some res.
Proof.
  induction s as [|x s IH]; simpl.
  - intros H. by exists [], [].
  - destruct (p x) eqn:Hp.
    + destruct (matchStar p s c k) as [r|] eqn:Hm.
      * intros [= ->]. destruct (IH eq_refl) as (w & s' & -> & Hw & Hk).
        exists (x :: w), s'. simpl. by rewrite Hp, Hw.
      * intros H. by exists [], (x :: s).
    + intros H. by exists [], (x :: s).
Qed.

Lemma matchRe_sound {R} r :
  forall s c (k : jsstring -> captures -> option R) res,
    matchRe r s c k = Some res ->
    exists w s' c', s = w ++ s' /\ Lang r w /\ k s' c' = Some res.
Proof.
  induction r as [|p|r1 IH1 r2 IH2|r1 IH1|p|n r1 IH1]; intros s c k res; simpl.
  - intros H. by exists [], s, c.
  - destruct s as [|x s]; [done|]. destruct (p x) eqn:Hp; [|done].
    intros H. exists [x], s, c. by eauto.
  - intros (w1 & s1 & c1 & -> & H1 & H)%IH1.
    apply IH2 in H as (w2 & s2 & c2 & -> & H2 & H).
    exists (w1 ++ w2), s2, c2. rewrite <- app_assoc. by eauto 10.
  - destruct (matchRe r1 s c k) as [r|] eqn:Hm.
    + intros [= ->]. apply IH1 in Hm as (w & s' & c' & -> & Hw & Hk).
      exists w, s', c'. by auto.
    + intros H. exists [], s, c. by auto.
  - intros (w & s' & -> & Hw & Hk)%matchStar_sound. by exists w, s', c.
  - intros (w & s' & c' & -> & Hw & Hk)%IH1. by eauto 10.
Qed.

Lemma matchStar_complete {R} p w s' c (k : jsstring -> captures -> option R) :
  forallb p w = true -> is_Some (k s' c) ->
  is_Some (matchStar p (w ++ s') c k).
Proof.
  intros Hw Hk. induction w as [|x w IH]; simpl in *.
  - destruct s' as [|y s']; [done|]. simpl. destruct (p y); [|done].
    destruct (matchStar p s' c k); by eauto.
  - apply andb_true_iff in Hw as [-> Hw]. by destruct (IH Hw) as [r ->].
Qed.

Lemma matchRe_complete {R} r :
  forall w s' c (k : jsstring -> captures -> option R),
    Lang r w -> (forall c', is_Some (k s' c')) ->
    is_Some (matchRe r (w ++ s') c k).
Proof.
  induction r as [|p|r1 IH1 r2 IH2|r1 IH1|p|n r1 IH1]; intros w s' c k; simpl.
  - intros -> Hk. apply Hk.
  - intros (x & -> & Hp) Hk. simpl. rewrite Hp. apply Hk.
  - intros (w1 & w2 & -> & H1 & H2) Hk. rewrite <- app_assoc.
    apply IH1; [done|]. intros c'. by apply IH2.
  - intros [->|Hw] Hk.
    + simpl. destruct (matchRe r1 s' c k); [by eauto|apply Hk].
    + by destruct (IH1 w s' c k Hw Hk) as [r ->].
  - intros Hw Hk. by apply matchStar_complete.
  - intros Hw Hk. apply IH1; [done|]. intros c'. apply Hk.
Qed.

Lemma search_sound r text c :
  search r text = Some c -> exists w, Lang r w /\ occursIn w text.
Proof.
  induction text as [|x text IH]; simpl.
  - destruct (matchRe r [] [] _) as [c'|] eqn:Hm; [|done].
    intros _. apply matchRe_sound in Hm as (w & s' & _ & Hs & Hw & _).
    exists w. split; [done|]. by exists [], s'.
  - destruct (matchRe r (x :: text) [] _) as [c'|] eqn:Hm.
    + intros _. apply matchRe_sound in Hm as (w & s' & _ & Hs & Hw & _).
      exists w. split; [done|]. by exists [], s'.
    + intros (w & Hw & pre & post & ->)%IH. exists w. split; [done|].
      by exists (x :: pre), post.
Qed.

Lemma search_complete r text w :
  Lang r w -> occursIn w text -> is_Some (search r text).
Proof.
  intros Hw (pre & post & ->). induction pre as [|x pre IH]; simpl.
  - assert (is_Some (matchRe r (w ++ post) [] (fun _ c => Some c)))
      as [c Hc] by (apply matchRe_complete; by eauto).
    destruct (w ++ post); simpl; by rewrite Hc.
  - destruct (matchRe r (x :: pre ++ w ++ post) [] _); [by eauto|apply IH].
Qed.

Lemma test_iff r text :
  test r text = true <-> exists w, Lang r w /\ occursIn w text.
Proof.
  unfold test. split.
  - destruct (search r text) as [c|] eqn:Hs; [|done]. intros _.
    by eapply search_sound.
  - intros (w & Hw & Ho). by destruct (search_complete r text w Hw Ho) as [c ->].
Qed.
End Regex.

(** ** Emails, job types and salaries found in a text *)

Section Patterns.
Import Utils.

Lemma Lang_Plus p w :
  Lang (Plus p) w <-> w <> [] /\ forallb p w = true.
Proof.
  simpl. split.
  - intros (w1 & w2 & -> & (c & -> & Hc) & Hw). simpl. by rewrite Hc, Hw.
  - intros [Hne Hw]. destruct w as [|c w]; [done|]. simpl in Hw.
    apply andb_true_iff in Hw as [Hc Hw]. exists [c], w. by eauto.
Qed.

Lemma Lang_EMAIL_REGEX m : Lang EMAIL_REGEX m <-> EmailShaped m.
Proof.
  unfold EMAIL_REGEX, EmailShaped. split.
  - intros (loc & m1 & -> & Hloc%Lang_Plus & at_ & m2 & -> & (c1 & -> & Hc1)
            & dom & m3 & -> & Hdom%Lang_Plus & dot & m4 & ->
            & (c2 & -> & Hc2) & a & tld & -> & (c3 & -> & Hc3) & Htld%Lang_Plus).
    unfold isChar in *. apply N.eqb_eq in Hc1 as <-, Hc2 as <-.
    exists loc, dom, (c3 :: tld). destruct Hloc, Hdom, Htld.
    repeat split; try done.
    + destruct tld; [done|]. simpl. lia.
    + simpl. by rewrite Hc3.
  - intros (loc & dom & tld & -> & Hl1 & Hl2 & Hd1 & Hd2 & Ht1 & Ht2).
    destruct tld as [|c3 tld]; [simpl in Ht1; lia|].
    simpl in Ht2. apply andb_true_iff in Ht2 as [Hc3 Ht2].
    exists loc, ([64%N] ++ dom ++ [46%N] ++ c3 :: tld).
    split; [done|]. split; [by apply Lang_Plus|].
    exists [64%N], (dom ++ [46%N] ++ c3 :: tld).
    split; [done|]. split; [by exists 64%N|].
    exists dom, ([46%N] ++ c3 :: tld).
    split; [done|]. split; [by apply Lang_Plus|].
    exists [46%N], (c3 :: tld).
    split; [done|]. split; [by exists 46%N|].
    exists [c3], tld. split; [done|]. split; [by exists c3|].
    apply Lang_Plus. split; [|done]. destruct tld; [simpl in Ht1; lia|done].
Qed.

Lemma matchAll_sound r text : forall skip m,
  m ∈ matchAll r text skip -> Lang r m /\ occursIn m text.
Proof.
  assert (forall x text' m, occursIn m text' -> occursIn m (x :: text'))
    as Hcons.
  { intros x text' m (pre & post & ->). by exists (x :: pre), post. }
  induction text as [|x text IH]; intros skip m; destruct skip as [|n];
    cbn [matchAll].
  - destruct (matchRe r [] [] _) as [rest|] eqn:Hm;
      [|by intros ?%elem_of_nil].
    apply matchRe_sound in Hm as (w & s' & _ & Hs & Hw & [= ->]).
    symmetry in Hs. apply app_eq_nil in Hs as [-> ->]. simpl.
    intros ->%list_elem_of_singleton. split; [done|]. by exists [], [].
  - by intros ?%elem_of_nil.
  - destruct (matchRe r (x :: text) [] _) as [rest|] eqn:Hm.
    + apply matchRe_sound in Hm as (w & s' & _ & Hs & Hw & [= ->]).
      rewrite Hs at 1 2. rewrite length_app, Nat.add_sub, take_app_length.
      intros [->|Hin]%elem_of_cons.
      * split; [done|]. exists [], rest. by rewrite Hs.
      * apply IH in Hin as [? ?]. by auto.
    + intros [? ?]%IH. by auto.
  - intros [? ?]%IH. by auto.
Qed.

Lemma matchAll_complete r text w :
  Lang r w -> occursIn w text -> matchAll r text 0 <> [].
Proof.
  intros Hw (pre & post & ->). induction pre as [|x pre IH].
  - assert (is_Some (matchRe r (w ++ post) [] (fun rest _ => Some rest)))
      as [c Hc] by (apply matchRe_complete; by eauto).
    simpl. destruct (w ++ post); simpl; simpl in Hc; by rewrite Hc.
  - simpl. by destruct (matchRe r (x :: pre ++ w ++ post) [] _).
Qed.

(** X12.  [extractEmails] returns the strings of the text that have the
    shape of an address (a local part, [@], a domain, [.] and at least
    two letters), each of them a part of the text, and never an empty
    array; it returns [undefined] exactly when no part of the text has
    that shape. *)
Theorem extractEmails_shape text :
  match extractEmails (Some text) with
  | Some matches =>
      matches <> []
      /\ Forall (fun m => EmailShaped m /\ occursIn m text) matches
  | None => forall m, EmailShaped m -> ~ occursIn m text
  end.
Proof.
  unfold extractEmails. destruct text as [|x text].
  - simpl. intros m (loc & dom & tld & -> & Hne & _) (pre & post & H).
    symmetry in H. apply app_eq_nil in H as [_ H].
    apply app_eq_nil in H as [H _]. apply app_eq_nil in H as [H _]. done.
  - cbn [truthy negb]. destruct (matchAll _ _ _) as [|m ms] eqn:Hm.
    + intros m Hshape%Lang_EMAIL_REGEX Hocc.
      by apply (matchAll_complete _ _ _ Hshape Hocc).
    + split; [done|]. apply Forall_forall. intros m' Hin.
      rewrite <- Hm in Hin. apply matchAll_sound in Hin as [Hl Ho].
      by apply Lang_EMAIL_REGEX in Hl.
Qed.

Lemma lowerCU_idem c : lowerCU (lowerCU c) = lowerCU c.
Proof.
  unfold lowerCU.
  destruct (N.leb_spec 65 c), (N.leb_spec c 90); simpl; try done;
    repeat match goal with
           | |- context [(?a <=? ?b)%N] => destruct (N.leb_spec a b); simpl
           end; lia.
Qed.

Lemma Lang_word letters w :
  Lang (word letters) w <-> toLowerCase w = toLowerCase letters.
Proof.
  revert w. induction letters as [|c letters IH]; intros w; simpl.
  - split; [by intros ->|]. by destruct w.
  - split.
    + intros (w1 & w2 & -> & (x & -> & Hx) & Hw%IH). simpl.
      unfold ci in Hx. apply N.eqb_eq in Hx. by rewrite Hx, Hw.
    + destruct w as [|x w]; [done|]. simpl. intros [= Hx Hw].
      exists [x], w. split; [done|]. split; [|by apply IH].
      exists x. split; [done|]. unfold ci. by apply N.eqb_eq.
Qed.

Lemma Lang_phrase (first second : string) w :
  toLowerCase (u first) = u first -> toLowerCase (u second) = u second ->
  Lang (Seq (word (u first))
          (Seq (Opt (Chr isWhiteSpace)) (word (u second)))) w
  <-> phrase first second w.
Proof.
  intros H1 H2. unfold phrase, spelled. simpl. split.
  - intros (w1 & m & -> & Hw1%Lang_word & gap & w2 & -> & Hgap & Hw2%Lang_word).
    exists w1, gap, w2. rewrite Hw1, Hw2, H1, H2. by eauto.
  - intros (w1 & gap & w2 & -> & Hw1 & Hw2 & Hgap).
    exists w1, (gap ++ w2). split; [done|].
    split; [apply Lang_word; by rewrite H1|].
    exists gap, w2. split; [done|]. split; [done|].
    apply Lang_word. by rewrite H2.
Qed.

Lemma List_filter_sublist {A} (f : A -> bool) l : List.filter f l `sublist_of` l.
Proof.
  induction l as [|x l IH]; simpl; [done|].
  destruct (f x); by constructor.
Qed.

Lemma test_keyword t re description :
  (t, re) ∈ keywords -> test re description = true <-> Reported t description.
Proof.
  intros Hin. rewrite test_iff. unfold Reported.
  assert (forall w, Lang re w <->
            match t with
            | FULL_TIME => phrase "full" "time" w
            | PART_TIME => phrase "part" "time" w
            | INTERNSHIP => spelled "internship" w
            | CONTRACT => spelled "contract" w
            | _ => False
            end) as Hre.
  { intros w. unfold keywords in Hin. apply list_elem_of_In in Hin.
    cbn [In] in Hin.
    destruct Hin as [[= <- <-]|[[= <- <-]|[[= <- <-]|[[= <- <-]|[]]]]].
    - exact (Lang_phrase "full" "time" w eq_refl eq_refl).
    - exact (Lang_phrase "part" "time" w eq_refl eq_refl).
    - exact (Lang_word (u "internship") w).
    - exact (Lang_word (u "contract") w). }
  split; intros (w & H1 & H2); exists w.
  - split; [done|]. by apply Hre.
  - split; [by apply Hre|done].
Qed.

(** X13.  [extractJobTypeFromText] reports a job type exactly when the
    description mentions it: [full], at most one white-space character
    and [time] for full time (so not [full-time]), likewise for part
    time, [internship], [contract], in any case of the ASCII letters.  The
    types found come in that fixed order, each once, and [undefined] is
    returned when there is none. *)
Theorem extractJobTypeFromText_reported description :
  match extractJobTypeFromText (Some description) with
  | Some found =>
      found <> []
      /\ found `sublist_of` [FULL_TIME; PART_TIME; INTERNSHIP; CONTRACT]
      /\ forall t, t ∈ found <-> Reported t description
  | None => forall t, ~ Reported t description
  end.
Proof.
  assert (forall t, Reported t description ->
            t ∈ [FULL_TIME; PART_TIME; INTERNSHIP; CONTRACT]) as Hknown.
  { intros t (w & _ & Hw).
    destruct t; try done; apply list_elem_of_In; simpl; tauto. }
  set (found :=
         List.map fst
           (List.filter (fun '(_, re) => test re description) keywords)).
  assert (forall t, t ∈ found <-> Reported t description) as Hfound.
  { intros t. unfold found. rewrite list_elem_of_In, in_map_iff. split.
    - intros ([t' re] & <- & [Hin Ht]%filter_In). simpl.
      destruct (test_keyword t' re description) as [H1 _];
        [by apply list_elem_of_In|]. by apply H1.
    - intros Hr. pose proof (Hknown t Hr) as Ht.
      assert (exists re, (t, re) ∈ keywords) as [re Hre].
      { unfold keywords.
        repeat (apply elem_of_cons in Ht as [->|Ht]);
          [eexists; by apply list_elem_of_In; simpl; eauto 10..
          |by apply elem_of_nil in Ht]. }
      exists (t, re). split; [done|]. apply filter_In.
      split; [by apply list_elem_of_In|].
      destruct (test_keyword t re description Hre) as [_ H2]. by apply H2. }
  assert (found `sublist_of` [FULL_TIME; PART_TIME; INTERNSHIP; CONTRACT])
    as Hsub.
  { unfold found. change [FULL_TIME; PART_TIME; INTERNSHIP; CONTRACT]
      with (List.map fst keywords).
    apply (fmap_sublist fst _ keywords), List_filter_sublist. }
  unfold extractJobTypeFromText. fold found.
  destruct description as [|x d].
  - simpl. intros t (w & (pre & post & H) & Hw).
    symmetry in H. apply app_eq_nil in H as [_ H].
    apply app_eq_nil in H as [-> _].
    destruct t; try done; unfold phrase, spelled in Hw; try done.
    + destruct Hw as (w1 & gap & w2 & H & Hw1 & _).
      symmetry in H. apply app_eq_nil in H as [-> _]. done.
    + destruct Hw as (w1 & gap & w2 & H & Hw1 & _).
      symmetry in H. apply app_eq_nil in H as [-> _]. done.
  - cbn [truthy negb]. destruct found as [|t ts] eqn:Hf.
    + intros t Ht%Hfound. by apply elem_of_nil in Ht.
    + done.
Qed.

Lemma Lang_pattern_dollar w :
  Lang pattern w -> exists d rest, w = 36%N :: d :: rest /\ isDigit d = true.
Proof.
  unfold pattern, amount, Plus. cbn [Lang].
  intros (w1 & m1 & -> & (c & -> & Hc) & w2 & m2 & -> & Hamount & _).
  destruct Hamount as (ds & m3 & -> & (w3 & w4 & -> & (d & -> & Hd) & _) & _).
  unfold isChar in Hc. apply N.eqb_eq in Hc as <-.
  exists d. eexists. split; [|done]. simpl. reflexivity.
Qed.

(** X14.  [extractSalary] infers a salary only from a text in which a
    dollar sign is directly followed by a digit. *)
Theorem extractSalary_needs_dollar text opts r :
  extractSalary (Some text) opts = Some r ->
  exists pre d post, text = pre ++ [36%N; d] ++ post /\ isDigit d = true.
Proof.
  unfold extractSalary. destruct (negb (truthy text)); [done|].
  destruct (search pattern text) as [c|] eqn:Hs; [|done]. intros _.
  apply search_sound in Hs as (w & Hw & pre & post & ->).
  apply Lang_pattern_dollar in Hw as (d & rest & -> & Hd).
  exists pre, d, (rest ++ post). split; [|done].
  simpl. reflexivity.
Qed.

Lemma extractSalary_needs_dollar_witness :
  exists pre d post,
    u "Pay: $50 - $70 per hour" = pre ++ [36%N; d] ++ post
    /\ isDigit d = true.
Proof.
  eapply (extractSalary_needs_dollar (u "Pay: $50 - $70 per hour") Opts.none).
  evaluate.
Defined.
End Patterns.

(** ** Proxy rotation *)

Section Proxies.
Import Utils.

Lemma startsWith_app p s : startsWith p (p ++ s) = true.
Proof. induction p as [|c p IH]; simpl; [done|]. by rewrite N.eqb_refl. Qed.

Lemma formatProxy_idem proxy : formatProxy (formatProxy proxy) = formatProxy proxy.
Proof.
  unfold formatProxy at 2 3.
  destruct (_ || _) eqn:H.
  - unfold formatProxy. by rewrite H.
  - unfold formatProxy. by rewrite (startsWith_app (u "http://") proxy).
Qed.

Lemma formatProxy_truthy proxy : truthy (formatProxy proxy) = true.
Proof.
  unfold formatProxy. destruct (_ || _) eqn:H; [|done].
  by destruct proxy.
Qed.

Lemma next_turn r proxy :
  ProxyRotator.proxies r
    !! (ProxyRotator.index r mod length (ProxyRotator.proxies r))%nat
  = Some proxy ->
  ProxyRotator.next r
  = (handedOut proxy,
     {| ProxyRotator.proxies := ProxyRotator.proxies r;
        ProxyRotator.index := S (ProxyRotator.index r) |}).
Proof.
  intros H. unfold ProxyRotator.next, handedOut.
  destruct (ProxyRotator.proxies r) as [|p ps] eqn:Hps; [done|].
  rewrite (nth_lookup_Some _ _ _ _ H). by destruct (eqb _ _).
Qed.

Lemma calls_lookup n : forall r i proxy,
  (i < n)%nat ->
  ProxyRotator.proxies r
    !! ((ProxyRotator.index r + i) mod length (ProxyRotator.proxies r))%nat
  = Some proxy ->
  (calls n r).1 !! i = Some (handedOut proxy).
Proof.
  induction n as [|n IH]; intros r i proxy Hi Hp; [lia|].
  assert (ProxyRotator.proxies r <> []) as Hne.
  { intros E. by rewrite E in Hp. }
  assert (exists q,
             ProxyRotator.proxies r
               !! (ProxyRotator.index r mod length (ProxyRotator.proxies r))%nat
             = Some q) as [q Hq].
  { apply lookup_lt_is_Some_2, Nat.mod_upper_bound.
    by destruct (ProxyRotator.proxies r). }
  simpl. rewrite (next_turn r q Hq).
  destruct (calls n _) as [rest r2] eqn:Hc. simpl.
  destruct i as [|i]; simpl.
  - rewrite Nat.add_0_r in Hp. congruence.
  - specialize (IH {| ProxyRotator.proxies := ProxyRotator.proxies r;
                      ProxyRotator.index := S (ProxyRotator.index r) |}
                   i proxy).
    rewrite Hc in IH. apply IH; [lia|]. cbn [ProxyRotator.proxies ProxyRotator.index].
    rewrite <- Hp. f_equal. f_equal. lia.
Qed.

(** X9.  A rotator made from an array hands its proxies out in turn and
    starts over after the last: the call number [i], counted from 0,
    returns the formatted proxy at position [i] modulo the number of
    proxies, and [undefined] in place of [http://localhost]. *)
Theorem ProxyRotator_round_robin proxies n i proxy :
  (i < n)%nat ->
  proxies !! (i mod length proxies)%nat = Some proxy ->
  (calls n (ProxyRotator.new (Some (ManyProxies proxies)))).1 !! i
  = Some (handedOut (formatProxy proxy)).
Proof.
  intros Hi Hp. apply calls_lookup; [done|]. simpl.
  rewrite length_map, list_lookup_fmap, Hp. done.
Qed.

Lemma ProxyRotator_round_robin_witness :
  (calls 5 (ProxyRotator.new
              (Some (ManyProxies [u "10.0.0.1:8080"; u "localhost";
                                  u "socks5://10.0.0.2"])))).1 !! 4%nat
  = Some (handedOut (formatProxy (u "localhost"))).
Proof.
  apply (ProxyRotator_round_robin
           [u "10.0.0.1:8080"; u "localhost"; u "socks5://10.0.0.2"]
           5 4 (u "localhost")); [lia|reflexivity].
Defined.

Lemma new_formatted given : formatted (ProxyRotator.new given).
Proof.
  unfold formatted. destruct given as [[p|ps]|]; simpl.
  - destruct (truthy p); repeat constructor. apply formatProxy_idem.
  - apply Forall_forall. intros p (q & -> & _)%list_elem_of_fmap.
    apply formatProxy_idem.
  - constructor.
Qed.

Lemma next_proxies r : ProxyRotator.proxies (ProxyRotator.next r).2
                       = ProxyRotator.proxies r.
Proof.
  unfold ProxyRotator.next. destruct (ProxyRotator.proxies r) eqn:E; [done|].
  by destruct (eqb _ _).
Qed.

Lemma calls_formatted n : forall r, formatted r -> formatted (calls n r).2.
Proof.
  induction n as [|n IH]; intros r Hr; simpl; [done|].
  destruct (ProxyRotator.next r) as [p r1] eqn:Hn.
  specialize (IH r1). destruct (calls n r1) as [rest r2]. simpl in *.
  apply IH. unfold formatted.
  replace r1 with (ProxyRotator.next r).2 by (by rewrite Hn).
  by rewrite next_proxies.
Qed.

Lemma next_Some r proxy :
  formatted r -> (ProxyRotator.next r).1 = Some proxy ->
  formatProxy proxy = proxy /\ eqb proxy (u "http://localhost") = false.
Proof.
  unfold formatted, ProxyRotator.next. intros Hr.
  destruct (ProxyRotator.proxies r) as [|p ps] eqn:E; [done|].
  set (q := nth _ _ _).
  assert (q ∈ p :: ps) as Hq.
  { apply list_elem_of_In, nth_In, Nat.mod_upper_bound. done. }
  destruct (eqb q _) eqn:Hl; [done|]. simpl. intros [= <-].
  split; [|done]. rewrite Forall_forall in Hr. by apply Hr.
Qed.

(** X10.  Whatever proxies a scraper was made with and however many times
    its rotator was used, [initSession] creates the session with the proxy
    that [next()] hands out, with none when [next()] gives [undefined], and
    leaves the rotator as [next()] does. *)
Theorem initSession_proxy given n :
  let r := (calls n (ProxyRotator.new given)).2 in
  Adapters.initSession r = ProxyRotator.next r.
Proof.
  intros r. assert (formatted r) as Hr by apply calls_formatted, new_formatted.
  unfold Adapters.initSession.
  destruct (ProxyRotator.next r) as [[proxy|] r'] eqn:Hn; [|done].
  destruct (next_Some r proxy Hr) as [Hf Hl]; [by rewrite Hn|].
  assert (truthy proxy = true) as Ht by (rewrite <- Hf; apply formatProxy_truthy).
  rewrite Ht. unfold createHttpSession_proxy, ProxyRotator.new, ProxyRotator.next.
  cbn [ProxyRotator.proxies ProxyRotator.index List.map length].
  change (nth (0 mod 1) [formatProxy proxy] []) with (formatProxy proxy).
  rewrite Hf, Hl. cbn [fst]. by rewrite Ht.
Qed.
End Proxies.

(** ** Currency parsing *)

Section Currency.
Import Utils.

Lemma slice_front {A} (a b : list A) :
  length b = 3%nat -> slice (a ++ b) 0 (-3) = a.
Proof.
  intros Hb. unfold slice, sliceIndex. rewrite length_app, Hb.
  destruct (Z.ltb_spec 0 0); [lia|]. destruct (Z.ltb_spec (-3) 0); [|lia].
  replace (Z.to_nat (Z.min 0 _)) with 0%nat by lia. rewrite drop_0.
  replace (Z.to_nat _) with (length a) by lia. apply take_app_length.
Qed.

Lemma slice_back {A} (a b : list A) :
  length b = 3%nat ->
  slice (a ++ b) (-3) (Z.of_nat (length (a ++ b))) = b.
Proof.
  intros Hb. unfold slice, sliceIndex. rewrite length_app, Hb.
  destruct (Z.ltb_spec (-3) 0); [|lia].
  destruct (Z.ltb_spec (Z.of_nat (length a + 3)) 0); [lia|].
  replace (Z.to_nat (Z.max _ 0)) with (length a) by lia.
  rewrite drop_app_length. apply take_ge. lia.
Qed.

Lemma takeWhile_app p ds c rest :
  forallb p ds = true -> p c = false ->
  takeWhile p (ds ++ c :: rest) = ds.
Proof.
  intros Hds Hc. induction ds as [|d ds IH]; simpl in *.
  - by rewrite Hc.
  - apply andb_true_iff in Hds as [-> Hds]. by rewrite IH.
Qed.

Lemma takeWhile_all p ds : forallb p ds = true -> takeWhile p ds = ds.
Proof.
  induction ds as [|d ds IH]; simpl; [done|].
  intros [-> Hds]%andb_true_iff. by rewrite IH.
Qed.

Lemma filter_digits int :
  forallb (fun c => isDigit c || isSeparator c) int = true ->
  List.filter (fun c => negb (isSeparator c)) int = List.filter isDigit int.
Proof.
  induction int as [|c int IH]; simpl; [done|].
  intros [Hc Hint]%andb_true_iff. rewrite (IH Hint).
  unfold isDigit, isSeparator in *.
  destruct (N.leb_spec 48 c), (N.leb_spec c 57), (N.eqb_spec c 46),
    (N.eqb_spec c 44); simpl in *; try done; lia.
Qed.

Lemma forallb_filter_self {A} (p : A -> bool) l : forallb p (List.filter p l) = true.
Proof.
  induction l as [|x l IH]; simpl; [done|].
  destruct (p x) eqn:Hp; simpl; [by rewrite Hp|done].
Qed.

Lemma replaceComma_digits ds rest :
  forallb isDigit ds = true ->
  replaceComma (ds ++ 44%N :: rest) = ds ++ 46%N :: rest.
Proof.
  induction ds as [|d ds IH]; simpl; [done|].
  intros [Hd Hds]%andb_true_iff. rewrite (IH Hds).
  destruct (N.eqb_spec d 44) as [->|]; done.
Qed.

Lemma parseSignedFloat_decimal ds fs :
  ds <> [] -> forallb isDigit ds = true -> forallb isDigit fs = true ->
  exists q,
    parseSignedFloat (ds ++ 46%N :: fs) = Some q
    /\ (q == inject_Z (Z.of_N (digitsValue ds))
             + (Z.of_N (digitsValue fs)
                # N.succ_pos (N.pred (10 ^ N.of_nat (length fs)))))%Q.
Proof.
  intros Hne Hds Hfs. unfold parseSignedFloat.
  destruct ds as [|d ds]; [done|]. clear Hne.
  assert (d <> 45%N) as Hd.
  { simpl in Hds. apply andb_true_iff in Hds as [Hd _]. unfold isDigit in Hd.
    intros ->. done. }
  assert (splitSign ((d :: ds) ++ 46%N :: fs)
          = (false, (d :: ds) ++ 46%N :: fs)) as ->.
  { simpl. destruct d as [|[p|p|]]; try done.
    repeat (destruct p as [p|p|]; try done). }
  cbv beta iota zeta.
  rewrite (takeWhile_app isDigit (d :: ds) 46 fs Hds eq_refl).
  rewrite drop_app_length, (takeWhile_all _ _ Hfs).
  eexists. split; [reflexivity|]. rewrite Qred_correct.
  set (scale := (10 ^ N.of_nat (length fs))%N).
  assert (0 < scale)%N as Hs.
  { unfold scale. apply N.neq_0_lt_0, N.pow_nonzero. done. }
  assert (Z.pos (N.succ_pos (N.pred scale)) = Z.of_N scale) as Hpos.
  { rewrite <- (N.succ_pred scale) at 2 by lia.
    by rewrite <- N.succ_pos_spec. }
  unfold Qeq. simpl.
  rewrite N2Z.inj_add, N2Z.inj_mul, !Pos.mul_1_l, !Hpos.
  ring.
Qed.

(** X11.  When, among the characters [parseCurrency] keeps, a [.] or a
    [,] stands third from the end with two digits after it, [parseCurrency]
    reads it as the decimal separator and drops every separator before
    it: the value is the number the remaining digits spell, plus the two
    digits as hundredths. *)
Theorem parseCurrency_two_decimals cur int sep d1 d2 :
  List.filter isMoneyChar cur = int ++ [sep; d1; d2] ->
  forallb (fun c => isDigit c || isSeparator c) int = true ->
  List.filter isDigit int <> [] ->
  isSeparator sep = true -> isDigit d1 = true -> isDigit d2 = true ->
  exists q,
    parseCurrency cur = Some q
    /\ (q == inject_Z (Z.of_N (digitsValue (List.filter isDigit int)))
             + (Z.of_N (digitsValue [d1; d2]) # 100))%Q.
Proof.
  intros Hcl Hint Hne Hsep Hd1 Hd2. unfold parseCurrency. rewrite Hcl.
  rewrite (slice_front int [sep; d1; d2] eq_refl).
  rewrite (slice_back int [sep; d1; d2] eq_refl).
  rewrite (filter_digits int Hint).
  set (ds := List.filter isDigit int) in *.
  rewrite (slice_back ds [sep; d1; d2] eq_refl).
  assert (forallb isDigit ds = true) as Hds by apply forallb_filter_self.
  assert (forallb isDigit [d1; d2] = true) as Hfs.
  { simpl. by rewrite Hd1, Hd2. }
  assert (includesCU 46 [sep; d1; d2] = (sep =? 46)%N) as ->.
  { unfold includesCU. cbn [existsb]. unfold isDigit in Hd1, Hd2.
    rewrite (N.eqb_sym 46 sep).
    destruct (N.eqb_spec 46 d1) as [<-|]; [done|].
    destruct (N.eqb_spec 46 d2) as [<-|]; [done|].
    by rewrite !orb_false_r. }
  destruct (N.eqb_spec sep 46) as [->|Hdot].
  - apply (parseSignedFloat_decimal ds [d1; d2] Hne Hds Hfs).
  - assert (sep = 44%N) as ->.
    { unfold isSeparator in Hsep. apply orb_true_iff in Hsep as [H|H];
        apply N.eqb_eq in H; done. }
    unfold includesCU. cbn [existsb]. rewrite N.eqb_refl. cbn [orb].
    rewrite (replaceComma_digits ds [d1; d2] Hds).
    apply (parseSignedFloat_decimal ds [d1; d2] Hne Hds Hfs).
Qed.

Lemma parseCurrency_two_decimals_witness :
  exists q,
    parseCurrency (u "EUR 1.234.567,89") = Some q
    /\ (q == inject_Z 1234567 + (89 # 100))%Q.
Proof.
  apply (parseCurrency_two_decimals (u "EUR 1.234.567,89") (u "1.234.567")
           44 56 57); done.
Defined.
End Currency.

(** ** CSV output *)

Section Csv.
Import Cli.

Lemma readCells_plain str : forall acc rest cells,
  includesCU 44 str = false -> follows rest cells ->
  readCells (str ++ rest) InPlain acc = (acc ++ str) :: cells.
Proof.
  induction str as [|c str IH]; intros acc rest cells Hc Hf; simpl.
  - rewrite app_nil_r. destruct Hf as [[-> ->]|(more & -> & ->)]; [done|].
    simpl. done.
  - unfold includesCU in Hc. cbn [existsb] in Hc.
    apply orb_false_iff in Hc as [Hc Hstr]. rewrite N.eqb_sym in Hc.
    rewrite Hc, (IH (acc ++ [c]) rest cells Hstr Hf), <- app_assoc. done.
Qed.

Lemma readCells_quoted str : forall acc rest cells,
  follows rest cells ->
  readCells (doubleQuotes str ++ 34%N :: rest) InQuoted acc
  = (acc ++ str) :: cells.
Proof.
  induction str as [|c str IH]; intros acc rest cells Hf.
  - simpl. rewrite app_nil_r.
    destruct Hf as [[-> ->]|(more & -> & ->)]; done.
  - unfold doubleQuotes. cbn [flat_map]. fold (doubleQuotes str).
    destruct (N.eqb_spec c 34) as [->|Hc].
    + simpl. rewrite (IH (acc ++ [34%N]) rest cells Hf), <- app_assoc. done.
    + simpl. apply N.eqb_neq in Hc. rewrite Hc.
      rewrite (IH (acc ++ [c]) rest cells Hf), <- app_assoc. done.
Qed.

Lemma readCells_escape val rest cells :
  follows rest cells ->
  readCells (escape val ++ rest) AtStart [] = default [] val :: cells.
Proof.
  intros Hf. destruct val as [str|]; simpl.
  - destruct (includesCU 44 str || includesCU 34 str || includesCU 10 str)
      eqn:Hs.
    + simpl. rewrite <- app_assoc. simpl.
      apply (readCells_quoted str [] rest cells Hf).
    + apply orb_false_iff in Hs as [Hs _].
      apply orb_false_iff in Hs as [Hcomma Hquote].
      destruct str as [|c str].
      * simpl. destruct Hf as [[-> ->]|(more & -> & ->)]; done.
      * unfold includesCU in Hcomma, Hquote. cbn [existsb] in Hcomma, Hquote.
        apply orb_false_iff in Hcomma as [Hc1 Hcomma].
        apply orb_false_iff in Hquote as [Hc2 _].
        rewrite N.eqb_sym in Hc1. rewrite N.eqb_sym in Hc2.
        simpl. rewrite Hc1, Hc2.
        apply (readCells_plain str [c] rest cells Hcomma Hf).
  - destruct Hf as [[-> ->]|(more & -> & ->)]; done.
Qed.

Lemma readCells_line cells :
  cells <> [] ->
  readCells (line cells) AtStart [] = List.map (default []) cells.
Proof.
  unfold line. induction cells as [|v cells IH]; [done|]. intros _.
  destruct cells as [|v' cells].
  - simpl. rewrite <- (app_nil_r (escape v)).
    apply readCells_escape. by left.
  - cbn [List.map join]. cbn [List.map] in IH.
    change (u ",") with [44%N]. simpl app.
    change (escape v ++ 44%N :: join [44%N] (escape v' :: List.map escape cells))
      with (escape v ++ 44%N :: join (u ",") (escape v' :: List.map escape cells)).
    apply readCells_escape. right. eexists. split; [done|].
    symmetry. by apply IH.
Qed.

Lemma readRecord_empty rest cells tail :
  ends rest cells tail ->
  readRecord rest AtStart [] = Some ([] :: cells, tail).
Proof.
  intros [(-> & -> & ->)|[[-> ->]|(more & -> & Hm)]].
  - done.
  - done.
  - simpl. by rewrite Hm.
Qed.

Lemma readRecord_plain str : forall acc rest cells tail,
  includesCU 44 str = false -> includesCU 34 str = false ->
  includesCU 10 str = false -> includesCU 13 str = false ->
  ends rest cells tail ->
  readRecord (str ++ rest) InPlain acc = Some ((acc ++ str) :: cells, tail).
Proof.
  induction str as [|c str IH]; intros acc rest cells tail H44 H34 H10 H13 He.
  - rewrite app_nil_r. simpl.
    destruct He as [(-> & -> & ->)|[[-> ->]|(more & -> & Hm)]].
    + done.
    + done.
    + simpl. by rewrite Hm.
  - unfold includesCU in H44, H34, H10, H13.
    cbn [existsb] in H44, H34, H10, H13.
    apply orb_false_iff in H44 as [E44 H44].
    apply orb_false_iff in H34 as [E34 H34].
    apply orb_false_iff in H10 as [E10 H10].
    apply orb_false_iff in H13 as [E13 H13].
    rewrite N.eqb_sym in E44. rewrite N.eqb_sym in E34.
    rewrite N.eqb_sym in E10. rewrite N.eqb_sym in E13.
    cbn [app readRecord]. unfold isLineBreak. rewrite E44, E34, E10, E13.
    cbn [orb].
    rewrite (IH (acc ++ [c]) rest cells tail H44 H34 H10 H13 He),
      <- app_assoc.
    done.
Qed.

Lemma readRecord_quoted str : forall acc rest cells tail,
  ends rest cells tail ->
  readRecord (doubleQuotes str ++ 34%N :: rest) InQuoted acc
  = Some ((acc ++ str) :: cells, tail).
Proof.
  induction str as [|c str IH]; intros acc rest cells tail He.
  - simpl. rewrite app_nil_r.
    destruct He as [(-> & -> & ->)|[[-> ->]|(more & -> & Hm)]].
    + done.
    + done.
    + simpl. by rewrite Hm.
  - unfold doubleQuotes. cbn [flat_map]. fold (doubleQuotes str).
    destruct (N.eqb_spec c 34) as [->|Hc].
    + simpl. rewrite (IH (acc ++ [34%N]) rest cells tail He), <- app_assoc.
      done.
    + simpl. apply N.eqb_neq in Hc. rewrite Hc.
      rewrite (IH (acc ++ [c]) rest cells tail He), <- app_assoc. done.
Qed.

Lemma readRecord_escape val rest cells tail :
  includesCU 13 (default [] val) = false ->
  ends rest cells tail ->
  readRecord (escape val ++ rest) AtStart []
  = Some (default [] val :: cells, tail).
Proof.
  intros H13 He. pose proof (readRecord_empty rest cells tail He) as Hempty.
  destruct val as [str|]; [|done].
  cbn [from_option Datatypes.id] in *. unfold escape.
  destruct (includesCU 44 str || includesCU 34 str || includesCU 10 str)
    eqn:Hs.
  - rewrite <- app_assoc. cbn [app readRecord]. simpl N.eqb. cbn iota.
    rewrite <- app_assoc.
    apply (readRecord_quoted str [] rest cells tail He).
  - apply orb_false_iff in Hs as [Hs H10].
    apply orb_false_iff in Hs as [H44 H34].
    destruct str as [|c str]; [done|].
    pose proof (readRecord_plain str [c] rest cells tail) as Hplain.
    unfold includesCU in H44, H34, H10, H13.
    cbn [existsb] in H44, H34, H10, H13.
    apply orb_false_iff in H44 as [E44 H44].
    apply orb_false_iff in H34 as [E34 H34].
    apply orb_false_iff in H10 as [E10 H10].
    apply orb_false_iff in H13 as [E13 H13].
    rewrite N.eqb_sym in E44. rewrite N.eqb_sym in E34.
    rewrite N.eqb_sym in E10. rewrite N.eqb_sym in E13.
    cbn [app readRecord]. unfold isLineBreak. rewrite E44, E34, E10, E13.
    cbn [orb]. by apply Hplain.
Qed.

Lemma readRecord_line cells : forall rest tail,
  cells <> [] ->
  Forall (fun cell => includesCU 13 (default [] cell) = false) cells ->
  ends rest [] tail ->
  readRecord (line cells ++ rest) AtStart []
  = Some (List.map (default []) cells, tail).
Proof.
  unfold line. induction cells as [|v cells IH]; [done|].
  intros rest tail _ Hcr He.
  apply Forall_cons in Hcr as [Hv Hcr].
  destruct cells as [|v' cells].
  - simpl. by apply readRecord_escape.
  - cbn [List.map join]. cbn [List.map] in IH.
    change (u ",") with [44%N]. rewrite <- !app_assoc. simpl app.
    apply readRecord_escape; [done|]. right. right. eexists. split; [done|].
    by apply IH.
Qed.

(** X19.  A row of cells none of which holds a carriage return is written
    by [jobsToCsv] as a line that a reader of CSV reads back as those
    cells, [null] and [undefined] as the empty string, whatever commas,
    double quotes and line feeds the cells hold: so it is when the line
    is the last one of the file, and when a line feed and other lines
    follow it, which are left to be read. *)
Theorem line_read_back cells :
  cells <> [] ->
  Forall (fun cell => includesCU 13 (default [] cell) = false) cells ->
  readRecord (line cells) AtStart [] = Some (List.map (default []) cells, [])
  /\ forall more,
       readRecord (line cells ++ 10%N :: more) AtStart []
       = Some (List.map (default []) cells, more).
Proof.
  intros Hne Hcr. split.
  - rewrite <- (app_nil_r (line cells)).
    apply readRecord_line; [done..|]. by left.
  - intros more. apply readRecord_line; [done..|]. right. by left.
Qed.

Lemma line_read_back_witness :
  readRecord
    (line [Some (u "Engineer, senior"); None; Some (u "3"); Some []])
    AtStart []
  = Some ([u "Engineer, senior"; []; u "3"; []], [])
  /\ forall more,
       readRecord
         (line [Some (u "Engineer, senior"); None; Some (u "3"); Some []]
          ++ 10%N :: more)
         AtStart []
       = Some ([u "Engineer, senior"; []; u "3"; []], more).
Proof.
  apply (line_read_back
           [Some (u "Engineer, senior"); None; Some (u "3"); Some []]).
  - done.
  - repeat constructor.
Defined.

(** X20.  Two rows that [jobsToCsv] writes as the same line hold the same
    values, [null] and [undefined] counted as the empty string. *)
Theorem line_injective cells1 cells2 :
  cells1 <> [] -> cells2 <> [] -> line cells1 = line cells2 ->
  List.map (default []) cells1 = List.map (default []) cells2.
Proof.
  intros H1 H2 Heq.
  rewrite <- (readCells_line cells1 H1), <- (readCells_line cells2 H2).
  by rewrite Heq.
Qed.

Lemma line_injective_witness :
  List.map (default []) [Some (u "a,b"); None]
  = List.map (default []) [Some (u "a,b"); Some []].
Proof. apply line_injective; done. Defined.
End Csv.

(** ** Job types and compensation intervals *)

Section JobTypes.
Import Scraper.

(** X15.  [getJobTypeFromString] ignores dashes, white space and the case
    of ASCII letters: a string that without them, in lower case, is the
    value of a job type is resolved to that job type. *)
Theorem getJobTypeFromString_normalized value t :
  normalizeJobType value = JobType_value t ->
  getJobTypeFromString value = Some (Alias t).
Proof.
  intros H. unfold getJobTypeFromString. rewrite H. by destruct t.
Qed.

Lemma getJobTypeFromString_normalized_witness :
  getJobTypeFromString (u "Full-Time") = Some (Alias FULL_TIME)
  /\ getJobTypeFromString (u " per diem ") = Some (Alias PER_DIEM).
Proof.
  split; apply getJobTypeFromString_normalized; reflexivity.
Defined.

Lemma JobType_value_inj t t' : JobType_value t = JobType_value t' -> t = t'.
Proof. by destruct t, t'. Qed.

Lemma JobType_value_truthy t : truthy (JobType_value t) = true.
Proof. by destruct t. Qed.

(** X16.  [resolveJobType] accepts the values of [JobType] as they are
    spelled and nothing else: such a value gives its job type, the empty
    string gives [undefined], and any other string throws
    [Invalid job type: ...]. *)
Theorem resolveJobType_exact jt :
  (forall t, jt = JobType_value t -> resolveJobType (Some jt) = Ok (Some t))
  /\ (jt = [] -> resolveJobType (Some jt) = Ok None)
  /\ (jt <> [] -> (forall t, jt <> JobType_value t) ->
      resolveJobType (Some jt) = Throw (u "Invalid job type: " ++ jt)).
Proof.
  unfold resolveJobType. split; [|split].
  - intros t ->. rewrite JobType_value_truthy. cbn [negb].
    destruct (List.find _ JobType_values) as [t'|] eqn:Hf.
    + apply List.find_some in Hf as [_ Hf]. unfold eqb in Hf.
      apply bool_decide_eq_true in Hf. by apply JobType_value_inj in Hf as ->.
    + eapply List.find_none in Hf.
      * unfold eqb in Hf. by apply bool_decide_eq_false in Hf.
      * by destruct t; simpl; tauto.
  - by intros ->.
  - intros Hne Hno. destruct jt as [|c jt]; [done|]. cbn [truthy negb].
    destruct (List.find _ JobType_values) as [t'|] eqn:Hf; [|done].
    apply List.find_some in Hf as [_ Hf]. unfold eqb in Hf.
    apply bool_decide_eq_true in Hf. by destruct (Hno t').
Qed.

Lemma upperCU_lowerCU c : upperCU (lowerCU c) = upperCU c.
Proof.
  unfold lowerCU, upperCU.
  destruct (N.leb_spec 65 c), (N.leb_spec c 90); simpl;
    repeat match goal with
           | |- context [(?a <=? ?b)%N] => destruct (N.leb_spec a b); simpl
           end; lia.
Qed.

Lemma toUpperCase_toLowerCase s : toUpperCase (toLowerCase s) = toUpperCase s.
Proof.
  unfold toLowerCase, toUpperCase. rewrite List.map_map.
  apply List.map_ext, upperCU_lowerCU.
Qed.

(** X17.  [getCompensationInterval] reads back the value of every
    compensation interval, in any case of its letters. *)
Theorem getCompensationInterval_value payPeriod i :
  toLowerCase payPeriod = CompensationInterval_value i ->
  getCompensationInterval payPeriod = Some i.
Proof.
  intros H. unfold getCompensationInterval.
  rewrite <- toUpperCase_toLowerCase, H. by destruct i.
Qed.

Lemma getCompensationInterval_value_witness :
  getCompensationInterval (u "Hourly") = Some HOURLY.
Proof. apply getCompensationInterval_value. reflexivity. Defined.
End JobTypes.

(** ** The job types of Indeed *)

Section IndeedFields.
Import Adapters.

Lemma isWhiteSpace_lowerCU c : isWhiteSpace (lowerCU c) = isWhiteSpace c.
Proof.
  unfold lowerCU.
  destruct (N.leb_spec 65 c), (N.leb_spec c 90); simpl; try done.
  unfold isWhiteSpace.
  repeat match goal with
         | |- context [(?a <=? ?b)%N] => destruct (N.leb_spec a b); try lia
         | |- context [(?a =? ?b)%N] => destruct (N.eqb_spec a b); try lia
         end; done.
Qed.

Lemma dash_lowerCU c : (lowerCU c =? 45)%N = (c =? 45)%N.
Proof.
  unfold lowerCU.
  destruct (N.leb_spec 65 c), (N.leb_spec c 90); simpl; try done.
  destruct (N.eqb_spec (c + 32) 45), (N.eqb_spec c 45); try done; lia.
Qed.

Lemma normalizeJobType_stripped label :
  normalizeJobType
    (toLowerCase
       (List.filter (fun c => negb (isWhiteSpace c))
          (List.filter (fun c => negb (c =? 45)%N) label)))
  = normalizeJobType label.
Proof.
  unfold normalizeJobType, toLowerCase.
  induction label as [|c label IH]; [done|]. simpl.
  destruct (c =? 45)%N eqn:Hd; simpl; [exact IH|].
  destruct (isWhiteSpace c) eqn:Hw; simpl; [exact IH|].
  rewrite dash_lowerCU, isWhiteSpace_lowerCU, Hd, Hw. simpl.
  by rewrite lowerCU_idem, IH.
Qed.

(** X18.  [getJobType] of the Indeed adapter resolves each label as
    [getJobTypeFromString] resolves the label itself: what it strips
    beforehand, [getJobTypeFromString] strips anyway. *)
Theorem getJobType_labels labels :
  Indeed.getJobType labels = omap getJobTypeFromString labels.
Proof.
  unfold Indeed.getJobType.
  induction labels as [|label labels IH]; [done|]. cbn [omap list_omap].
  rewrite IH. unfold getJobTypeFromString at 1 3.
  by rewrite normalizeJobType_stripped.
Qed.
End IndeedFields.

(** ** Annual salaries *)

Section Annual.
Import Utils Scraper.

Lemma multipliers_value i :
  multipliers (CompensationInterval_value i)
  = match i with YEARLY => None | _ => Some (perYear i) end.
Proof. by destruct i. Qed.

Lemma times_perYear a i : (times a (perYear i) == a * perYear i)%Q.
Proof. unfold times. apply Qred_correct. Qed.

Lemma set_salary_id (r : Flat.FlatJobRecord) :
  Flat.set_salary r (Flat.interval r) (Flat.min_amount r) (Flat.max_amount r)
    (Flat.currency r) (Flat.salary_source r) = r.
Proof. by destruct r. Qed.

Lemma perYear_nonneg i : (0 <= perYear i)%Q.
Proof. by destruct i. Qed.

(** X21.  On a record that has both amounts and one of the five
    intervals, [convertToAnnual] sets the interval to [yearly] and
    multiplies both amounts by the number of such intervals in a year
    (2080 hours, 260 days, 52 weeks, 12 months); the order of the two
    amounts is kept, and converting a second time changes nothing. *)
Theorem convertToAnnual_amounts r i a b :
  Flat.interval r = Some (CompensationInterval_value i) ->
  Flat.min_amount r = Some a -> Flat.max_amount r = Some b ->
  exists a' b',
    convertToAnnual r
    = Flat.set_salary r (Some (u "yearly")) (Some a') (Some b')
        (Flat.currency r) (Flat.salary_source r)
    /\ (a' == a * perYear i)%Q /\ (b' == b * perYear i)%Q
    /\ ((a <= b)%Q -> (a' <= b')%Q)
    /\ convertToAnnual (convertToAnnual r) = convertToAnnual r.
Proof.
  intros Hi Ha Hb.
  assert (forall a' b', (a' == a * perYear i)%Q -> (b' == b * perYear i)%Q ->
            (a <= b)%Q -> (a' <= b')%Q) as Hle.
  { intros a' b' -> -> H. apply Qmult_le_compat_r; [done|apply perYear_nonneg]. }
  assert (convertToAnnual r
          = match i with
            | YEARLY => r
            | _ => Flat.set_salary r (Some (u "yearly"))
                     (Some (times a (perYear i))) (Some (times b (perYear i)))
                     (Flat.currency r) (Flat.salary_source r)
            end) as Hconv.
  { unfold convertToAnnual. rewrite Hi. cbn [from_option Datatypes.id].
    rewrite multipliers_value, Ha, Hb. by destruct i. }
  assert (convertToAnnual (convertToAnnual r) = convertToAnnual r) as Hidem.
  { rewrite Hconv. destruct i; [by rewrite Hconv|done..]. }
  enough (exists a' b',
             convertToAnnual r
             = Flat.set_salary r (Some (u "yearly")) (Some a') (Some b')
                 (Flat.currency r) (Flat.salary_source r)
             /\ (a' == a * perYear i)%Q /\ (b' == b * perYear i)%Q)
    as (a' & b' & H1 & H2 & H3).
  { exists a', b'. repeat split; try done. by apply Hle. }
  rewrite Hconv. destruct i.
  1: { exists a, b.
       change (Some (u "yearly")) with (Some (CompensationInterval_value YEARLY)).
       rewrite <- Hi, <- Ha, <- Hb, set_salary_id.
       split; [done|]. split; simpl; ring. }
  all: eexists _, _; split; [reflexivity|]; split; apply times_perYear.
Qed.

Lemma convertToAnnual_amounts_witness :
  exists a' b',
    convertToAnnual
      (Flat.set_salary (initialRecord (post "Nurse" None None) (u "indeed"))
         (Some (u "weekly")) (Some 1000%Q) (Some 1500%Q) (Some (u "USD"))
         (Some (u "direct_data")))
    = Flat.set_salary (initialRecord (post "Nurse" None None) (u "indeed"))
        (Some (u "yearly")) (Some a') (Some b') (Some (u "USD"))
        (Some (u "direct_data"))
    /\ (a' == 52000)%Q /\ (b' == 78000)%Q.
Proof.
  destruct (convertToAnnual_amounts
              (Flat.set_salary
                 (initialRecord (post "Nurse" None None) (u "indeed"))
                 (Some (u "weekly")) (Some 1000%Q) (Some 1500%Q)
                 (Some (u "USD")) (Some (u "direct_data")))
              WEEKLY 1000%Q 1500%Q eq_refl eq_refl eq_refl)
    as (a' & b' & H & Ha & Hb & _).
  exists a', b'. split; [exact H|]. split; [by rewrite Ha|by rewrite Hb].
Defined.

(** X22.  With [enforce_annual_salary], a job post whose compensation has
    an interval and both amounts is flattened into a record with interval
    [yearly], the amounts multiplied by the number of intervals in a
    year, the currency of the compensation ([USD] when it has none) and
    [direct_data] as the source. *)
Theorem flattenJob_enforced job site cn params c i a b :
  compensation job = Some c ->
  interval c = Some i -> min_amount c = Some a -> max_amount c = Some b ->
  Params.enforce_annual_salary params = Some true ->
  exists a' b',
    flattenJob job site cn params
    = Flat.set_salary (initialRecord job site) (Some (u "yearly"))
        (Some a') (Some b') (Some (default (u "USD") (currency c)))
        (Some (SalarySource_value DIRECT_DATA))
    /\ (a' == a * perYear i)%Q /\ (b' == b * perYear i)%Q.
Proof.
  intros Hc Hi Ha Hb He. unfold flattenJob. rewrite Hc, Hi, Ha, Hb, He.
  cbn [notNull orb from_option Datatypes.id option_map].
  destruct i.
  1: { exists a, b. split; [reflexivity|]. split; simpl; ring. }
  all: eexists _, _; split; [reflexivity|];
    split; unfold times; apply Qred_correct.
Qed.

Lemma flattenJob_enforced_witness :
  exists a' b',
    flattenJob (post "Nurse" None (Some hourlyPay)) (u "indeed")
      (Some (u "canada")) enforcing
    = Flat.set_salary
        (initialRecord (post "Nurse" None (Some hourlyPay)) (u "indeed"))
        (Some (u "yearly")) (Some a') (Some b') (Some (u "USD"))
        (Some (u "direct_data"))
    /\ (a' == 41600)%Q /\ (b' == 62400)%Q.
Proof.
  destruct (flattenJob_enforced (post "Nurse" None (Some hourlyPay))
              (u "indeed") (Some (u "canada")) enforcing hourlyPay HOURLY
              20%Q 30%Q eq_refl eq_refl eq_refl eq_refl eq_refl)
    as (a' & b' & H & Ha & Hb).
  exists a', b'. split; [exact H|]. split; [by rewrite Ha|by rewrite Hb].
Defined.
End Annual.

(** ** The hash of a string *)

Section Hash.
Import Adapters.

Lemma toInt32_range z : - 2 ^ 31 <= toInt32 z < 2 ^ 31.
Proof.
  unfold toInt32. pose proof (Z.mod_pos_bound (z + 2 ^ 31) (2 ^ 32)). lia.
Qed.

Lemma toInt32_congr a b :
  a mod 2 ^ 32 = b mod 2 ^ 32 -> toInt32 a = toInt32 b.
Proof.
  intros H. unfold toInt32. f_equal.
  rewrite <- (Zplus_mod_idemp_l a), <- (Zplus_mod_idemp_l b), H. done.
Qed.

Lemma toInt32_mod z : toInt32 z mod 2 ^ 32 = z mod 2 ^ 32.
Proof.
  unfold toInt32.
  rewrite <- Zminus_mod_idemp_l, Z.mod_mod by done.
  rewrite Zminus_mod_idemp_l. f_equal. lia.
Qed.

Lemma hashCode_step hash p char :
  hash mod 2 ^ 32 = p mod 2 ^ 32 ->
  toInt32 (toInt32 (hash * 2 ^ 5) - hash + Z.of_N char) mod 2 ^ 32
  = (31 * p + Z.of_N char) mod 2 ^ 32.
Proof.
  intros H. rewrite toInt32_mod.
  rewrite <- Zplus_mod_idemp_l, <- Zminus_mod_idemp_l, toInt32_mod.
  rewrite Zminus_mod_idemp_l, Zplus_mod_idemp_l.
  replace (hash * 2 ^ 5 - hash + Z.of_N char)
    with (31 * hash + Z.of_N char) by lia.
  rewrite <- Zplus_mod_idemp_l, <- Zmult_mod_idemp_r, H.
  by rewrite Zmult_mod_idemp_r, Zplus_mod_idemp_l.
Qed.

Lemma hashCode_fold str : forall hash p,
  hash mod 2 ^ 32 = p mod 2 ^ 32 ->
  fold_left
    (fun hash char => toInt32 (toInt32 (hash * 2 ^ 5) - hash + Z.of_N char))
    str hash mod 2 ^ 32
  = polynomial31 p str mod 2 ^ 32.
Proof.
  unfold polynomial31.
  induction str as [|char str IH]; intros hash p H; simpl; [done|].
  apply IH, hashCode_step, H.
Qed.

(** X23.  [hashCode] is the polynomial hash of base 31 over the code
    units of the string, wrapped to a signed 32-bit integer. *)
Theorem hashCode_polynomial str :
  hashCode str = toInt32 (polynomial31 0 str)
  /\ - 2 ^ 31 <= hashCode str < 2 ^ 31.
Proof.
  assert (hashCode str mod 2 ^ 32 = polynomial31 0 str mod 2 ^ 32) as H.
  { unfold hashCode. by apply hashCode_fold. }
  assert (- 2 ^ 31 <= hashCode str < 2 ^ 31) as Hr.
  { unfold hashCode. destruct str as [|c str] using rev_ind; [simpl; lia|].
    rewrite fold_left_app. simpl. apply toInt32_range. }
  split; [|done].
  rewrite <- (toInt32_congr _ _ H). unfold toInt32.
  rewrite Z.mod_small; lia.
Qed.
End Hash.

(** ** Slugs *)

Section Slugs.
Import Adapters Adapters.GoogleCareers.

Lemma isSlugChar_not_dash c : isSlugChar c = true -> c <> 45%N.
Proof. intros H ->. done. Qed.

Lemma dashRuns_chars s : forall b,
  Forall (fun c => isSlugChar c = true \/ c = 45%N) (dashRuns s b).
Proof.
  induction s as [|c s IH]; intros b; simpl; [constructor|].
  destruct (isSlugChar c) eqn:Hc; [constructor; by auto|].
  destruct b; [apply IH|constructor; by auto].
Qed.

Lemma dashRuns_apart s : forall b,
  dashesApart (dashRuns s b) = true
  /\ (b = true -> head (dashRuns s b) <> Some 45%N).
Proof.
  induction s as [|c s IH]; intros b; simpl; [done|].
  destruct (isSlugChar c) eqn:Hc.
  - destruct (IH false) as [IH1 _]. simpl. rewrite IH1.
    pose proof (isSlugChar_not_dash c Hc) as Hd.
    apply N.eqb_neq in Hd. rewrite Hd. split; [done|].
    intros _ [= ->]. done.
  - destruct (IH true) as [IH1 IH2]. destruct b; [by auto|].
    simpl. rewrite IH1, andb_true_r. split; [|done].
    rewrite bool_decide_eq_false_2; [done|by apply IH2].
Qed.

Lemma dashesApart_occurs s :
  dashesApart s = true <-> ~ occursIn [45; 45]%N s.
Proof.
  induction s as [|c s IH]; simpl.
  - split; [|done]. intros _ (pre & post & H). by destruct pre.
  - rewrite andb_true_iff, IH, negb_true_iff. split.
    + intros [Hc Hs] (pre & post & H). destruct pre as [|x pre].
      * simpl in H. injection H as -> ->.
        by rewrite N.eqb_refl, bool_decide_eq_true_2 in Hc.
      * injection H as -> ->. apply Hs. by exists pre, post.
    + intros Hno. split.
      * apply andb_false_iff. destruct (N.eqb_spec c 45) as [->|]; [|by left].
        right. apply bool_decide_eq_false. intros Hh.
        destruct s as [|d s]; [done|]. injection Hh as ->.
        apply Hno. by exists [], s.
      * intros (pre & post & ->). apply Hno. by exists (c :: pre), post.
Qed.

Lemma dropDashes_suffix s :
  exists a, s = a ++ dropDashes s /\ head (dropDashes s) <> Some 45%N.
Proof.
  induction s as [|c s (a & IH1 & IH2)]; simpl.
  - by exists [].
  - destruct (N.eqb_spec c 45) as [->|Hc].
    + exists (45%N :: a). simpl. by rewrite <- IH1.
    + exists []. split; [done|]. simpl. by intros [= ->].
Qed.

Lemma dropDashes_id s : head s <> Some 45%N -> dropDashes s = s.
Proof.
  destruct s as [|c s]; simpl; [done|]. intros H.
  destruct (N.eqb_spec c 45) as [->|]; done.
Qed.

Lemma head_of_rev {A} (l : list A) : head (rev l) = last l.
Proof.
  induction l as [|x l IH] using rev_ind; [done|].
  by rewrite rev_app_distr, last_snoc.
Qed.

Lemma slugify_infix title :
  exists a b,
    dashRuns (toLowerCase title) false = a ++ slugify title ++ b
    /\ head (slugify title) <> Some 45%N
    /\ last (slugify title) <> Some 45%N.
Proof.
  unfold slugify. set (d := dashRuns (toLowerCase title) false).
  destruct (dropDashes_suffix d) as (a & Hd & Hhead).
  set (y := dropDashes d) in *.
  destruct (dropDashes_suffix (rev y)) as (b & Hy & Hlast).
  set (z := dropDashes (rev y)) in *.
  assert (y = rev z ++ rev b) as Hy'.
  { rewrite <- rev_app_distr, <- Hy. by rewrite rev_involutive. }
  exists a, (rev b). split; [by rewrite Hd, Hy'|]. split.
  - destruct (rev z) as [|c r] eqn:Hz; [done|].
    rewrite Hy' in Hhead. done.
  - by rewrite <- head_of_rev, rev_involutive.
Qed.

Lemma dashRuns_id s : forall b,
  Forall (fun c => isSlugChar c = true \/ c = 45%N) s ->
  dashesApart s = true -> (b = true -> head s <> Some 45%N) ->
  dashRuns s b = s.
Proof.
  induction s as [|c s IH]; intros b Hs Ha Hb; simpl; [done|].
  apply Forall_cons in Hs as [Hc Hs]. simpl in Ha.
  apply andb_true_iff in Ha as [Hca Ha].
  destruct (isSlugChar c) eqn:Hslug.
  - by rewrite (IH false).
  - destruct Hc as [Hc| ->]; [done|].
    destruct b; [by destruct Hb|].
    rewrite (IH true); try done. intros _ Hh.
    by rewrite N.eqb_refl, bool_decide_eq_true_2 in Hca.
Qed.

Lemma toLowerCase_slug s :
  Forall (fun c => isSlugChar c = true \/ c = 45%N) s -> toLowerCase s = s.
Proof.
  induction 1 as [|c s Hc Hs IH]; simpl; [done|]. rewrite IH. f_equal.
  unfold lowerCU, isSlugChar, isDigit in *.
  destruct (N.leb_spec 65 c), (N.leb_spec c 90); simpl; try done.
  destruct Hc as [Hc| ->]; [|done].
  destruct (N.leb_spec 97 c), (N.leb_spec c 122), (N.leb_spec 48 c),
    (N.leb_spec c 57); simpl in Hc; try done; lia.
Qed.

(** X24.  [slugify] gives a slug (lower-case ASCII letters, digits and
    single dashes, no dash at either end), and a slug is left as it is. *)
Theorem slugify_slug title :
  Slug (slugify title) /\ slugify (slugify title) = slugify title.
Proof.
  destruct (slugify_infix title) as (a & b & Hd & Hhead & Hlast).
  assert (Slug (slugify title)) as Hslug.
  { split; [|split; [done|split; [done|]]].
    - pose proof (dashRuns_chars (toLowerCase title) false) as Hc.
      rewrite Hd in Hc. apply Forall_app in Hc as [_ Hc].
      by apply Forall_app in Hc as [Hc _].
    - intros (pre & post & Ho).
      destruct (dashRuns_apart (toLowerCase title) false) as [Ha _].
      apply dashesApart_occurs in Ha. apply Ha.
      exists (a ++ pre), (post ++ b). rewrite Hd, Ho.
      by rewrite <- !app_assoc. }
  split; [done|]. destruct Hslug as (Hc & _ & _ & Hno).
  unfold slugify at 1. rewrite (toLowerCase_slug _ Hc).
  rewrite (dashRuns_id _ false Hc); [|by apply dashesApart_occurs|done].
  rewrite (dropDashes_id _ Hhead), dropDashes_id, rev_involutive; [done|].
  by rewrite head_of_rev.
Qed.
End Slugs.

(** ** Adapters that keep the keys seen *)

Section Keys.
Import Adapters.


Lemma add_superset (x : jsstring) (seen : Seen) : seen ⊆ add x seen.
Proof. unfold add. intros y Hy. by apply elem_of_union_r. Qed.

Lemma add_elem (x : jsstring) (seen : Seen) : x ∈ add x seen.
Proof. unfold add. by apply elem_of_union_l, elem_of_singleton. Qed.





Lemma Keyed_nil {K} (field : JobPost -> K) made : Keyed field made [] ∅.
Proof. split; [constructor|]. by intros job ?%elem_of_nil. Qed.

Lemma Keyed_mono {K} (field : JobPost -> K) made jobList seen seen' :
  seen ⊆ seen' -> Keyed field made jobList seen -> Keyed field made jobList seen'.
Proof.
  intros Hsub [Hnd Hk]. split; [done|]. intros job Hj.
  destruct (Hk job Hj) as (k & Hin & Hm). exists k. by auto.
Qed.

(** A job made from a key that was not seen yet is added. *)
Lemma Keyed_snoc {K} (field : JobPost -> K) (made : jsstring -> JobPost -> Prop)
    jobList seen k job :
  (forall k1 k2 j1 j2,
     made k1 j1 -> made k2 j2 -> field j1 = field j2 -> k1 = k2) ->
  Keyed field made jobList seen -> k ∉ seen -> made k job ->
  Keyed field made (jobList ++ [job]) (add k seen).
Proof.
  intros Hinj [Hnd Hk] Hnew Hm. split.
  - rewrite fmap_app. apply NoDup_app. split; [done|]. split.
    + intros x (j & -> & Hj)%list_elem_of_fmap Hx.
      apply list_elem_of_singleton in Hx.
      destruct (Hk j Hj) as (k' & Hin & Hm').
      by rewrite (Hinj _ _ _ _ Hm Hm' (eq_sym Hx)) in Hnew.
    + simpl. apply NoDup_singleton.
  - intros j [Hj|Hj]%elem_of_app.
    + destruct (Hk j Hj) as (k' & Hin & Hm'). exists k'.
      split; [by apply add_superset|done].
    + apply list_elem_of_singleton in Hj as ->.
      exists k. split; [apply add_elem|done].
Qed.
End Keys.

(** ** Distinct URLs and ids *)

Section Ids.
Import Adapters.

Lemma linkedIn_processCards_keyed {K} (field : JobPost -> K) cards :
  (forall k1 k2 j1 j2, linkedInMade k1 j1 -> linkedInMade k2 j2 ->
                       field j1 = field j2 -> k1 = k2) ->
  forall rw start jobList seen jobList' seen' threw,
    LinkedIn.processCards cards rw start jobList seen
    = (jobList', seen', threw) ->
    Keyed field linkedInMade jobList seen ->
    Keyed field linkedInMade jobList' seen'.
Proof.
  intros Hinj.
  induction cards as [|card cards IH];
    intros rw start jobList seen jobList' seen' threw;
    cbn [LinkedIn.processCards].
  - by intros [= <- <- <-].
  - destruct (LinkedIn.href card) as [hr|]; [|by apply IH].
    destruct (negb (truthy hr)); [by apply IH|].
    destruct (has _ seen) eqn:Hhas; [by apply IH|]. apply has_false in Hhas.
    destruct (LinkedIn.cardPost card) as [p|].
    + set (job := identified p _ _).
      assert (Keyed field linkedInMade jobList seen ->
              Keyed field linkedInMade (jobList ++ [job])
                (add (LinkedIn.jobIdOf hr) seen)) as Hstep.
      { intros Hk. by apply Keyed_snoc. }
      destruct (negb _).
      * intros [= <- <- <-] Hk. by apply Hstep.
      * intros Hrec Hk. eapply IH; [exact Hrec|]. by apply Hstep.
    + intros [= <- <- <-] Hk. eapply Keyed_mono; [apply add_superset|done].
Qed.

Lemma linkedIn_paginate_keyed {K} (field : JobPost -> K) fetchPage fuel :
  (forall k1 k2 j1 j2, linkedInMade k1 j1 -> linkedInMade k2 j2 ->
                       field j1 = field j2 -> k1 = k2) ->
  forall rw start jobList seen jobList',
    Keyed field linkedInMade jobList seen ->
    LinkedIn.paginate fetchPage fuel rw start jobList seen = Some jobList' ->
    NoDup (field <$> jobList').
Proof.
  intros Hinj.
  assert (forall jobList seen jobList',
            Keyed field linkedInMade jobList seen ->
            Some jobList = Some jobList' -> NoDup (field <$> jobList'))
    as Hstop.
  { intros jobList seen jobList' Hc [= <-]. apply Hc. }
  induction fuel as [|fuel IH]; intros rw start jobList seen jobList' Hk; simpl.
  - destruct (LinkedIn.continueSearch _ _ _); [done|exact (Hstop _ _ _ Hk)].
  - destruct (LinkedIn.continueSearch _ _ _); [|exact (Hstop _ _ _ Hk)].
    destruct (fetchPage start) as [| |[|card cards]]; try exact (Hstop _ _ _ Hk).
    destruct (LinkedIn.processCards _ _ _ _ _) as [[jobList1 seen1] threw]
      eqn:Hp.
    pose proof (linkedIn_processCards_keyed field _ Hinj
                  _ _ _ _ _ _ _ Hp Hk) as Hk1.
    destruct threw; [exact (Hstop _ _ _ Hk1)|].
    destruct (LinkedIn.continueSearch _ _ _); [|exact (Hstop _ _ _ Hk1)].
    by apply IH.
Qed.






Lemma careers_pushJobs_keyed limit rawJobs :
  forall jobList seen jobList' seen',
    GoogleCareers.pushJobs limit rawJobs jobList seen = (jobList', seen') ->
    Keyed id careersMade jobList seen -> Keyed id careersMade jobList' seen'.
Proof.
  induction rawJobs as [|raw rawJobs IH];
    intros jobList seen jobList' seen'; simpl.
  - by intros [= <- <-].
  - destruct (_ >=? _); [by intros [= <- <-]|].
    destruct (GoogleCareers.parseJob raw) as [job|] eqn:Hparse; [|by apply IH].
    destruct (has _ seen) eqn:Hhas; [by apply IH|]. apply has_false in Hhas.
    intros Hrec Hk. eapply IH; [exact Hrec|].
    apply Keyed_snoc; try done.
    + unfold careersMade. intros k1 k2 j1 j2 H1 H2 H. rewrite H1, H2 in H.
      by injection H.
    + unfold careersMade, GoogleCareers.parseJob in *.
      destruct raw as [r|]; [|done].
      destruct (negb (truthy (GoogleCareers.rawId r))); [done|].
      by injection Hparse as <-.
Qed.

Lemma careers_paginate_keyed fetchPage fuel :
  forall limit page total jobList seen jobList',
    Keyed id careersMade jobList seen ->
    GoogleCareers.paginate fetchPage fuel limit page total jobList seen
    = Some (Fulfilled jobList') ->
    NoDup (id <$> jobList').
Proof.
  induction fuel as [|fuel IH];
    intros limit page total jobList seen jobList' Hk;
    cbn [GoogleCareers.paginate].
  - destruct (_ <? _); [done|]. intros [= <-]. apply Hk.
  - destruct (_ <? _); [|intros [= <-]; apply Hk].
    destruct (fetchPage page) as [| |[|raw rawJobs] reported];
      try done; try (intros [= <-]; apply Hk).
    destruct (GoogleCareers.pushJobs _ (raw :: rawJobs) _ _)
      as [jobList1 seen1] eqn:Hp.
    pose proof (careers_pushJobs_keyed _ _ _ _ _ _ Hp Hk) as Hk1.
    destruct (_ >=? _); [intros [= <-]; apply Hk1|]. by apply IH.
Qed.



(** X26.  Whatever the sites answer, GoogleCareers and LinkedIn return no
    two job posts with the same [id]: both keep the ids seen as the
    strings the [id] is made of. *)
Theorem scrape_ids_distinct net c input h response h' :
  c = GoogleCareers \/ c = LinkedIn ->
  scrape net c input h = (Fulfilled response, h') ->
  NoDup (id <$> jobs response).
Proof.
  intros [Hc|Hc]; subst c; simpl.
  - unfold GoogleCareers.scrape. intros H.
    repeat case_match; simplify_eq/=.
    all: eapply slice_NoDup, careers_paginate_keyed; [apply Keyed_nil|done].
  - unfold LinkedIn.scrape. intros H.
    repeat case_match; simplify_eq/=.
    all: eapply slice_NoDup, (linkedIn_paginate_keyed id);
      [|apply Keyed_nil|done].
    all: intros k1 k2 j1 j2 [Hj1 _] [Hj2 _] Hid; rewrite Hj1, Hj2 in Hid;
      by injection Hid.
Qed.

Lemma scrape_ids_distinct_witness :
  exists response h',
    scrape repeating LinkedIn 0%nat [defaultInput] = (Fulfilled response, h')
    /\ (id <$> jobs response) = [Some (u "li-41"); Some (u "li-42")]
    /\ NoDup (id <$> jobs response).
Proof.
  eexists _, _. split; [evaluate|]. split; [evaluate|].
  eapply (scrape_ids_distinct repeating LinkedIn 0%nat [defaultInput]);
    [by auto|evaluate].
Defined.
End Ids.

(** ** How many records, and from which sites *)

Section Bounds.
Import Adapters Scraper.

Lemma slice_length {A} (l : list A) a e :
  (0 <= a -> 0 <= e) ->
  (length (slice l a e) <= Z.to_nat (e - a))%nat.
Proof.
  intros H. unfold slice, sliceIndex. rewrite length_take, length_drop.
  destruct (Z.ltb_spec a 0), (Z.ltb_spec e 0); lia.
Qed.

Lemma scrape_at_most net c input h inp rw response h' :
  c <> Google ->
  h !! input = Some inp -> Input.results_wanted inp = Some rw -> 0 <= rw ->
  scrape net c input h = (Fulfilled response, h') ->
  (length (jobs response) <= Z.to_nat rw)%nat.
Proof.
  intros Hc Hin Hrw Hpos.
  assert (forall (l : list JobPost) a e,
            (0 <= a -> 0 <= e) -> e - a <= rw ->
            (length (slice l a e) <= Z.to_nat rw)%nat) as Hslice.
  { intros l a e H1 H2. pose proof (slice_length l a e H1). lia. }
  destruct c; try done; simpl.
  - unfold Indeed.scrape. rewrite Hin, Hrw. intros H.
    repeat case_match; simplify_eq/=. apply Hslice; lia.
  - unfold LinkedIn.scrape. rewrite Hin, Hrw. intros H.
    repeat case_match; simplify_eq/=; apply Hslice; lia.
  - unfold Glassdoor.scrape. rewrite Hin, Hrw. intros H.
    repeat case_match; simplify_eq/=; try lia. apply Hslice; lia.
  - unfold ZipRecruiter.scrape. rewrite Hin, Hrw. intros H.
    repeat case_match; simplify_eq/=; apply Hslice; lia.
  - unfold Bayt.scrape. rewrite Hin, Hrw. intros H.
    repeat case_match; simplify_eq/=; apply Hslice; lia.
  - unfold Naukri.scrape. rewrite Hin, Hrw. intros H.
    repeat case_match; simplify_eq/=; apply Hslice; lia.
  - unfold BDJobs.scrape. rewrite Hin, Hrw. intros H.
    repeat case_match; simplify_eq/=; apply Hslice; lia.
  - unfold GoogleCareers.scrape. rewrite Hin, Hrw. intros H.
    repeat case_match; simplify_eq/=; apply Hslice; lia.
Qed.

Lemma dispatch_at_most net input inp rw sites :
  Input.results_wanted inp = Some rw -> 0 <= rw -> GOOGLE ∉ sites ->
  forall h results h',
    h !! input = Some inp ->
    dispatch net input sites h = (results, h') ->
    (sum_list (List.map (fun x => length (jobs x.2)) (fulfilled results))
     <= length sites * Z.to_nat rw)%nat.
Proof.
  intros Hrw Hpos. induction sites as [|site sites IH];
    intros Hg h results h' Hin; simpl.
  - by intros [= <- <-].
  - destruct (scrapeSite net input site h) as [r h1] eqn:H1.
    destruct (dispatch net input sites h1) as [rs h2] eqn:H2.
    intros [= <- <-].
    assert (h1 !! input = Some inp) as Hin1.
    { eapply extends_lookup; [by eapply scrapeSite_extends|done]. }
    apply not_elem_of_cons in Hg as [Hsite Hg].
    specialize (IH Hg h1 rs h2 Hin1 H2).
    unfold scrapeSite in H1.
    destruct (SCRAPER_MAP site) as [c|] eqn:Hmap.
    + destruct (scrape net c input h) as [[resp|m|] h0] eqn:Hs;
        injection H1 as <- <-; simpl; try lia.
      assert (c <> Google) as Hc.
      { intros ->. destruct site; simpl in Hmap; congruence. }
      pose proof (scrape_at_most _ _ _ _ _ _ _ _ Hc Hin Hrw Hpos Hs). lia.
    + injection H1 as <- <-. simpl. lia.
Qed.

(** X27.  When [google] is not among the sites and [results_wanted] is not
    negative, [scrapeJobs] returns at most [results_wanted] records for
    each site asked for. *)
Theorem scrapeJobs_at_most net params h sites res h' :
  resolveSites (Params.site_name params) = Ok sites ->
  GOOGLE ∉ sites ->
  0 <= default 15 (Params.results_wanted params) ->
  scrapeJobs net params h = (Fulfilled res, h') ->
  (length (result_jobs res)
   <= length sites
      * Z.to_nat (default 15%Z (Params.results_wanted params)))%nat.
Proof.
  intros Hs Hg Hpos
    [(m & [=] & _)|(sites' & country & jobType & results & Hs' & _ & _ & Hd & Hr)]
    %scrapeJobs_inv.
  rewrite Hs in Hs'. injection Hs' as <-.
  destruct (existsb isPending results); [done|]. injection Hr as ->. simpl.
  rewrite sort_Permutation, collect_length.
  eapply (dispatch_at_most net (length h)
            (scraperInput params sites country jobType)); try done.
  by apply list_lookup_middle.
Qed.

Lemma scrapeJobs_at_most_witness :
  exists res h',
    scrapeJobs repeating threeRepeating [] = (Fulfilled res, h')
    /\ (length (result_jobs res) <= 45)%nat.
Proof.
  eexists _, _. split; [evaluate|].
  refine (scrapeJobs_at_most repeating threeRepeating []
            [LINKEDIN; NAUKRI; ZIP_RECRUITER] _ _ _ _ _ _).
  - evaluate.
  - rewrite list_elem_of_In. simpl. intuition discriminate.
  - vm_compute. discriminate.
  - evaluate.
Defined.

Lemma dispatch_sites net input sites : forall h results h' s response,
  dispatch net input sites h = (results, h') ->
  Fulfilled (s, response) ∈ results ->
  exists site, site ∈ sites /\ s = Site_value site
               /\ is_Some (SCRAPER_MAP site).
Proof.
  induction sites as [|site sites IH]; intros h results h' s response; simpl.
  - intros [= <- <-]. by intros ?%elem_of_nil.
  - destruct (scrapeSite net input site h) as [r h1] eqn:H1.
    destruct (dispatch net input sites h1) as [rs h2] eqn:H2.
    intros [= <- <-] [Hr|Hr]%elem_of_cons.
    + exists site. split; [by left|]. unfold scrapeSite in H1.
      destruct (SCRAPER_MAP site) as [c|]; [|by simplify_eq].
      destruct (scrape net c input h) as [[resp|m|] h0]; simplify_eq.
      by eauto.
    + destruct (IH _ _ _ _ _ H2 Hr) as (site' & Hin & Heq).
      exists site'. split; [by right|done].
Qed.

(** X28.  Every record [scrapeJobs] returns has in [site] the value of one
    of the sites asked for, and never that of Google Careers. *)
Theorem scrapeJobs_sites net params h sites res h' r :
  resolveSites (Params.site_name params) = Ok sites ->
  scrapeJobs net params h = (Fulfilled res, h') ->
  r ∈ result_jobs res ->
  exists site, site ∈ sites /\ Flat.site r = Site_value site
               /\ site <> GOOGLE_CAREERS.
Proof.
  intros Hs
    [(m & [=] & _)|(sites' & country & jobType & results & Hs' & _ & _ & Hd & Hr)]
    %scrapeJobs_inv Hin.
  rewrite Hs in Hs'. injection Hs' as <-.
  destruct (existsb isPending results); [done|]. injection Hr as ->.
  simpl in Hin. rewrite sort_Permutation in Hin.
  unfold collect in Hin. apply list_elem_of_In, in_flat_map in Hin
    as ([[s response]|m|] & Hres & Hr); [|done..].
  apply in_map_iff in Hr as (job & <- & _).
  apply list_elem_of_In in Hres.
  destruct (dispatch_sites _ _ _ _ _ _ _ _ Hd Hres) as (site & Hsite & -> & Hmap).
  exists site. split; [done|]. split.
  - destruct (flattenJob_initial job (Site_value site)
                (CountryValue_name country) params)
      as (i & lo & hi & cur & src & ->). done.
  - intros ->. by destruct Hmap.
Qed.

Lemma scrapeJobs_sites_witness :
  exists res h' r,
    scrapeJobs repeating threeRepeating [] = (Fulfilled res, h')
    /\ result_jobs res !! 0%nat = Some r
    /\ exists site,
         site ∈ [LINKEDIN; NAUKRI; ZIP_RECRUITER]
         /\ Flat.site r = Site_value site /\ site <> GOOGLE_CAREERS.
Proof.
  eexists _, _, _. split; [evaluate|]. split; [evaluate|].
  eapply (scrapeJobs_sites repeating threeRepeating []); [evaluate|evaluate|].
  apply (list_elem_of_lookup_2 _ 0%nat). evaluate.
Defined.
End Bounds.

(** ** Pagination ends *)

Section Settles.
Import Adapters Scraper.










End Settles.

(** ** The work-from-home kind of Naukri *)

Section NaukriFields.
Import Adapters.

Lemma startsWith_app_l p s t :
  startsWith p s = true -> startsWith p (s ++ t) = true.
Proof.
  revert s. induction p as [|a p IH]; intros s; simpl; [done|].
  destruct s as [|b s]; simpl; [done|].
  intros [-> Hp]%andb_true_iff. by apply IH.
Qed.

Lemma includes_app_l p s t :
  includes p s = true -> includes p (s ++ t) = true.
Proof.
  induction s as [|c s IH].
  - simpl. rewrite orb_false_r. intros H. destruct p; [|done]. by destruct t.
  - change ((c :: s) ++ t) with (c :: (s ++ t)). cbn [includes].
    intros [H|H]%orb_true_iff.
    + pose proof (startsWith_app_l p (c :: s) t H) as H'.
      change ((c :: s) ++ t) with (c :: (s ++ t)) in H'. by rewrite H'.
    + rewrite (IH H). by rewrite orb_true_r.
Qed.

Lemma toLowerCase_app s t :
  toLowerCase (s ++ t) = toLowerCase s ++ toLowerCase t.
Proof. apply List.map_app. Qed.

(** X30.  [inferWfhType] of the Naukri adapter always finds a kind, one of
    [Hybrid], [Remote] and [Work from office], never [undefined]; and a
    title that says hybrid gives [Hybrid] whatever else is said. *)
Theorem inferWfhType_values placeholders title description :
  let wfh := Naukri.inferWfhType placeholders title description in
  (wfh = Some (u "Hybrid") \/ wfh = Some (u "Remote")
   \/ wfh = Some (u "Work from office"))
  /\ (includes (u "hybrid") (toLowerCase title) = true ->
      wfh = Some (u "Hybrid")).
Proof.
  unfold Naukri.inferWfhType.
  set (combined := toLowerCase (title ++ _)).
  split.
  - destruct (includes (u "hybrid") combined); [by auto|].
    destruct (includes (u "remote") combined); [by auto|].
    rewrite orb_true_r. by auto.
  - intros H. unfold combined. rewrite toLowerCase_app.
    by rewrite (includes_app_l _ _ _ H).
Qed.
End NaukriFields.

(** ** Defects *)

Section Defects.
Import Adapters Scraper.

(** C1 (a defect of the Bayt adapter).  Bayt keeps no set of the URLs it
    has seen: on a result page that lists the job [/en/job/1] twice, its
    [scrape] returns two job posts with the same [job_url], and so does
    [scrapeJobs]. *)
Theorem bayt_emits_duplicate_urls :
  let request :=
    scraperInput (paramsFor (Some (OneSite (u "bayt")))) [BAYT] usa None in
  exists response res,
    Bayt.scrape (bayt listedTwice) true 64 0%nat [request]
    = (Fulfilled response, [request])
    /\ List.map job_url (jobs response)
       = [u "https://www.bayt.com/en/job/1";
          u "https://www.bayt.com/en/job/1"]
    /\ scrapeJobs listedTwice (paramsFor (Some (OneSite (u "bayt")))) []
       = (Fulfilled res, [request])
    /\ List.map Flat.job_url (result_jobs res)
       = [u "https://www.bayt.com/en/job/1";
          u "https://www.bayt.com/en/job/1"].
Proof.
  eexists _, _. split; [evaluate|]. split; [evaluate|].
  split; [evaluate|evaluate].
Qed.

(** C2 (a defect of the registry of scraper classes).  With no site
    selected, [resolveSites] gives the nine members of [Site].
    [SCRAPER_MAP] has an entry for eight of them and none for
    [google_careers]: the callback of that site is rejected before any
    adapter is made, so the [GoogleCareers] class, which returns the job
    the site lists when it is run, is never run, and [scrapeJobs] returns
    no job, with no site selected or with [google_careers] selected. *)
Theorem google_careers_not_dispatched :
  resolveSites None = Ok Site_values
  /\ length Site_values = 9%nat
  /\ List.filter (fun site => negb (notNull (SCRAPER_MAP site))) Site_values
     = [GOOGLE_CAREERS]
  /\ (forall net input h,
        scrapeSite net input GOOGLE_CAREERS h
        = (Rejected (u "TypeError: ScraperClass is not a constructor"), h))
  /\ (exists response h',
        scrape careersAnswers GoogleCareers 0%nat
          [scraperInput (paramsFor None) Site_values usa None]
        = (Fulfilled response, h')
        /\ length (jobs response) = 1%nat)
  /\ (exists h',
        scrapeJobs careersAnswers (paramsFor None) []
        = (Fulfilled {| result_jobs := [] |}, h'))
  /\ (exists h',
        scrapeJobs careersAnswers
          (paramsFor (Some (ManySites [u "google_careers"]))) []
        = (Fulfilled {| result_jobs := [] |}, h')).
Proof.
  split; [reflexivity|]. split; [reflexivity|]. split; [reflexivity|].
  split; [reflexivity|]. split; [|split].
  - eexists _, _. split; [evaluate|evaluate].
  - eexists. evaluate.
  - eexists. evaluate.
Qed.

(** C8 (a defect of [getCountry]).  [COUNTRIES] is a plain object:
    ["constructor"], which no [addCountry] registers, is found on
    [Object.prototype], so [getCountry("constructor")] returns that value
    and throws nothing. *)
Theorem getCountry_inherited_key :
  ownProperty (u "constructor") COUNTRIES = None
  /\ getCountry (u "constructor") = Ok (Inherited (u "constructor"))
  /\ getCountry (u " __PROTO__ ") = Ok (Inherited (u "__proto__")).
Proof. repeat split; vm_compute; reflexivity. Qed.
End Defects.
